(** * cgx::sch -- a cooperative task scheduler for bare-metal targets

    Shallow embedding of [inner.hpp] and [scheduler.hpp] (namespace
    [cgx::sch]) together with the task constructor of the older copy of
    the scheduler header (namespace [sch]).

    Conventions of the embedding

    - [time_t] is [std::uint64_t] and [duration_t] is [std::int64_t]; both
      are carried as [Z] and every arithmetic result is brought back into
      range with [to_u64] / [to_i64].  Signed overflow, which C++ leaves
      undefined, is modelled as two's-complement wrap-around.
    - The host is an abstract world [W].  A [std::function<R()>] supplied by
      the host is a function [W -> R * W]; the scheduler's own objects are
      threaded explicitly next to the world.  Host callbacks are assumed not
      to re-enter the scheduler.
    - Operations that can leave defined behaviour (a call through an empty
      [std::function], a dereference of a null lane pointer) return a
      [result]. *)

From Stdlib Require Import ZArith Lia String Ascii Bool List Sorted.
From stdpp Require Import base list.
Import ListNotations.

Local Open Scope Z_scope.

(** ** Fixed-width integers *)

Definition UINT64_MAX : Z := 2 ^ 64 - 1.
Definition INT64_MIN : Z := - 2 ^ 63.
Definition INT64_MAX : Z := 2 ^ 63 - 1.

(** Conversion to [std::uint64_t]. *)
Definition to_u64 (z : Z) : Z := z mod 2 ^ 64.

(** Conversion to [std::int64_t]. *)
Definition to_i64 (z : Z) : Z := (z + 2 ^ 63) mod 2 ^ 64 - 2 ^ 63.

(** Conversion to [std::uint8_t]. *)
Definition to_u8 (z : Z) : Z := z mod 2 ^ 8.

Definition is_u64 (z : Z) : Prop := 0 <= z <= UINT64_MAX.
Definition is_i64 (z : Z) : Prop := INT64_MIN <= z <= INT64_MAX.

(** ** Outcomes of operations that may leave defined behaviour *)

Inductive fault : Type :=
  | NullDeref          (* call through a null [thread_t*] *)
  | BadFunctionCall    (* call of an empty [std::function] *)
  | OutOfBounds        (* [std::array] index past the end *)
  | Diverge.           (* a loop that exhausted its fuel *)

Inductive result (A : Type) : Type :=
  | Done (a : A)
  | Fault (f : fault).
Arguments Done {A} a.
Arguments Fault {A} f.

(** ** C strings *)

(** [std::strncmp(a, b, n) == 0] on the characters before the terminator. *)
Fixpoint strncmp_eq (n : nat) (a b : string) : bool :=
  match n with
  | O => true
  | S n' =>
      match a, b with
      | EmptyString, EmptyString => true
      | String x a', String y b' =>
          if Ascii.eqb x y then strncmp_eq n' a' b' else false
      | _, _ => false
      end
  end.

(** The first [n] characters of a C string: what
    [memcpy(dst, name, len > n ? n : len)] leaves in a zeroed buffer of
    more than [n] characters. *)
Fixpoint str_take (n : nat) (s : string) : string :=
  match n, s with
  | S n', String c s' => String c (str_take n' s')
  | _, _ => EmptyString
  end.

(** ** namespace inner *)

Module inner.

(** *** timer_t *)
Module timer_t.
Section Timer.
Context {W : Type}.

Record t : Type := { m_on_now_cb : option (W -> Z * W) }.

Definition set_now_cb (cb : option (W -> Z * W)) (_ : t) : t :=
  {| m_on_now_cb := cb |}.

Definition now (tm : t) (w : W) : Z * W :=
  match m_on_now_cb tm with
  | None => (0, w)
  | Some cb => let '(n, w') := cb w in (to_u64 n, w')
  end.

Definition elapsed (tm : t) (start : Z) (w : W) : Z * W :=
  let '(n, w') := now tm w in
  (to_i64 (to_i64 n - to_i64 start), w').

Definition make_deadline (tm : t) (delay : Z) (w : W) : Z * W :=
  let '(n, w') := now tm w in (to_u64 (n + delay), w').

Definition is_expired (tm : t) (deadline : Z) (w : W) : bool * W :=
  let '(n, w') := now tm w in (deadline <=? n, w').
End Timer.
Arguments t : clear implicits.
End timer_t.

(** *** min_max_mean_t<T, N>, at [T = std::uint64_t], the only
  instantiation in the repository.  [N] is the template parameter
  (default 32); it must be positive, since [add] divides by it. *)
Module min_max_mean_t.

Record t : Type := {
  m_min : Z;
  m_max : Z;
  m_mean : Z;
  m_is_mean_valid : bool;
  m_index : nat;
  m_values : list Z
}.

(** The default member initialisers. *)
Definition init (N : nat) : t :=
  {| m_min := UINT64_MAX;
     m_max := 0;
     m_mean := 0;
     m_is_mean_valid := false;
     m_index := 0%nat;
     m_values := replicate N 0 |}.

(** [m_mean = 0; for (v : m_values) m_mean += v;] in [uint64_t]. *)
Definition accumulate (vs : list Z) : Z :=
  foldl (fun acc v => to_u64 (acc + v)) 0 vs.

Definition add (N : nat) (value : Z) (s : t) : t :=
  let filled :=
    if m_is_mean_valid s then m_values s else replicate N value in
  let values := <[m_index s := value]> filled in
  {| m_min := Z.min (m_min s) value;
     m_max := Z.max (m_max s) value;
     m_mean := accumulate values / Z.of_nat N;
     m_is_mean_valid := true;
     m_index := ((m_index s + 1) mod N)%nat;
     m_values := values |}.

Definition min (s : t) : Z := m_min s.
Definition max (s : t) : Z := m_max s.
Definition mean (s : t) : Z := m_mean s.

Definition reset (N : nat) (_ : t) : t :=
  {| m_min := UINT64_MAX;
     m_max := 0;
     m_mean := 0;
     m_is_mean_valid := false;
     m_index := 0%nat;
     m_values := replicate N 0 |}.

End min_max_mean_t.

(** *** stop_watch_t *)
Module stop_watch_t.
Section StopWatch.
Context {W : Type}.

Record t : Type := {
  m_start : Z;
  m_duration : min_max_mean_t.t
}.

Definition init : t :=
  {| m_start := 0; m_duration := min_max_mean_t.init 32 |}.

Definition start (tm : timer_t.t W) (sw : t) (w : W) : t * W :=
  let '(n, w') := timer_t.now tm w in
  ({| m_start := n; m_duration := m_duration sw |}, w').

(** [m_duration = elapsed(m_start)]: the signed difference is converted
    to [uint64_t] and handed to [min_max_mean_t::operator=], i.e. [add]. *)
Definition stop (tm : timer_t.t W) (sw : t) (w : W) : t * W :=
  let '(e, w') := timer_t.elapsed tm (m_start sw) w in
  ({| m_start := m_start sw;
      m_duration := min_max_mean_t.add 32 (to_u64 e) (m_duration sw) |}, w').

Definition reset (sw : t) : t :=
  {| m_start := m_start sw;
     m_duration := min_max_mean_t.reset 32 (m_duration sw) |}.

Definition duration (sw : t) : min_max_mean_t.t := m_duration sw.
End StopWatch.
End stop_watch_t.

End inner.

Import inner.

(** ** task_t *)

Module task_t.

Inductive status_t : Type :=
  | invalid
  | running
  | stopped
  | paused
  | delayed.

Definition status_eqb (a b : status_t) : bool :=
  match a, b with
  | invalid, invalid | running, running | stopped, stopped
  | paused, paused | delayed, delayed => true
  | _, _ => false
  end.

Section Task.
Context {W : Type}.

(** [m_timer] is a reference to the process-wide [timer_t::instance()];
    the operations below take that timer as their first argument. *)
Record t : Type := {
  m_name : string;
  m_callback : option (W -> bool * W);
  m_period_tick : Z;
  m_actual_period_tick : Z;
  m_ticks_left : Z;
  m_last_run_tick : Z;
  m_exec_ticks : Z;
  m_prev : Z;
  m_run_time : stop_watch_t.t;
  m_exec_time : stop_watch_t.t;
  m_status : status_t
}.

Definition with_status (x : t) (s : status_t) : t :=
  {| m_name := m_name x; m_callback := m_callback x;
     m_period_tick := m_period_tick x;
     m_actual_period_tick := m_actual_period_tick x;
     m_ticks_left := m_ticks_left x;
     m_last_run_tick := m_last_run_tick x;
     m_exec_ticks := m_exec_ticks x; m_prev := m_prev x;
     m_run_time := m_run_time x; m_exec_time := m_exec_time x;
     m_status := s |}.

Definition with_ticks_left (x : t) (v : Z) : t :=
  {| m_name := m_name x; m_callback := m_callback x;
     m_period_tick := m_period_tick x;
     m_actual_period_tick := m_actual_period_tick x;
     m_ticks_left := v;
     m_last_run_tick := m_last_run_tick x;
     m_exec_ticks := m_exec_ticks x; m_prev := m_prev x;
     m_run_time := m_run_time x; m_exec_time := m_exec_time x;
     m_status := m_status x |}.

Definition with_last_run_tick (x : t) (v : Z) : t :=
  {| m_name := m_name x; m_callback := m_callback x;
     m_period_tick := m_period_tick x;
     m_actual_period_tick := m_actual_period_tick x;
     m_ticks_left := m_ticks_left x;
     m_last_run_tick := v;
     m_exec_ticks := m_exec_ticks x; m_prev := m_prev x;
     m_run_time := m_run_time x; m_exec_time := m_exec_time x;
     m_status := m_status x |}.

Definition with_prev (x : t) (v : Z) : t :=
  {| m_name := m_name x; m_callback := m_callback x;
     m_period_tick := m_period_tick x;
     m_actual_period_tick := m_actual_period_tick x;
     m_ticks_left := m_ticks_left x;
     m_last_run_tick := m_last_run_tick x;
     m_exec_ticks := m_exec_ticks x; m_prev := v;
     m_run_time := m_run_time x; m_exec_time := m_exec_time x;
     m_status := m_status x |}.

Definition with_run_time (x : t) (sw : stop_watch_t.t) : t :=
  {| m_name := m_name x; m_callback := m_callback x;
     m_period_tick := m_period_tick x;
     m_actual_period_tick := m_actual_period_tick x;
     m_ticks_left := m_ticks_left x;
     m_last_run_tick := m_last_run_tick x;
     m_exec_ticks := m_exec_ticks x; m_prev := m_prev x;
     m_run_time := sw; m_exec_time := m_exec_time x;
     m_status := m_status x |}.

Definition with_exec_time (x : t) (sw : stop_watch_t.t) : t :=
  {| m_name := m_name x; m_callback := m_callback x;
     m_period_tick := m_period_tick x;
     m_actual_period_tick := m_actual_period_tick x;
     m_ticks_left := m_ticks_left x;
     m_last_run_tick := m_last_run_tick x;
     m_exec_ticks := m_exec_ticks x; m_prev := m_prev x;
     m_run_time := m_run_time x; m_exec_time := sw;
     m_status := m_status x |}.

(** [task_t() = default].  [m_period_tick] has no initialiser: a
    default-initialised task holds an indeterminate period, given here
    as [garbage]. *)
Definition default (garbage : Z) : t :=
  {| m_name := EmptyString; m_callback := None;
     m_period_tick := garbage;
     m_actual_period_tick := 0;
     m_ticks_left := 0;
     m_last_run_tick := 0;
     m_exec_ticks := 0; m_prev := 0;
     m_run_time := stop_watch_t.init; m_exec_time := stop_watch_t.init;
     m_status := invalid |}.

(** [task_t(const char* name, duration_t period, std::function<bool()>)] *)
Definition make (name : string) (period : Z)
    (callback : option (W -> bool * W)) : t :=
  {| m_name := str_take 8 name; m_callback := callback;
     m_period_tick := period;
     m_actual_period_tick := 0;
     m_ticks_left := 0;
     m_last_run_tick := 0;
     m_exec_ticks := 0; m_prev := 0;
     m_run_time := stop_watch_t.init; m_exec_time := stop_watch_t.init;
     m_status := running |}.

(** [task_t& operator=(const task_t& other)]: seven members are copied,
    the others keep the values of the assigned-to object. *)
Definition assign (self other : t) : t :=
  {| m_name := m_name other; m_callback := m_callback other;
     m_period_tick := m_period_tick other;
     m_actual_period_tick := m_actual_period_tick self;
     m_ticks_left := m_ticks_left self;
     m_last_run_tick := m_last_run_tick other;
     m_exec_ticks := m_exec_ticks self; m_prev := m_prev self;
     m_run_time := m_run_time other; m_exec_time := m_exec_time other;
     m_status := m_status other |}.

(** [task_t(const task_t& other)]: the members that are not copied take
    their default initialisers. *)
Definition copy (other : t) : t :=
  {| m_name := m_name other; m_callback := m_callback other;
     m_period_tick := m_period_tick other;
     m_actual_period_tick := 0;
     m_ticks_left := 0;
     m_last_run_tick := m_last_run_tick other;
     m_exec_ticks := 0; m_prev := 0;
     m_run_time := m_run_time other; m_exec_time := m_exec_time other;
     m_status := m_status other |}.

(** [operator bool() const] *)
Definition to_bool (x : t) : bool := negb (status_eqb (m_status x) invalid).

Definition name (x : t) : string := m_name x.
Definition period (x : t) : Z := m_period_tick x.
Definition last_run_tick (x : t) : Z := m_last_run_tick x.

Definition ticks_left (x : t) : Z :=
  if negb (status_eqb (m_status x) paused) then 0
  else if m_period_tick x =? 0 then 0
  else m_ticks_left x.

Definition status (x : t) : status_t :=
  if ticks_left x <? 0 then delayed else m_status x.

(** [duration_t _ticks_left() const]; [m_prev] is [mutable], so the task
    is returned next to the value. *)
Definition _ticks_left (tm : timer_t.t W) (x : t) (w : W) : Z * t * W :=
  if m_period_tick x <? 0 then
    if status_eqb (m_status x) delayed then
      let '(e, w1) := timer_t.elapsed tm (m_last_run_tick x) w in
      (to_i64 (- e), x, w1)
    else
      let '(n, w1) := timer_t.now tm w in
      let current := n mod to_u64 (to_i64 (- m_period_tick x)) in
      if current <? m_prev x then
        let '(e, w2) := timer_t.elapsed tm (m_last_run_tick x) w1 in
        (to_i64 (- e), with_prev x current, w2)
      else
        (to_i64 (to_u64 (to_u64 (to_i64 (- m_period_tick x)) - current)),
         with_prev x current, w1)
  else
    let '(e, w1) := timer_t.elapsed tm (m_last_run_tick x) w in
    (to_i64 (m_period_tick x - e), x, w1).

(** [bool is_ready() const]; [m_ticks_left] is [mutable]. *)
Definition is_ready (tm : timer_t.t W) (x : t) (w : W) : bool * t * W :=
  if status_eqb (m_status x) invalid then (false, x, w)
  else if status_eqb (m_status x) stopped then (false, x, w)
  else
    let '(remaining, x1, w1) := _ticks_left tm x w in
    let x2 := with_ticks_left x1 remaining in
    if m_ticks_left x2 <=? 0 then (true, x2, w1) else (false, x2, w1).

(** [run()] up to the call of the callback. *)
Definition run_begin (tm : timer_t.t W) (x : t) (w : W) : t * W :=
  let '(et1, w1) := stop_watch_t.stop tm (m_exec_time x) w in
  let '(et2, w2) := stop_watch_t.start tm et1 w1 in
  let x1 := with_status (with_exec_time x et2) running in
  let '(n, w3) := timer_t.now tm w2 in
  let x2 :=
    if 0 <=? m_period_tick x1 then with_last_run_tick x1 n
    else with_last_run_tick x1 (to_u64 (n - ticks_left x1)) in
  let '(rt, w4) := stop_watch_t.start tm (m_run_time x2) w3 in
  (with_run_time x2 rt, w4).

(** [run()] after the callback has returned [keep]; the scoped
    stop-watch is released on leaving the function. *)
Definition run_end (tm : timer_t.t W) (x : t) (keep : bool) (w : W)
    : t * W :=
  let x1 := with_status x (if keep then paused else invalid) in
  let '(rt, w1) := stop_watch_t.stop tm (m_run_time x1) w in
  (with_run_time x1 rt, w1).

Definition run (tm : timer_t.t W) (x : t) (w : W) : result (t * W) :=
  if status_eqb (m_status x) invalid then Done (x, w)
  else if status_eqb (m_status x) stopped then Done (x, w)
  else
    let '(x1, w1) := run_begin tm x w in
    match m_callback x1 with
    | None => Fault BadFunctionCall
    | Some cb =>
        let '(keep, w2) := cb w1 in
        Done (run_end tm x1 keep w2)
    end.

Definition invalidate (x : t) : t := with_status x invalid.

Definition stop (x : t) : t := with_status x stopped.

Definition start (tm : timer_t.t W) (x : t) (w : W) : t * W :=
  let x1 := with_status x paused in
  let x2 := with_run_time x1 (stop_watch_t.reset (m_run_time x1)) in
  let x3 := with_exec_time x2 (stop_watch_t.reset (m_exec_time x2)) in
  let '(et, w1) := stop_watch_t.start tm (m_exec_time x3) w in
  (with_exec_time x3 et, w1).

Definition reset_run_time (x : t) : t :=
  with_run_time x (stop_watch_t.reset (m_run_time x)).

End Task.
Arguments t : clear implicits.
End task_t.

(** ** The older copy of the header (namespace [sch]): task construction *)

Module sch_legacy.
Section Task.
Context {W : Type}.

Record task_t : Type := {
  m_name : string;
  m_callback : option (W -> bool * W);
  m_period_tick : Z;
  m_last_run_tick : Z;
  m_exec_ticks : Z;
  m_run_time : stop_watch_t.t;
  m_status : task_t.status_t
}.

(** [task_t(const char* name, duration_t period, std::function<bool()>)]
    of the older header: the status initialiser is [paused]. *)
Definition make (name : string) (period : Z)
    (callback : option (W -> bool * W)) : task_t :=
  {| m_name := str_take 8 name; m_callback := callback;
     m_period_tick := period;
     m_last_run_tick := 0;
     m_exec_ticks := 0;
     m_run_time := stop_watch_t.init;
     m_status := task_t.paused |}.
End Task.
Arguments task_t : clear implicits.
End sch_legacy.

(** ** thread<N>: an execution lane

    [N] is the size of [m_tasks_list]; the model reads it off the list. *)

Module thread.
Section Lane.
Context {W : Type}.

Record t : Type := {
  m_tasks_list : list (task_t.t W);
  m_watch : stop_watch_t.t;
  m_index : nat;
  m_lock_cb : option (W -> W);
  m_unlock_cb : option (W -> W)
}.

Definition N (l : t) : nat := length (m_tasks_list l).

(** A default-initialised lane of [n] slots. *)
Definition make (n : nat) (garbage : Z) : t :=
  {| m_tasks_list := replicate n (task_t.default garbage);
     m_watch := stop_watch_t.init;
     m_index := 0%nat;
     m_lock_cb := None;
     m_unlock_cb := None |}.

Definition with_tasks_list (l : t) (ts : list (task_t.t W)) : t :=
  {| m_tasks_list := ts; m_watch := m_watch l; m_index := m_index l;
     m_lock_cb := m_lock_cb l; m_unlock_cb := m_unlock_cb l |}.

Definition set_lock_unlock_cb (lock_cb unlock_cb : option (W -> W))
    (l : t) : t :=
  {| m_tasks_list := m_tasks_list l; m_watch := m_watch l;
     m_index := m_index l;
     m_lock_cb := lock_cb; m_unlock_cb := unlock_cb |}.

Definition lock (l : t) (w : W) : W :=
  match m_lock_cb l with Some cb => cb w | None => w end.

Definition unlock (l : t) (w : W) : W :=
  match m_unlock_cb l with Some cb => cb w | None => w end.

(** The counting loop of [size()]. *)
Fixpoint count_valid (ts : list (task_t.t W)) : nat :=
  match ts with
  | [] => 0%nat
  | x :: ts' =>
      ((if task_t.to_bool x then 1 else 0) + count_valid ts')%nat
  end.

Definition size (l : t) (w : W) : nat * W :=
  let w1 := lock l w in
  (count_valid (m_tasks_list l), unlock l w1).

(** [while (!m_tasks_list[m_index]) m_index = (m_index + 1) % N;] *)
Fixpoint skip_invalid (fuel : nat) (ts : list (task_t.t W)) (idx : nat)
    : result nat :=
  match fuel with
  | O => Fault Diverge
  | S fuel' =>
      match ts !! idx with
      | None => Fault OutOfBounds
      | Some x =>
          if task_t.to_bool x then Done idx
          else skip_invalid fuel' ts ((idx + 1) mod length ts)%nat
      end
  end.

(** [void run()].  Next to the lane and the world the model returns the
    slot whose callback was invoked, if any (a ghost value: the C++
    function returns nothing). *)
Definition run (tm : timer_t.t W) (l : t) (w : W)
    : result (t * W * option nat) :=
  let '(sz, w0) := size l w in
  if (sz =? 0)%nat then Done (l, w0, None)
  else
    let w1 := lock l w0 in
    let '(watch1, w2) := stop_watch_t.start tm (m_watch l) w1 in
    match skip_invalid (N l) (m_tasks_list l) (m_index l) with
    | Fault f => Fault f
    | Done idx =>
        match m_tasks_list l !! idx with
        | None => Fault OutOfBounds
        | Some task =>
            let '(ready, task1, w3) := task_t.is_ready tm task w2 in
            match (if ready then task_t.run tm task1 w3
                   else Done (task1, w3)) with
            | Fault f => Fault f
            | Done (task2, w4) =>
                let w5 := unlock l w4 in
                let '(watch2, w6) := stop_watch_t.stop tm watch1 w5 in
                Done ({| m_tasks_list := <[idx := task2]> (m_tasks_list l);
                         m_watch := watch2;
                         m_index := ((idx + 1) mod N l)%nat;
                         m_lock_cb := m_lock_cb l;
                         m_unlock_cb := m_unlock_cb l |},
                      w6,
                      if ready then Some idx else None)
            end
        end
    end.

(** The first slot, in slot order, that satisfies [p]: the range-for
    loops of [add], [pkill], [start] and [stop] leave at that slot. *)
Fixpoint find_first (p : task_t.t W -> bool) (ts : list (task_t.t W))
    : option nat :=
  match ts with
  | [] => None
  | x :: ts' => if p x then Some 0%nat else S <$> find_first p ts'
  end.

Definition add (l : t) (task : task_t.t W) (w : W) : bool * t * W :=
  let w1 := lock l w in
  match find_first (fun x => negb (task_t.to_bool x)) (m_tasks_list l) with
  | Some i =>
      match m_tasks_list l !! i with
      | Some x =>
          (true,
           with_tasks_list l (<[i := task_t.assign x task]> (m_tasks_list l)),
           unlock l w1)
      | None => (false, l, unlock l w1)
      end
  | None => (false, l, unlock l w1)
  end.

(** [task && std::strncmp(task.name().data(), name, 8) == 0] *)
Definition matches (name : string) (x : task_t.t W) : bool :=
  task_t.to_bool x && strncmp_eq 8 (task_t.name x) name.

Definition pkill (l : t) (name : string) (w : W) : bool * t * W :=
  let w1 := lock l w in
  match find_first (matches name) (m_tasks_list l) with
  | Some i =>
      match m_tasks_list l !! i with
      | Some x =>
          (true,
           with_tasks_list l (<[i := task_t.invalidate x]> (m_tasks_list l)),
           unlock l w1)
      | None => (false, l, unlock l w1)
      end
  | None => (false, l, unlock l w1)
  end.

Definition start (tm : timer_t.t W) (l : t) (name : string) (w : W)
    : bool * t * W :=
  let w1 := lock l w in
  match find_first (matches name) (m_tasks_list l) with
  | Some i =>
      match m_tasks_list l !! i with
      | Some x =>
          let '(x', w2) := task_t.start tm x w1 in
          (true, with_tasks_list l (<[i := x']> (m_tasks_list l)),
           unlock l w2)
      | None => (false, l, unlock l w1)
      end
  | None => (false, l, unlock l w1)
  end.

Definition stop (l : t) (name : string) (w : W) : bool * t * W :=
  let w1 := lock l w in
  match find_first (matches name) (m_tasks_list l) with
  | Some i =>
      match m_tasks_list l !! i with
      | Some x =>
          (true,
           with_tasks_list l (<[i := task_t.stop x]> (m_tasks_list l)),
           unlock l w1)
      | None => (false, l, unlock l w1)
      end
  | None => (false, l, unlock l w1)
  end.

Definition reset_stats (l : t) (w : W) : t * W :=
  let w1 := lock l w in
  ({| m_tasks_list := task_t.reset_run_time <$> m_tasks_list l;
      m_watch := stop_watch_t.reset (m_watch l);
      m_index := m_index l;
      m_lock_cb := m_lock_cb l;
      m_unlock_cb := m_unlock_cb l |},
   unlock l w1).

(** [n] consecutive calls of [run()], with the slots whose callbacks
    were invoked, in call order. *)
Fixpoint run_n (tm : timer_t.t W) (n : nat) (l : t) (w : W)
    : result (t * W * list (option nat)) :=
  match n with
  | O => Done (l, w, [])
  | S n' =>
      match run tm l w with
      | Fault f => Fault f
      | Done (l1, w1, e) =>
          match run_n tm n' l1 w1 with
          | Fault f => Fault f
          | Done (l2, w2, es) => Done (l2, w2, e :: es)
          end
      end
  end.

End Lane.
Arguments t : clear implicits.
End thread.

(** ** scheduler_t

    The registry holds [observer_ptr<thread_t>]: raw, non-owning pointers
    to lanes that the host allocates.  A pointer is an address into the
    host's lane store; [None] is [nullptr]. *)

Module scheduler_t.
Section Scheduler.
Context {W : Type}.

Record t : Type := { m_threads : list (option nat) }.

Definition store : Type := list (thread.t W).

(** [scheduler_t(std::function<time_t()> on_now_cb)]: an all-null
    registry of eight slots; the callback is installed in the
    process-wide timer. *)
Definition make (on_now_cb : option (W -> Z * W)) (tm : timer_t.t W)
    : t * timer_t.t W :=
  ({| m_threads := replicate 8 None |}, timer_t.set_now_cb on_now_cb tm).

(** [*p] for a lane pointer. *)
Definition deref (lanes : store) (p : option nat) : result (thread.t W) :=
  match p with
  | None => Fault NullDeref
  | Some a =>
      match lanes !! a with
      | Some l => Done l
      | None => Fault NullDeref
      end
  end.

(** [void run(const uint8_t thread = 0)].  The parameter is a
    [uint8_t]: the integer of the caller is converted on the way in, and
    the body sees its value modulo 256. *)
Definition run (tm : timer_t.t W) (s : t) (thread : Z)
    (lanes : store) (w : W) : result (store * W) :=
  let thread := Z.to_nat (to_u8 thread) in
  if (length (m_threads s) <=? thread)%nat then Done (lanes, w)
  else
    match m_threads s !! thread with
    | None => Fault OutOfBounds
    | Some p =>
        match deref lanes p with
        | Fault f => Fault f
        | Done l =>
            match thread.run tm l w with
            | Fault f => Fault f
            | Done (l', w', _) =>
                Done (match p with
                      | Some a => <[a := l']> lanes
                      | None => lanes
                      end, w')
            end
        end
    end.

(** [bool add(observer_ptr<thread_t> thread)] *)
Fixpoint add_thread_loop (ps : list (option nat)) (thread : option nat)
    : option (list (option nat)) :=
  match ps with
  | [] => None
  | None :: ps' => Some (thread :: ps')
  | Some a :: ps' => cons (Some a) <$> add_thread_loop ps' thread
  end.

Definition add_thread (s : t) (thread : option nat) : bool * t :=
  match add_thread_loop (m_threads s) thread with
  | Some ps => (true, {| m_threads := ps |})
  | None => (false, s)
  end.

(** [bool add(const task_t& task, const uint8_t thread = 0)], with the
    same conversion of the lane index. *)
Definition add (s : t) (task : task_t.t W) (thread : Z)
    (lanes : store) (w : W) : result (bool * store * W) :=
  let thread := Z.to_nat (to_u8 thread) in
  if (length (m_threads s) <=? thread)%nat then Done (false, lanes, w)
  else
    match m_threads s !! thread with
    | None => Fault OutOfBounds
    | Some p =>
        match deref lanes p with
        | Fault f => Fault f
        | Done l =>
            let '(b, l', w') := thread.add l task w in
            Done (b,
                  match p with
                  | Some a => <[a := l']> lanes
                  | None => lanes
                  end, w')
        end
    end.

(** [for (auto& t : m_threads) if (t && t->op(name)) return true;
    return false;] *)
Fixpoint broadcast (op : thread.t W -> W -> bool * thread.t W * W)
    (ps : list (option nat)) (lanes : store) (w : W)
    : result (bool * store * W) :=
  match ps with
  | [] => Done (false, lanes, w)
  | None :: ps' => broadcast op ps' lanes w
  | Some a :: ps' =>
      match deref lanes (Some a) with
      | Fault f => Fault f
      | Done l =>
          let '(b, l', w') := op l w in
          if b then Done (true, <[a := l']> lanes, w')
          else broadcast op ps' (<[a := l']> lanes) w'
      end
  end.

Definition pkill (s : t) (name : string) (lanes : store) (w : W)
    : result (bool * store * W) :=
  broadcast (fun l => thread.pkill l name) (m_threads s) lanes w.

Definition start (tm : timer_t.t W) (s : t) (name : string)
    (lanes : store) (w : W) : result (bool * store * W) :=
  broadcast (fun l => thread.start tm l name) (m_threads s) lanes w.

Definition stop (s : t) (name : string) (lanes : store) (w : W)
    : result (bool * store * W) :=
  broadcast (fun l => thread.stop l name) (m_threads s) lanes w.

(** [for (auto& t : m_threads) if (t) t->reset_stats();] *)
Fixpoint reset_stats_loop (ps : list (option nat)) (lanes : store) (w : W)
    : result (store * W) :=
  match ps with
  | [] => Done (lanes, w)
  | None :: ps' => reset_stats_loop ps' lanes w
  | Some a :: ps' =>
      match deref lanes (Some a) with
      | Fault f => Fault f
      | Done l =>
          let '(l', w') := thread.reset_stats l w in
          reset_stats_loop ps' (<[a := l']> lanes) w'
      end
  end.

Definition reset_stats (s : t) (lanes : store) (w : W)
    : result (store * W) :=
  reset_stats_loop (m_threads s) lanes w.

End Scheduler.
Arguments t : clear implicits.
Arguments store : clear implicits.
End scheduler_t.

(** ** Tasks that the public interface can produce *)

Section Reachable.
Context {W : Type}.

(** Construction, copy, assignment and the public operations, at any
    timer and in any world.  [reach_run_begin] is the state a task is in
    while its callback executes. *)
Inductive reachable : task_t.t W -> Prop :=
  | reach_default garbage :
      reachable (task_t.default garbage)
  | reach_make name period callback :
      reachable (task_t.make name period callback)
  | reach_copy x :
      reachable x -> reachable (task_t.copy x)
  | reach_assign x y :
      reachable x -> reachable y -> reachable (task_t.assign x y)
  | reach_is_ready tm x w :
      reachable x -> reachable (snd (fst (task_t.is_ready tm x w)))
  | reach_run_begin tm x w :
      reachable x -> reachable (fst (task_t.run_begin tm x w))
  | reach_run tm x w x' w' :
      reachable x -> task_t.run tm x w = Done (x', w') -> reachable x'
  | reach_start tm x w :
      reachable x -> reachable (fst (task_t.start tm x w))
  | reach_stop x :
      reachable x -> reachable (task_t.stop x)
  | reach_invalidate x :
      reachable x -> reachable (task_t.invalidate x)
  | reach_reset_run_time x :
      reachable x -> reachable (task_t.reset_run_time x).

(** The value and the verdict of one readiness check. *)
Definition time_left (tm : timer_t.t W) (x : task_t.t W) (w : W) : Z :=
  fst (fst (task_t._ticks_left tm x w)).

Definition ready (tm : timer_t.t W) (x : task_t.t W) (w : W) : bool :=
  fst (fst (task_t.is_ready tm x w)).

(** A populated slot whose task has a callback and is ready whenever it
    is polled in a world of [P]. *)
Definition always_ready (P : W -> Prop) (tm : timer_t.t W)
    (x : task_t.t W) : Prop :=
  task_t.to_bool x = true /\
  is_Some (task_t.m_callback x) /\
  forall w, P w -> ready tm x w = true.

(** The slot [k] places after the cursor, cyclically. *)
Definition slot_after (l : thread.t W) (k : nat) : nat :=
  ((thread.m_index l + k) mod thread.N l)%nat.

(** The world in which [thread<N>::run()] polls its task: after
    [size()], [lock()] and the start of the lane's stop-watch. *)
Definition poll_world (tm : timer_t.t W) (l : thread.t W) (w : W) : W :=
  snd (stop_watch_t.start tm (thread.m_watch l)
         (thread.lock l (snd (thread.size l w)))).

(** [P] is kept by everything the host supplies to the lane: the clock,
    the lock and unlock callbacks, and the callbacks of its tasks. *)
Record kept_by_host (P : W -> Prop) (tm : timer_t.t W)
    (l : thread.t W) : Prop := {
  kept_clock : forall w, P w -> P (snd (timer_t.now tm w));
  kept_lock : forall w, P w -> P (thread.lock l w);
  kept_unlock : forall w, P w -> P (thread.unlock l w);
  kept_callback : forall i x cb w,
    thread.m_tasks_list l !! i = Some x ->
    task_t.m_callback x = Some cb -> P w -> P (snd (cb w))
}.

(** What [task_t::run()] does to a task that is neither invalid nor
    stopped and carries the callback [cb]: the callback is called once,
    between the two halves of [run()]. *)
Definition invoke (tm : timer_t.t W) (cb : W -> bool * W)
    (x : task_t.t W) (w : W) : task_t.t W * W :=
  let b := task_t.run_begin tm x w in
  let r := cb (snd b) in
  task_t.run_end tm (fst b) (fst r) (snd r).

(** The lane and the world at the end of a [thread<N>::run()] that
    started in [w], stopped its scan at slot [i] and is done with that
    slot's task, now [x'], in the world [w4]: the cursor goes one past
    [i], the lane is unlocked and its stop-watch stopped. *)
Definition leave (tm : timer_t.t W) (l : thread.t W) (w : W) (i : nat)
    (x' : task_t.t W) (w4 : W) : thread.t W * W :=
  let watch1 :=
    fst (stop_watch_t.start tm (thread.m_watch l)
           (thread.lock l (snd (thread.size l w)))) in
  let s := stop_watch_t.stop tm watch1 (thread.unlock l w4) in
  ({| thread.m_tasks_list := <[i := x']> (thread.m_tasks_list l);
      thread.m_watch := fst s;
      thread.m_index := ((i + 1) mod thread.N l)%nat;
      thread.m_lock_cb := thread.m_lock_cb l;
      thread.m_unlock_cb := thread.m_unlock_cb l |},
   snd s).

(** A turn of slot [i]: its task is polled, found ready and executed.
    There is no turn if the slot does not exist, if its task is not
    ready when polled or if it has no callback. *)
Definition turn (tm : timer_t.t W) (l : thread.t W) (w : W) (i : nat)
    : option (thread.t W * W) :=
  match thread.m_tasks_list l !! i with
  | Some x =>
      let p := task_t.is_ready tm x (poll_world tm l w) in
      match fst (fst p), task_t.m_callback x with
      | true, Some cb =>
          let r := invoke tm cb (snd (fst p)) (snd p) in
          Some (leave tm l w i (fst r) (snd r))
      | _, _ => None
      end
  | None => None
  end.

(** One turn for each slot of [slots], in that order. *)
Fixpoint turns (tm : timer_t.t W) (slots : list nat) (l : thread.t W)
    (w : W) : option (thread.t W * W) :=
  match slots with
  | [] => Some (l, w)
  | i :: slots' =>
      match turn tm l w i with
      | Some (l1, w1) => turns tm slots' l1 w1
      | None => None
      end
  end.

(** Slot [i] holds [x], the first populated slot in slot order whose
    name agrees with [name] on the first eight characters. *)
Definition first_match (name : string) (ts : list (task_t.t W))
    (i : nat) (x : task_t.t W) : Prop :=
  ts !! i = Some x /\
  task_t.to_bool x = true /\
  str_take 8 (task_t.name x) = str_take 8 name /\
  forall j y, (j < i)%nat -> ts !! j = Some y ->
    task_t.to_bool y = true ->
    str_take 8 (task_t.name y) <> str_take 8 name.
End Reachable.

(** ** Vocabulary for the rolling statistic *)

(** The sum of the ring contents, as a mathematical integer. *)
Definition ring_sum (vs : list Z) : Z := foldr Z.add 0 vs.

(** [add(v)] for each [v] of [vs] in turn. *)
Definition feed (N : nat) (vs : list Z) (s : min_max_mean_t.t)
    : min_max_mean_t.t :=
  foldl (fun acc v => min_max_mean_t.add N v acc) s vs.

(** Once a sample has been added the ring holds [N] samples, all of
    them [uint64_t] values. *)
Definition seeded (N : nat) (s : min_max_mean_t.t) : Prop :=
  min_max_mean_t.m_is_mean_valid s = true /\
  length (min_max_mean_t.m_values s) = N /\
  Forall is_u64 (min_max_mean_t.m_values s).

(** ** Vocabulary for the registry *)

(** The registry with its null slots removed. *)
Definition registered (s : scheduler_t.t) : scheduler_t.t :=
  {| scheduler_t.m_threads := Some <$> omap id (scheduler_t.m_threads s) |}.

(** ** A host with a manually stepped clock

    The world is the current tick; reading the clock returns it. *)

Module host.
Definition clock : timer_t.t Z :=
  {| timer_t.m_on_now_cb := Some (fun w : Z => (w, w)) |}.

(** A callback that keeps its task and takes one tick. *)
Definition keep : option (Z -> bool * Z) :=
  Some (fun w : Z => (true, w + 1)).

(** A callback that drops its task. *)
Definition drop : option (Z -> bool * Z) :=
  Some (fun w : Z => (false, w)).

(** [x.is_ready()] at tick [tick]; the task afterwards. *)
Definition poll (tick : Z) (x : task_t.t Z) : task_t.t Z :=
  snd (fst (task_t.is_ready clock x tick)).

(** [x.run()] at tick [tick]; the task afterwards. *)
Definition exec (tick : Z) (x : task_t.t Z) : task_t.t Z :=
  match task_t.run clock x tick with
  | Done (x', _) => x'
  | Fault _ => x
  end.

(** A task of period [-10], polled at ticks 5 and 12, run at tick 12
    and polled again at ticks 15 and 23, where it is found ready. *)
Definition phase_task : task_t.t Z := task_t.make "t1" (-10) keep.

Definition late_task : task_t.t Z :=
  poll 23 (poll 15 (exec 12 (poll 12 (poll 5 phase_task)))).

(** A clock that counts up and starts over every thousand readings. *)
Definition wrapping_clock : timer_t.t Z :=
  {| timer_t.m_on_now_cb := Some (fun w : Z => (w mod 1000, w + 1)) |}.

(** A full lane of three zero-period tasks, cursor at slot 1. *)
Definition lane3 : thread.t Z :=
  {| thread.m_tasks_list :=
       [task_t.make "a" 0 keep; task_t.make "b" 0 keep;
        task_t.make "c" 0 keep];
     thread.m_watch := stop_watch_t.init;
     thread.m_index := 1%nat;
     thread.m_lock_cb := None;
     thread.m_unlock_cb := None |}.

(** A full lane of three tasks of period 10 that have never run, cursor
    at slot 1; each of them is due from tick 10 on. *)
Definition due3 : thread.t Z :=
  {| thread.m_tasks_list :=
       [task_t.make "a" 10 keep; task_t.make "b" 10 keep;
        task_t.make "c" 10 keep];
     thread.m_watch := stop_watch_t.init;
     thread.m_index := 1%nat;
     thread.m_lock_cb := None;
     thread.m_unlock_cb := None |}.

(** A callback that keeps its task and takes no time, and a full lane of
    two tasks of period 10 that carry it. *)
Definition hold : option (Z -> bool * Z) :=
  Some (fun w : Z => (true, w)).

Definition held2 : thread.t Z :=
  {| thread.m_tasks_list :=
       [task_t.make "a" 10 hold; task_t.make "b" 10 hold];
     thread.m_watch := stop_watch_t.init;
     thread.m_index := 0%nat;
     thread.m_lock_cb := None;
     thread.m_unlock_cb := None |}.

(** A lane of two slots holding a one-shot task and a periodic one. *)
Definition lane2 : thread.t Z :=
  {| thread.m_tasks_list :=
       [task_t.make "once" 0 drop; task_t.make "tick" 10 keep];
     thread.m_watch := stop_watch_t.init;
     thread.m_index := 0%nat;
     thread.m_lock_cb := None;
     thread.m_unlock_cb := None |}.

(** A lane whose two tasks were given names that differ only in the
    ninth character, and a third, free slot. *)
Definition twins : thread.t Z :=
  {| thread.m_tasks_list :=
       [task_t.make "abcdefghX" 10 keep; task_t.make "abcdefghY" 10 keep;
        task_t.default 0];
     thread.m_watch := stop_watch_t.init;
     thread.m_index := 0%nat;
     thread.m_lock_cb := None;
     thread.m_unlock_cb := None |}.

(** A lane of four slots to which the task ["t1"] of period 10 has been
    added, and [run()] at each of a list of ticks. *)
Definition lane4 : thread.t Z :=
  snd (fst (thread.add (thread.make 4 0) (task_t.make "t1" 10 keep) 0)).

Fixpoint drive (ticks : list Z) (l : thread.t Z) : list (option nat) :=
  match ticks with
  | [] => []
  | tick :: ticks' =>
      match thread.run clock l tick with
      | Done (l', _, e) => e :: drive ticks' l'
      | Fault _ => []
      end
  end.

(** A new scheduler, and the same with [lane2] (at address 0 of the
    host's lane store) registered. *)
Definition fresh : scheduler_t.t :=
  fst (scheduler_t.make (W := Z) (timer_t.m_on_now_cb clock)
         {| timer_t.m_on_now_cb := None |}).

Definition wired : scheduler_t.t :=
  snd (scheduler_t.add_thread fresh (Some 0%nat)).
End host.

(** ** direction_t and stage_t<N>: a task body in stages

    A stage is a [std::function<direction_t(stage_t&)>]: it receives the
    machine and may change it through [sleep].  [m_stages] is fixed at
    construction and is passed next to the mutable members; [N] is its
    length. *)

Module direction_t.
Inductive t : Type :=
  | next
  | stay
  | reset.
End direction_t.

Module stage_t.
Section Stage.
Context {W : Type}.

Record t : Type := {
  m_index : nat;
  m_is_sleeping : bool;
  m_deadline : Z
}.

Definition stage_fn : Type := t -> W -> direction_t.t * t * W.

(** The members after construction. *)
Definition init : t :=
  {| m_index := 0%nat; m_is_sleeping := false; m_deadline := 0 |}.

Definition with_index (s : t) (i : nat) : t :=
  {| m_index := i; m_is_sleeping := m_is_sleeping s;
     m_deadline := m_deadline s |}.

(** [direction_t sleep(const std::size_t ticks)] *)
Definition sleep (tm : timer_t.t W) (ticks : Z) (s : t) (w : W)
    : direction_t.t * t * W :=
  let '(s1, w1) :=
    if m_is_sleeping s then (s, w)
    else
      let '(d, w') := timer_t.make_deadline tm ticks w in
      ({| m_index := m_index s; m_is_sleeping := true; m_deadline := d |},
       w') in
  let '(expired, w2) := timer_t.is_expired tm (m_deadline s1) w1 in
  if expired then
    (direction_t.next,
     {| m_index := m_index s1; m_is_sleeping := false;
        m_deadline := m_deadline s1 |}, w2)
  else (direction_t.stay, s1, w2).

(** [SCH_SLEEP(ticks)] *)
Definition SCH_SLEEP (tm : timer_t.t W) (ticks : Z) : stage_fn :=
  fun s w => sleep tm ticks s w.

(** [void run()] *)
Definition run (m_stages : list (option stage_fn)) (s : t) (w : W)
    : result (t * W) :=
  match m_stages !! m_index s with
  | None => Fault OutOfBounds
  | Some here =>
      let s1 := match here with
                | None => with_index s 0%nat
                | Some _ => s
                end in
      match m_stages !! m_index s1 with
      | None => Fault OutOfBounds
      | Some None => Fault BadFunctionCall
      | Some (Some f) =>
          let '(dir, s2, w') := f s1 w in
          Done (match dir with
                | direction_t.next =>
                    with_index s2 ((m_index s2 + 1) mod length m_stages)%nat
                | direction_t.stay => s2
                | direction_t.reset => with_index s2 0%nat
                end, w')
      end
  end.

End Stage.
Arguments t : clear implicits.
Arguments stage_fn : clear implicits.
End stage_t.

(** ** The older header: readiness

    The older header includes its own [inner.hpp], which is not among the
    sources; [elapsed] stands for its [timer_t::elapsed]. *)

Module sch_legacy_task.
Section Task.
Context {W : Type}.
Variable elapsed : Z -> W -> Z * W.

(** [bool is_ready() const] *)
Definition is_ready (x : sch_legacy.task_t W) (w : W) : bool * W :=
  if task_t.status_eqb (sch_legacy.m_status x) task_t.invalid then (false, w)
  else if task_t.status_eqb (sch_legacy.m_status x) task_t.stopped
  then (false, w)
  else if 0 <? sch_legacy.m_period_tick x then
    let '(e, w1) := elapsed (sch_legacy.m_last_run_tick x) w in
    (sch_legacy.m_period_tick x <=? e, w1)
  else if sch_legacy.m_period_tick x <? 0 then
    let '(e, w1) := elapsed (sch_legacy.m_last_run_tick x) w in
    (to_i64 (- sch_legacy.m_period_tick x) <=? e, w1)
  else (false, w).
End Task.
End sch_legacy_task.

(** ** Vocabulary for the further properties *)

(** Where a stage's answer sends a machine of [n] stages that is at
    stage [from]. *)
Definition advance (n : nat) (from : nat) (dir : direction_t.t) : nat :=
  match dir with
  | direction_t.next => ((from + 1) mod n)%nat
  | direction_t.stay => from
  | direction_t.reset => 0%nat
  end.

(** The ring holds no value outside the recorded extremes. *)
Definition within_extremes (s : min_max_mean_t.t) : Prop :=
  Forall (fun x => min_max_mean_t.m_min s <= x <= min_max_mean_t.m_max s)
    (min_max_mean_t.m_values s).

Section Vocabulary.
Context {W : Type}.

(** The slot holds a task whose name agrees with [name] on the first
    eight characters. *)
Definition named (name : string) (x : task_t.t W) : Prop :=
  task_t.to_bool x = true /\
  str_take 8 (task_t.name x) = str_take 8 name.

(** What a slot contributes to [size()]. *)
Definition populated (x : task_t.t W) : nat :=
  if task_t.to_bool x then 1%nat else 0%nat.

(** A nesting depth for the critical section of a lane: [lock] enters,
    [unlock] leaves, and neither the clock nor a task callback moves it. *)
Record critical_section (depth : W -> Z) (tm : timer_t.t W)
    (l : thread.t W) : Prop := {
  cs_lock : forall w, depth (thread.lock l w) = depth w + 1;
  cs_unlock : forall w, depth (thread.unlock l w) = depth w - 1;
  cs_clock : forall w, depth (snd (timer_t.now tm w)) = depth w;
  cs_callback : forall i x cb w,
    thread.m_tasks_list l !! i = Some x ->
    task_t.m_callback x = Some cb ->
    depth (snd (cb w)) = depth w
}.

(** [add(lane)] for each pointer of [ps] in turn. *)
Definition register_all (ps : list (option nat)) (s : scheduler_t.t)
    : scheduler_t.t :=
  foldl (fun acc p => snd (scheduler_t.add_thread acc p)) s ps.
End Vocabulary.

(** ** Further fixtures on the stepped-clock host *)

Module demo.

(** A slot freed after its task, of period [-10], was polled at tick 5. *)
Definition stale : thread.t Z :=
  {| thread.m_tasks_list := [task_t.invalidate (host.poll 5 host.phase_task)];
     thread.m_watch := stop_watch_t.init;
     thread.m_index := 0%nat;
     thread.m_lock_cb := None;
     thread.m_unlock_cb := None |}.

(** A lane with a stopped task and a running one. *)
Definition parked : thread.t Z :=
  {| thread.m_tasks_list :=
       [task_t.stop (task_t.make "a" 0 host.keep);
        task_t.make "b" 0 host.keep];
     thread.m_watch := stop_watch_t.init;
     thread.m_index := 0%nat;
     thread.m_lock_cb := None;
     thread.m_unlock_cb := None |}.

(** Two lanes that both hold a task named ["dup"], registered in the
    first two slots of a scheduler. *)
Definition dup_lane : thread.t Z :=
  {| thread.m_tasks_list := [task_t.make "dup" 10 host.keep];
     thread.m_watch := stop_watch_t.init;
     thread.m_index := 0%nat;
     thread.m_lock_cb := None;
     thread.m_unlock_cb := None |}.

Definition both : scheduler_t.t :=
  register_all [Some 0%nat; Some 1%nat] host.fresh.

(** A host whose world is the pair of the tick and the nesting depth of
    the critical section. *)
Definition depth (w : Z * Z) : Z := snd w.

Definition clock2 : timer_t.t (Z * Z) :=
  {| timer_t.m_on_now_cb := Some (fun w : Z * Z => (fst w, w)) |}.

Definition guarded : thread.t (Z * Z) :=
  {| thread.m_tasks_list :=
       [task_t.make "g" 0
          (Some (fun w : Z * Z => (true, (fst w + 1, snd w))))];
     thread.m_watch := stop_watch_t.init;
     thread.m_index := 0%nat;
     thread.m_lock_cb := Some (fun w : Z * Z => (fst w, snd w + 1));
     thread.m_unlock_cb := Some (fun w : Z * Z => (fst w, snd w - 1)) |}.

(** A machine of two stages: a sleep of five ticks and an empty stage. *)
Definition stages : list (option (stage_t.stage_fn Z)) :=
  [Some (stage_t.SCH_SLEEP host.clock 5); None].

(** The machine asleep at stage 0 with deadline 15. *)
Definition asleep : stage_t.t :=
  {| stage_t.m_index := 0%nat; stage_t.m_is_sleeping := true;
     stage_t.m_deadline := 15 |}.

(** Two tasks of the older header that differ in the sign of the
    period. *)
Definition old_plus : sch_legacy.task_t Z := sch_legacy.make "t" 10 host.keep.
Definition old_minus : sch_legacy.task_t Z :=
  sch_legacy.make "t" (-10) host.keep.
End demo.

(** * Properties *)

(** ** Fixed-width integers *)

Lemma two_64 : 2 ^ 64 = 18446744073709551616.
Proof. reflexivity. Qed.

Lemma two_63 : 2 ^ 63 = 9223372036854775808.
Proof. reflexivity. Qed.

Ltac unfold_ints :=
  unfold is_u64, is_i64, to_u64, to_i64, UINT64_MAX, INT64_MIN, INT64_MAX in *;
  rewrite ?two_64, ?two_63 in *.

Lemma to_u64_range z : is_u64 (to_u64 z).
Proof.
  unfold_ints.
  pose proof (Z.mod_pos_bound z 18446744073709551616). lia.
Qed.

Lemma to_u64_id z : is_u64 z -> to_u64 z = z.
Proof. unfold_ints. intros H. apply Z.mod_small. lia. Qed.

Lemma to_i64_range z : is_i64 (to_i64 z).
Proof.
  unfold_ints.
  pose proof (Z.mod_pos_bound (z + 9223372036854775808) 18446744073709551616).
  lia.
Qed.

Lemma to_i64_id z : is_i64 z -> to_i64 z = z.
Proof.
  unfold_ints. intros H.
  rewrite Z.mod_small; lia.
Qed.

Lemma to_i64_to_u64 z : to_i64 (to_u64 z) = to_i64 z.
Proof.
  unfold to_i64, to_u64.
  rewrite Zplus_mod_idemp_l. reflexivity.
Qed.

Section TimerFacts.
Context {W : Type} (tm : timer_t.t W).

Lemma now_range w : is_u64 (fst (timer_t.now tm w)).
Proof.
  unfold timer_t.now. destruct (timer_t.m_on_now_cb tm) as [cb|].
  - destruct (cb w) as [n w']. apply to_u64_range.
  - simpl. unfold_ints. lia.
Qed.

Lemma elapsed_now start w :
  timer_t.elapsed tm start w =
  (to_i64 (to_i64 (fst (timer_t.now tm w)) - to_i64 start),
   snd (timer_t.now tm w)).
Proof. unfold timer_t.elapsed. destruct (timer_t.now tm w); reflexivity. Qed.

Lemma elapsed_range start w : is_i64 (fst (timer_t.elapsed tm start w)).
Proof. rewrite elapsed_now. apply to_i64_range. Qed.
End TimerFacts.

(** ** The rolling statistic *)

Section RollingStatistic.
Import min_max_mean_t.

Lemma accumulate_from (vs : list Z) (a : Z) :
  is_u64 a ->
  foldl (fun acc v => to_u64 (acc + v)) a vs = to_u64 (a + ring_sum vs).
Proof.
  revert a. induction vs as [|v vs IH]; intros a Ha; simpl.
  - rewrite Z.add_0_r. symmetry. apply to_u64_id, Ha.
  - rewrite IH by apply to_u64_range.
    unfold to_u64. rewrite Zplus_mod_idemp_l. f_equal. lia.
Qed.

Lemma accumulate_sum (vs : list Z) : accumulate vs = to_u64 (ring_sum vs).
Proof.
  unfold accumulate. rewrite accumulate_from; [reflexivity|].
  unfold_ints. lia.
Qed.

Lemma ring_sum_replicate (n : nat) (v : Z) :
  ring_sum (replicate n v) = Z.of_nat n * v.
Proof. induction n as [|n IH]; simpl in *; [reflexivity|]. lia. Qed.

Lemma ring_sum_nonneg (vs : list Z) :
  Forall is_u64 vs -> 0 <= ring_sum vs.
Proof.
  induction 1 as [|v vs Hv _ IH]; simpl; [lia|].
  unfold is_u64 in Hv. lia.
Qed.

Lemma add_first_values (N : nat) (v : Z) (s : t) :
  m_values (add N v (reset N s)) = replicate N v.
Proof. simpl. apply insert_replicate. Qed.

Lemma add_seeded (N : nat) (v : Z) (s : t) :
  is_u64 v ->
  (m_is_mean_valid s = true -> seeded N s) ->
  seeded N (add N v s).
Proof.
  intros Hv Hs. unfold seeded, add; simpl.
  destruct (m_is_mean_valid s) eqn:E.
  - destruct (Hs eq_refl) as (_ & Hlen & Hall).
    repeat split.
    + rewrite length_insert. exact Hlen.
    + apply Forall_insert; assumption.
  - repeat split.
    + rewrite length_insert. apply length_replicate.
    + apply Forall_insert; [|exact Hv].
      apply Forall_replicate, Hv.
Qed.

Lemma feed_seeded (N : nat) (vs : list Z) (s : t) :
  Forall is_u64 vs -> seeded N s -> seeded N (feed N vs s).
Proof.
  revert s. induction vs as [|v vs IH]; intros s Hvs Hs; simpl; [exact Hs|].
  inversion Hvs; subst. apply IH; [assumption|].
  apply add_seeded; auto.
Qed.

Lemma mean_of_add (N : nat) (v : Z) (s : t) :
  m_mean (add N v s) = to_u64 (ring_sum (m_values (add N v s))) / Z.of_nat N.
Proof. unfold add; simpl. rewrite accumulate_sum. reflexivity. Qed.

Lemma mean_of_feed (N : nat) (vs : list Z) (v : Z) (s : t) :
  let s' := feed N (v :: vs) s in
  m_mean s' = to_u64 (ring_sum (m_values s')) / Z.of_nat N.
Proof.
  cbv zeta. revert v s. induction vs as [|x vs IH]; intros v s.
  - simpl. apply mean_of_add.
  - change (feed N (v :: x :: vs) s) with (feed N (x :: vs) (add N v s)).
    apply IH.
Qed.

Lemma last_cons_default (l : list Z) (a d d' : Z) :
  List.last (a :: l) d = List.last (a :: l) d'.
Proof.
  revert a. induction l as [|b l IH]; intros a; [reflexivity|].
  change (List.last (b :: l) d = List.last (b :: l) d'). apply IH.
Qed.

Lemma feed_sorted (N : nat) (vs : list Z) (s : t) (lo hi : Z) :
  m_min s = lo -> m_max s = hi -> lo <= hi ->
  Sorted Z.le (hi :: vs) ->
  m_min (feed N vs s) = lo /\ m_max (feed N vs s) = List.last vs hi.
Proof.
  revert s hi. induction vs as [|x vs IH]; intros s hi Hlo Hhi Hle Hs.
  - simpl. auto.
  - apply Sorted_inv in Hs. destruct Hs as [Hs Hhd].
    apply HdRel_inv in Hhd.
    change (feed N (x :: vs) s) with (feed N vs (add N x s)).
    destruct (IH (add N x s) x) as [A B]; simpl; try lia; try assumption.
    split; [exact A|]. rewrite B.
    destruct vs as [|z vs]; [reflexivity|].
    change (List.last (x :: z :: vs) hi) with (List.last (z :: vs) hi).
    apply last_cons_default.
Qed.
End RollingStatistic.

(** C10 (as stated, refuted): with the default window of 32 samples,
    [reset()] followed by [add(2^59)] leaves [mean() = 0], not the sample:
    the thirty-two copies are summed in a wrapping [uint64_t]. *)
Lemma rolling_mean_first_add_wraps :
  let s := min_max_mean_t.add 32 (2 ^ 59)
             (min_max_mean_t.reset 32 (min_max_mean_t.init 32)) in
  min_max_mean_t.m_values s = replicate 32 (2 ^ 59) /\
  min_max_mean_t.min s = 2 ^ 59 /\
  min_max_mean_t.max s = 2 ^ 59 /\
  min_max_mean_t.mean s = 0 /\
  min_max_mean_t.mean s <> 2 ^ 59.
Proof. vm_compute. repeat split; congruence. Qed.

(** C10 (amended): after [reset()], the first [add(v)] fills the whole ring
    with [v] and gives [min = max = v], and [mean = v] when [N * v] fits in
    [uint64_t]; after every later [add] the ring still holds [N] samples and
    [mean] is the sum of the ring contents, reduced modulo [2^64], divided
    by [N] with truncation -- the truncated arithmetic mean of the ring
    whenever that sum fits in [uint64_t]; and feeding a monotonically
    increasing sequence keeps [min] at the first value and [max] at the
    latest. *)
Theorem rolling_statistic_after_reset
    (N : nat) (v : Z) (vs : list Z) (s0 : min_max_mean_t.t) :
  (0 < N)%nat -> is_u64 v -> Forall is_u64 vs ->
  let s1 := min_max_mean_t.add N v (min_max_mean_t.reset N s0) in
  let s := feed N vs s1 in
  min_max_mean_t.m_values s1 = replicate N v /\
  min_max_mean_t.min s1 = v /\
  min_max_mean_t.max s1 = v /\
  (Z.of_nat N * v <= UINT64_MAX -> min_max_mean_t.mean s1 = v) /\
  length (min_max_mean_t.m_values s) = N /\
  min_max_mean_t.mean s =
    to_u64 (ring_sum (min_max_mean_t.m_values s)) / Z.of_nat N /\
  (ring_sum (min_max_mean_t.m_values s) <= UINT64_MAX ->
   min_max_mean_t.mean s =
     ring_sum (min_max_mean_t.m_values s) / Z.of_nat N) /\
  (Sorted Z.le (v :: vs) ->
   min_max_mean_t.min s = v /\ min_max_mean_t.max s = List.last vs v).
Proof.
  intros HN Hv Hvs s1 s.
  assert (Hvals : min_max_mean_t.m_values s1 = replicate N v)
    by apply add_first_values.
  assert (Hmin : min_max_mean_t.m_min s1 = v).
  { simpl. unfold is_u64 in Hv. lia. }
  assert (Hmax : min_max_mean_t.m_max s1 = v).
  { simpl. unfold is_u64 in Hv. lia. }
  assert (Hseed1 : seeded N s1).
  { apply add_seeded; [exact Hv|]. simpl. discriminate. }
  assert (Hseed : seeded N s) by (apply feed_seeded; assumption).
  assert (Hmean : min_max_mean_t.mean s =
                  to_u64 (ring_sum (min_max_mean_t.m_values s)) / Z.of_nat N).
  { apply (mean_of_feed N vs v (min_max_mean_t.reset N s0)). }
  repeat split.
  - exact Hvals.
  - exact Hmin.
  - exact Hmax.
  - intros Hfit. unfold min_max_mean_t.mean, s1. rewrite mean_of_add.
    fold s1. rewrite Hvals, ring_sum_replicate.
    rewrite to_u64_id by (unfold is_u64 in *; nia).
    rewrite Z.mul_comm. apply Z.div_mul. lia.
  - apply Hseed.
  - exact Hmean.
  - intros Hfit. rewrite Hmean. f_equal. apply to_u64_id.
    destruct Hseed as (_ & _ & Hall).
    pose proof (ring_sum_nonneg _ Hall). unfold is_u64. lia.
  - apply (feed_sorted N vs s1 v v); auto; lia.
  - apply (feed_sorted N vs s1 v v); auto; lia.
Qed.

Lemma rolling_statistic_after_reset_witness :
  let s := feed 4 [7; 12]
             (min_max_mean_t.add 4 5
                (min_max_mean_t.reset 4 (min_max_mean_t.init 4))) in
  min_max_mean_t.m_values s = [5; 7; 12; 5] /\
  min_max_mean_t.mean s = 29 / 4 /\
  min_max_mean_t.min s = 5 /\
  min_max_mean_t.max s = 12.
Proof.
  cbv zeta.
  destruct (rolling_statistic_after_reset 4 5 [7; 12] (min_max_mean_t.init 4))
    as (_ & _ & _ & _ & _ & _ & Hmean & Hsorted).
  - lia.
  - unfold is_u64, UINT64_MAX. lia.
  - repeat constructor; unfold UINT64_MAX; lia.
  - split; [reflexivity|]. split.
    + rewrite Hmean; [reflexivity|]. vm_compute. discriminate.
    + apply Hsorted. repeat constructor; lia.
Defined.

(** ** Tasks *)

Ltac split_pairs :=
  repeat match goal with
  | |- context [let '(_, _) := ?e in _] => destruct e eqn:?
  | H : context [let '(_, _) := ?e in _] |- _ => destruct e eqn:?
  end.

Section TaskFacts.
Context {W : Type}.
Implicit Types (tm : timer_t.t W) (x : task_t.t W) (w : W).
Import task_t.

Lemma status_eqb_eq (a b : status_t) : status_eqb a b = true <-> a = b.
Proof. destruct a, b; simpl; split; congruence. Qed.

Lemma status_eqb_neq (a b : status_t) : status_eqb a b = false <-> a <> b.
Proof. destruct a, b; simpl; split; congruence. Qed.

(** The time-left computation writes [m_prev] and nothing else. *)
Lemma _ticks_left_frame tm x w :
  exists v, snd (fst (_ticks_left tm x w)) = with_prev x v.
Proof.
  unfold _ticks_left.
  destruct (m_period_tick x <? 0).
  - destruct (status_eqb (m_status x) delayed).
    + split_pairs. exists (m_prev x). destruct x; reflexivity.
    + split_pairs.
      match goal with |- context [if ?c then _ else _] => destruct c end;
        split_pairs; simpl; eauto.
  - split_pairs. exists (m_prev x). destruct x; reflexivity.
Qed.

Lemma _ticks_left_status tm x w :
  m_status (snd (fst (_ticks_left tm x w))) = m_status x.
Proof. destruct (_ticks_left_frame tm x w) as [v ->]. reflexivity. Qed.

Lemma is_ready_status tm x w :
  m_status (snd (fst (is_ready tm x w))) = m_status x.
Proof.
  unfold is_ready.
  destruct (status_eqb (m_status x) invalid); [reflexivity|].
  destruct (status_eqb (m_status x) stopped); [reflexivity|].
  pose proof (_ticks_left_status tm x w) as H.
  destruct (_ticks_left tm x w) as [[v x1] w1]. simpl in H.
  match goal with |- context [if ?c then _ else _] => destruct c end;
    simpl; exact H.
Qed.

Lemma run_begin_status tm x w :
  m_status (fst (run_begin tm x w)) = running.
Proof.
  unfold run_begin. split_pairs.
  match goal with |- context [if ?c then _ else _] => destruct c end;
    reflexivity.
Qed.

Lemma run_begin_callback tm x w :
  m_callback (fst (run_begin tm x w)) = m_callback x.
Proof.
  unfold run_begin. split_pairs.
  match goal with |- context [if ?c then _ else _] => destruct c end;
    reflexivity.
Qed.

Lemma run_end_status tm x keep w :
  m_status (fst (run_end tm x keep w)) = if keep then paused else invalid.
Proof. unfold run_end. split_pairs. reflexivity. Qed.

Lemma run_status tm x w x' w' :
  run tm x w = Done (x', w') ->
  m_status x' = m_status x \/ m_status x' = paused \/ m_status x' = invalid.
Proof.
  unfold run.
  destruct (status_eqb (m_status x) invalid); [intros [= <- <-]; auto|].
  destruct (status_eqb (m_status x) stopped); [intros [= <- <-]; auto|].
  destruct (run_begin tm x w) as [x1 w1].
  destruct (m_callback x1) as [cb|]; [|discriminate].
  destruct (cb w1) as [keep w2]. intros [= H].
  pose proof (run_end_status tm x1 keep w2) as E. rewrite H in E.
  simpl in E. destruct keep; auto.
Qed.

Lemma start_status tm x w : m_status (fst (start tm x w)) = paused.
Proof. unfold start. split_pairs. reflexivity. Qed.

(** Inside [run()] the status is already [running] when [ticks_left()]
    is consulted, and [ticks_left()] is [0] unless the status is
    [paused]. *)
Lemma ticks_left_while_running x :
  m_status x = running -> ticks_left x = 0.
Proof. unfold ticks_left. intros ->. reflexivity. Qed.

(** Hence [run()] stores the clock reading itself in [m_last_run_tick],
    whatever the sign of the period. *)
Lemma run_begin_last_run_tick tm x w :
  exists w2,
    m_last_run_tick (fst (run_begin tm x w)) = fst (timer_t.now tm w2).
Proof.
  unfold run_begin.
  destruct (stop_watch_t.stop tm (m_exec_time x) w) as [et1 w1].
  destruct (stop_watch_t.start tm et1 w1) as [et2 w2].
  exists w2.
  pose proof (now_range tm w2) as Hn.
  destruct (timer_t.now tm w2) as [n w3]. simpl in Hn.
  destruct (0 <=? m_period_tick (with_status (with_exec_time x et2) running)).
  - split_pairs. reflexivity.
  - split_pairs. simpl.
    rewrite ticks_left_while_running by reflexivity.
    rewrite Z.sub_0_r. apply to_u64_id, Hn.
Qed.
End TaskFacts.

Section TaskClaims.
Context {W : Type}.
Implicit Types (tm : timer_t.t W) (x : task_t.t W) (w : W).
Import task_t.

Lemma reachable_not_delayed x : reachable x -> m_status x <> delayed.
Proof.
  induction 1 as
    [ g | nm p cb | x _ IH | x y _ _ _ IH | tm x w _ IH | tm x w _ IH
    | tm x w x' w' _ IH Hrun | tm x w _ IH | x _ IH | x _ IH | x _ IH ];
    simpl; try discriminate; try assumption.
  - rewrite is_ready_status. exact IH.
  - rewrite run_begin_status. discriminate.
  - destruct (run_status tm x w x' w' Hrun) as [E|[E|E]];
      rewrite E; [exact IH | discriminate | discriminate].
  - rewrite start_status. discriminate.
Qed.

Lemma magnitude_fits (p : Z) :
  INT64_MIN < p < 0 -> to_u64 (to_i64 (- p)) = - p.
Proof.
  intros Hp. rewrite to_i64_id by (unfold_ints; lia).
  apply to_u64_id. unfold_ints. lia.
Qed.

Lemma ready_iff tm x w :
  ready tm x w = true <->
  m_status x <> invalid /\ m_status x <> stopped /\ time_left tm x w <= 0.
Proof.
  unfold ready, time_left, is_ready.
  destruct (status_eqb (m_status x) invalid) eqn:Ei.
  { apply status_eqb_eq in Ei. simpl. split; [discriminate|].
    intros (A & _). contradiction. }
  destruct (status_eqb (m_status x) stopped) eqn:Es.
  { apply status_eqb_eq in Es. simpl. split; [discriminate|].
    intros (_ & A & _). contradiction. }
  apply status_eqb_neq in Ei, Es.
  destruct (_ticks_left tm x w) as [[v x1] w1]. simpl.
  destruct (v <=? 0) eqn:Ev; simpl.
  - apply Z.leb_le in Ev. tauto.
  - apply Z.leb_gt in Ev. split; [discriminate|]. intros (_ & _ & A). lia.
Qed.

Lemma is_ready_gated tm x w :
  m_status x = stopped \/ m_status x = invalid ->
  is_ready tm x w = (false, x, w).
Proof. unfold is_ready. intros [-> | ->]; reflexivity. Qed.

(** C8: in every state reachable through construction and the public
    operations the stored status is never [delayed]: the guard of the
    [delayed] branch of [_ticks_left] is false there, and [status()]
    reports [delayed] exactly when [ticks_left() < 0]. *)
Theorem stored_status_never_delayed x :
  reachable x ->
  m_status x <> delayed /\
  status_eqb (m_status x) delayed = false /\
  (status x = delayed <-> ticks_left x < 0).
Proof.
  intros Hr. pose proof (reachable_not_delayed x Hr) as Hd.
  split; [exact Hd|]. split; [apply status_eqb_neq, Hd|].
  unfold status. destruct (ticks_left x <? 0) eqn:E.
  - apply Z.ltb_lt in E. tauto.
  - apply Z.ltb_ge in E. split; [contradiction | lia].
Qed.

(** C2: for a task of negative period of magnitude [P], the time-left
    computation samples [phase = now() mod P]; when the sample is smaller
    than the stored one the result is [-elapsed(last_run)] (at most zero
    when the clock has not gone back behind [last_run], negative as soon
    as it is past it), otherwise it is [P - phase]; either way the stored
    sample becomes [phase], and [is_ready()] does this on every task that
    is neither invalid nor stopped. *)
Theorem negative_period_time_left tm x w :
  reachable x ->
  INT64_MIN < m_period_tick x < 0 ->
  let P := - m_period_tick x in
  let phase := fst (timer_t.now tm w) mod P in
  let w1 := snd (timer_t.now tm w) in
  let e := fst (timer_t.elapsed tm (m_last_run_tick x) w1) in
  _ticks_left tm x w =
    (if phase <? m_prev x
     then (to_i64 (- e), with_prev x phase,
           snd (timer_t.elapsed tm (m_last_run_tick x) w1))
     else (P - phase, with_prev x phase, w1)) /\
  0 <= phase < P /\
  (0 <= e -> to_i64 (- e) = - e /\ - e <= 0) /\
  (0 < e -> - e < 0) /\
  0 < P - phase <= P /\
  (m_status x <> invalid -> m_status x <> stopped ->
   m_prev (snd (fst (is_ready tm x w))) = phase).
Proof.
  intros Hr Hp P phase w1 e.
  pose proof (reachable_not_delayed x Hr) as Hd.
  apply status_eqb_neq in Hd.
  pose proof (now_range tm w) as Hn.
  assert (Hphase : 0 <= phase < P).
  { subst phase P. apply Z.mod_pos_bound. lia. }
  assert (Hcode :
    _ticks_left tm x w =
      (if phase <? m_prev x
       then (to_i64 (- e), with_prev x phase,
             snd (timer_t.elapsed tm (m_last_run_tick x) w1))
       else (P - phase, with_prev x phase, w1))).
  { unfold _ticks_left.
    replace (m_period_tick x <? 0) with true by (symmetry; apply Z.ltb_lt; lia).
    rewrite Hd, magnitude_fits by exact Hp.
    subst phase w1 e P.
    destruct (timer_t.now tm w) as [n wn]. simpl.
    destruct (n mod - m_period_tick x <? m_prev x).
    - destruct (timer_t.elapsed tm (m_last_run_tick x) wn); reflexivity.
    - f_equal. f_equal. rewrite to_i64_to_u64. apply to_i64_id.
      simpl in Hphase. unfold_ints. lia. }
  split; [exact Hcode|]. split; [exact Hphase|]. split; [|split; [|split]].
  - intros He. pose proof (elapsed_range tm (m_last_run_tick x) w1) as Hr'.
    fold e in Hr'. rewrite to_i64_id by (unfold_ints; lia). lia.
  - lia.
  - lia.
  - intros Hi Hs. unfold is_ready.
    apply status_eqb_neq in Hi, Hs. rewrite Hi, Hs, Hcode.
    destruct (phase <? m_prev x);
      match goal with |- context [if ?c then _ else _] => destruct c end;
      reflexivity.
Qed.

(** C4: [is_ready()] answers true exactly when the task is neither
    invalid nor stopped and the computed time-left is at most zero,
    whatever the sign of the period; on a stopped or invalid task it
    answers false and touches nothing; [start()] on a stopped task stores
    [paused] and clears both statistics, after which readiness follows
    the same time-left as before. *)
Theorem readiness_and_start tm x w :
  (ready tm x w = true <->
   m_status x <> invalid /\ m_status x <> stopped /\ time_left tm x w <= 0) /\
  (m_status x = stopped \/ m_status x = invalid ->
   is_ready tm x w = (false, x, w)) /\
  (m_status x = stopped ->
   let x' := fst (start tm x w) in
   m_status x' = paused /\
   stop_watch_t.duration (m_run_time x') = min_max_mean_t.init 32 /\
   stop_watch_t.duration (m_exec_time x') = min_max_mean_t.init 32 /\
   forall w2,
     time_left tm x' w2 = time_left tm x w2 /\
     (ready tm x' w2 = true <-> time_left tm x' w2 <= 0)).
Proof.
  split; [apply ready_iff|]. split; [apply is_ready_gated|].
  intros Hs x'.
  assert (Hx' : exists et,
    x' = with_exec_time
           (with_exec_time
              (with_run_time (with_status x paused)
                 (stop_watch_t.reset (m_run_time x)))
              (stop_watch_t.reset (m_exec_time x)))
           et /\
    stop_watch_t.m_duration et = min_max_mean_t.init 32).
  { subst x'. unfold start, stop_watch_t.start. simpl.
    destruct (timer_t.now tm w) as [n wn]. simpl. eexists. split; reflexivity. }
  destruct Hx' as (et & -> & Het).
  split; [reflexivity|]. split; [reflexivity|]. split; [exact Het|].
  intros w2.
  assert (Htl : forall y, time_left tm
      (with_exec_time
         (with_exec_time
            (with_run_time (with_status x paused)
               (stop_watch_t.reset (m_run_time x)))
            (stop_watch_t.reset (m_exec_time x))) et) y = time_left tm x y).
  { intros y. unfold time_left, _ticks_left. simpl. rewrite Hs. simpl.
    destruct (m_period_tick x <? 0).
    - destruct (timer_t.now tm y) as [n wn].
      match goal with |- context [if ?c then _ else _] => destruct c end.
      + destruct (timer_t.elapsed tm (m_last_run_tick x) wn); reflexivity.
      + reflexivity.
    - destruct (timer_t.elapsed tm (m_last_run_tick x) y); reflexivity. }
  split; [apply Htl|].
  rewrite ready_iff. simpl. split; [tauto|].
  intros H. repeat split; try discriminate. exact H.
Qed.

(** C3 (amended): the constructor of [scheduler.hpp] stores [running],
    which [status()] reports unchanged; such a task is neither invalid
    nor stopped, so it is ready as soon as its time-left is at most zero.
    The constructor of the older header stores [paused]. *)
Theorem constructed_task_status name period callback :
  m_status (make name period callback) = running /\
  status (make name period callback) = running /\
  to_bool (make name period callback) = true /\
  (forall tm w,
     ready tm (make name period callback) w = true <->
     time_left tm (make name period callback) w <= 0) /\
  sch_legacy.m_status (sch_legacy.make name period callback) = paused.
Proof.
  repeat split; try reflexivity.
  - apply ready_iff.
  - intros H. apply ready_iff. simpl. repeat split; try discriminate. exact H.
Qed.

(** The callback's answer decides the status a run leaves behind. *)
Lemma run_sets_status tm x w cb :
  m_status x <> invalid -> m_status x <> stopped ->
  m_callback x = Some cb ->
  let x1 := fst (run_begin tm x w) in
  let w1 := snd (run_begin tm x w) in
  let keep := fst (cb w1) in
  run tm x w = Done (run_end tm x1 keep (snd (cb w1))) /\
  m_status (fst (run_end tm x1 keep (snd (cb w1)))) =
    (if keep then paused else invalid).
Proof.
  intros Hi Hs Hcb x1 w1 keep. split; [|apply run_end_status].
  unfold run. apply status_eqb_neq in Hi, Hs. rewrite Hi, Hs.
  pose proof (run_begin_callback tm x w) as Hc.
  subst x1 w1 keep. destruct (run_begin tm x w) as [y wy]. simpl in *.
  rewrite Hc, Hcb. destruct (cb wy); reflexivity.
Qed.
End TaskClaims.

(** ** Lanes *)

Section LaneFacts.
Context {W : Type}.
Implicit Types (tm : timer_t.t W) (x : task_t.t W) (w : W).
Implicit Types (l : thread.t W) (ts : list (task_t.t W)).
Import thread.

Local Open Scope nat_scope.

Lemma find_first_Some (p : task_t.t W -> bool) ts i :
  find_first p ts = Some i <->
  exists x, ts !! i = Some x /\ p x = true /\
            forall j y, j < i -> ts !! j = Some y -> p y = false.
Proof.
  revert i. induction ts as [|a ts IH]; intros i; simpl.
  - split; [discriminate|]. intros (x & Hx & _). discriminate.
  - destruct (p a) eqn:Ea.
    + split.
      * intros [= <-]. exists a. repeat split; auto. intros j y Hj. lia.
      * intros (x & Hx & Hp & Hmin). destruct i as [|i]; [reflexivity|].
        specialize (Hmin 0 a ltac:(lia) eq_refl). congruence.
    + destruct (find_first p ts) as [k|]; simpl.
      * split.
        -- intros [= <-].
           destruct (proj1 (IH k) eq_refl) as (x & Hx & Hp & Hmin).
           exists x. repeat split; auto.
           intros [|j] y Hj Hy; simpl in Hy; [congruence|].
           apply (Hmin j); [lia|exact Hy].
        -- intros (x & Hx & Hp & Hmin). destruct i as [|i].
           ++ simpl in Hx. congruence.
           ++ assert (Some k = Some i) as [= ->]; [|reflexivity].
              apply IH. exists x. repeat split; auto.
              intros j y Hj Hy. apply (Hmin (S j)); [lia|exact Hy].
      * split; [discriminate|].
        intros (x & Hx & Hp & Hmin). destruct i as [|i].
        -- simpl in Hx. congruence.
        -- assert (@None nat = Some i) as E; [|discriminate E].
           apply IH. exists x. repeat split; auto.
           intros j y Hj Hy. apply (Hmin (S j)); [lia|exact Hy].
Qed.

Lemma find_first_None (p : task_t.t W -> bool) ts :
  find_first p ts = None <-> forall j y, ts !! j = Some y -> p y = false.
Proof.
  induction ts as [|a ts IH]; simpl.
  - split; [|reflexivity]. intros _ j y Hy. discriminate.
  - destruct (p a) eqn:Ea.
    + split; [discriminate|]. intros H.
      specialize (H 0 a eq_refl). congruence.
    + destruct (find_first p ts) as [k|]; simpl.
      * split; [discriminate|]. intros H.
        assert (Some k = None) as E; [|discriminate E].
        apply IH. intros j y Hy. apply (H (S j)). exact Hy.
      * split; [|reflexivity]. intros _ [|j] y Hy; simpl in Hy.
        -- congruence.
        -- destruct IH as [IH _]. apply (IH eq_refl j y Hy).
Qed.

Lemma count_valid_pos ts i x :
  ts !! i = Some x -> task_t.to_bool x = true -> 0 < count_valid ts.
Proof.
  revert i. induction ts as [|a ts IH]; intros [|i] Hx Hv; simpl in *;
    try discriminate.
  - injection Hx as ->. rewrite Hv. lia.
  - specialize (IH i Hx Hv). lia.
Qed.

Lemma count_valid_exists ts :
  0 < count_valid ts ->
  exists i x, ts !! i = Some x /\ task_t.to_bool x = true.
Proof.
  induction ts as [|a ts IH]; simpl; [lia|].
  destruct (task_t.to_bool a) eqn:Ea.
  - intros _. exists 0, a. auto.
  - intros H. destruct IH as (i & x & Hx & Hv); [lia|].
    exists (S i), x. auto.
Qed.

Lemma count_valid_zero ts :
  count_valid ts = 0 <->
  forall i x, ts !! i = Some x -> task_t.to_bool x = false.
Proof.
  split.
  - intros H i x Hx. destruct (task_t.to_bool x) eqn:E; [|reflexivity].
    pose proof (count_valid_pos ts i x Hx E). lia.
  - intros H. destruct (count_valid ts) eqn:E; [reflexivity|].
    destruct (count_valid_exists ts) as (i & x & Hx & Hv); [lia|].
    rewrite (H i x Hx) in Hv. discriminate.
Qed.

Lemma mod_succ_add c k n : ((c + 1) mod n + k) mod n = (c + S k) mod n.
Proof.
  rewrite Nat.Div0.add_mod_idemp_l. f_equal. lia.
Qed.

Lemma mod_add_ne c k n : c < n -> 0 < k < n -> (c + k) mod n <> c.
Proof.
  intros Hc Hk. destruct (le_lt_dec n (c + k)) as [Hge|Hlt].
  - replace (c + k) with ((c + k - n) + 1 * n) by lia.
    rewrite Nat.Div0.mod_add, Nat.mod_small by lia. lia.
  - rewrite Nat.mod_small by lia. lia.
Qed.

(** The least of the [d < n] that satisfy a decidable property. *)
Lemma least_below (Q : nat -> bool) (n : nat) :
  (forall k, k < n -> Q k = false) \/
  (exists d, d < n /\ Q d = true /\ forall k, k < d -> Q k = false).
Proof.
  induction n as [|n [Hnone|(d & Hd & HQ & Hmin)]].
  - left. intros k Hk. lia.
  - destruct (Q n) eqn:E.
    + right. exists n. repeat split; auto.
    + left. intros k Hk. destruct (decide (k = n)) as [->|]; [exact E|].
      apply Hnone. lia.
  - right. exists d. repeat split; auto.
Qed.

Lemma least_witness (Q : nat -> bool) (d0 : nat) :
  Q d0 = true ->
  exists d, d <= d0 /\ Q d = true /\ forall k, k < d -> Q k = false.
Proof.
  intros Hd0. destruct (least_below Q (S d0)) as [Hnone|(d & Hd & HQ & Hmin)].
  - rewrite Hnone in Hd0 by lia. discriminate.
  - exists d. repeat split; auto. lia.
Qed.

(** The scan stops at the first populated slot at or after the cursor,
    cyclically, and needs no more fuel than there are slots. *)
Lemma skip_invalid_finds fuel ts idx d x :
  idx < length ts -> d < fuel ->
  (forall k y, k < d -> ts !! ((idx + k) mod length ts) = Some y ->
               task_t.to_bool y = false) ->
  ts !! ((idx + d) mod length ts) = Some x ->
  task_t.to_bool x = true ->
  skip_invalid fuel ts idx = Done ((idx + d) mod length ts).
Proof.
  revert fuel idx. induction d as [|d IH]; intros fuel idx Hidx Hfuel Hinv Hx Hv.
  - destruct fuel as [|fuel]; [lia|]. simpl.
    rewrite Nat.add_0_r in Hx |- *.
    rewrite (Nat.mod_small idx) in Hx |- * by lia.
    rewrite Hx, Hv. reflexivity.
  - destruct fuel as [|fuel]; [lia|]. simpl.
    destruct (lookup_lt_is_Some_2 ts idx Hidx) as [y Hy]. rewrite Hy.
    rewrite (Hinv 0 y); [| lia | rewrite Nat.add_0_r, Nat.mod_small by lia; exact Hy].
    rewrite <- (mod_succ_add idx d (length ts)).
    apply IH.
    + apply Nat.mod_upper_bound. lia.
    + lia.
    + intros k z Hk. rewrite mod_succ_add. apply Hinv. lia.
    + rewrite mod_succ_add. exact Hx.
    + exact Hv.
Qed.
End LaneFacts.

(** What the host keeps, the scheduler keeps: a property of the world
    that survives a reading of the clock survives every operation that
    only reads the clock. *)
Section HostInvariant.
Context {W : Type}.
Variable P : W -> Prop.
Variable tm : timer_t.t W.
Hypothesis clock_keeps : forall w, P w -> P (snd (timer_t.now tm w)).
Implicit Types (x : task_t.t W) (w : W).

Lemma elapsed_keeps start w : P w -> P (snd (timer_t.elapsed tm start w)).
Proof. rewrite elapsed_now. apply clock_keeps. Qed.

Lemma watch_start_keeps (sw : stop_watch_t.t) w :
  P w -> P (snd (stop_watch_t.start tm sw w)).
Proof.
  intros Hw. unfold stop_watch_t.start. pose proof (clock_keeps w Hw) as H.
  destruct (timer_t.now tm w). exact H.
Qed.

Lemma watch_stop_keeps (sw : stop_watch_t.t) w :
  P w -> P (snd (stop_watch_t.stop tm sw w)).
Proof.
  intros Hw. unfold stop_watch_t.stop.
  pose proof (elapsed_keeps (stop_watch_t.m_start sw) w Hw) as H.
  destruct (timer_t.elapsed tm (stop_watch_t.m_start sw) w). exact H.
Qed.

Lemma _ticks_left_keeps x w : P w -> P (snd (task_t._ticks_left tm x w)).
Proof.
  intros Hw. unfold task_t._ticks_left.
  destruct (task_t.m_period_tick x <? 0).
  - destruct (task_t.status_eqb (task_t.m_status x) task_t.delayed).
    + pose proof (elapsed_keeps (task_t.m_last_run_tick x) w Hw) as H.
      destruct (timer_t.elapsed tm (task_t.m_last_run_tick x) w). exact H.
    + pose proof (clock_keeps w Hw) as H.
      destruct (timer_t.now tm w) as [n w1]. cbn [snd] in H.
      match goal with |- context [if ?c then _ else _] => destruct c end.
      * pose proof (elapsed_keeps (task_t.m_last_run_tick x) w1 H) as H1.
        destruct (timer_t.elapsed tm (task_t.m_last_run_tick x) w1).
        exact H1.
      * exact H.
  - pose proof (elapsed_keeps (task_t.m_last_run_tick x) w Hw) as H.
    destruct (timer_t.elapsed tm (task_t.m_last_run_tick x) w). exact H.
Qed.

Lemma is_ready_keeps x w : P w -> P (snd (task_t.is_ready tm x w)).
Proof.
  intros Hw. unfold task_t.is_ready.
  destruct (task_t.status_eqb (task_t.m_status x) task_t.invalid);
    [exact Hw|].
  destruct (task_t.status_eqb (task_t.m_status x) task_t.stopped);
    [exact Hw|].
  pose proof (_ticks_left_keeps x w Hw) as H.
  destruct (task_t._ticks_left tm x w) as [[v x1] w1]. cbn [snd] in H.
  match goal with |- context [if ?c then _ else _] => destruct c end;
    exact H.
Qed.

Lemma run_begin_keeps x w : P w -> P (snd (task_t.run_begin tm x w)).
Proof.
  intros Hw. unfold task_t.run_begin.
  pose proof (watch_stop_keeps (task_t.m_exec_time x) w Hw) as H1.
  destruct (stop_watch_t.stop tm (task_t.m_exec_time x) w) as [et1 w1].
  pose proof (watch_start_keeps et1 w1 H1) as H2.
  destruct (stop_watch_t.start tm et1 w1) as [et2 w2].
  pose proof (clock_keeps w2 H2) as H3.
  destruct (timer_t.now tm w2) as [n w3].
  match goal with
  | |- context [stop_watch_t.start tm ?sw w3] =>
      pose proof (watch_start_keeps sw w3 H3) as H4;
      destruct (stop_watch_t.start tm sw w3) as [rt w4]
  end.
  exact H4.
Qed.

Lemma run_end_keeps x keep w : P w -> P (snd (task_t.run_end tm x keep w)).
Proof.
  intros Hw. unfold task_t.run_end.
  match goal with
  | |- context [stop_watch_t.stop tm ?sw w] =>
      pose proof (watch_stop_keeps sw w Hw) as H;
      destruct (stop_watch_t.stop tm sw w) as [rt w1]
  end.
  exact H.
Qed.

Lemma invoke_keeps (cb : W -> bool * W) x w :
  (forall w0, P w0 -> P (snd (cb w0))) ->
  P w -> P (snd (invoke tm cb x w)).
Proof.
  intros Hcb Hw. unfold invoke. cbv zeta.
  apply run_end_keeps, Hcb, run_begin_keeps, Hw.
Qed.
End HostInvariant.

Section LaneRun.
Context {W : Type}.
Implicit Types (tm : timer_t.t W) (x : task_t.t W) (w : W).
Implicit Types (l : thread.t W) (ts : list (task_t.t W)).
Import thread.

Local Open Scope nat_scope.

Lemma is_ready_callback tm x w :
  task_t.m_callback (snd (fst (task_t.is_ready tm x w))) =
  task_t.m_callback x.
Proof.
  unfold task_t.is_ready.
  destruct (task_t.status_eqb (task_t.m_status x) task_t.invalid);
    [reflexivity|].
  destruct (task_t.status_eqb (task_t.m_status x) task_t.stopped);
    [reflexivity|].
  destruct (_ticks_left_frame tm x w) as [v Hv].
  destruct (task_t._ticks_left tm x w) as [[tl x1] w1]. simpl in Hv. subst x1.
  match goal with |- context [if ?c then _ else _] => destruct c end;
    reflexivity.
Qed.

(** One call of [run()] on a lane whose first populated slot at or after
    the cursor lies [d] places ahead. *)
Lemma run_at tm l w d x :
  m_index l < N l -> d < N l ->
  (forall k y, k < d -> m_tasks_list l !! slot_after l k = Some y ->
               task_t.to_bool y = false) ->
  m_tasks_list l !! slot_after l d = Some x ->
  task_t.to_bool x = true ->
  let i := slot_after l d in
  let p := task_t.is_ready tm x (poll_world tm l w) in
  run tm l w =
    if fst (fst p) then
      match task_t.m_callback x with
      | Some cb =>
          let r := invoke tm cb (snd (fst p)) (snd p) in
          Done (leave tm l w i (fst r) (snd r), Some i)
      | None => Fault BadFunctionCall
      end
    else Done (leave tm l w i (snd (fst p)) (snd p), None).
Proof.
  intros Hidx Hd Hinv Hx Hv i p. subst i p.
  pose proof (count_valid_pos _ _ _ Hx Hv) as Hpos.
  unfold run, leave, poll_world, size. cbn [fst snd].
  replace (count_valid (m_tasks_list l) =? 0) with false
    by (symmetry; apply Nat.eqb_neq; lia).
  destruct (stop_watch_t.start tm (m_watch l)
              (lock l (unlock l (lock l w)))) as [watch1 w2]. cbn [fst snd].
  unfold slot_after, N in *.
  rewrite (skip_invalid_finds _ _ _ d x) by assumption.
  rewrite Hx.
  pose proof (is_ready_callback tm x w2) as Hc.
  pose proof (is_ready_status tm x w2) as Hst.
  pose proof (proj1 (ready_iff tm x w2)) as Hrdy. unfold ready in Hrdy.
  destruct (task_t.is_ready tm x w2) as [[rdy x1] w3]. cbn [fst snd] in *.
  destruct rdy.
  - destruct (Hrdy eq_refl) as (Hi & Hs & _).
    rewrite <- Hst in Hi, Hs.
    destruct (task_t.m_callback x) as [cb|] eqn:Hcb.
    + destruct (run_sets_status tm x1 w3 cb Hi Hs Hc) as [-> _].
      unfold invoke. cbv zeta.
      destruct (task_t.run_end tm _ _ _) as [x2 w4]. cbn [fst snd].
      destruct (stop_watch_t.stop tm watch1 (unlock l w4)) as [watch2 w6].
      reflexivity.
    + unfold task_t.run.
      apply status_eqb_neq in Hi, Hs. rewrite Hi, Hs.
      pose proof (run_begin_callback tm x1 w3) as Hb.
      destruct (task_t.run_begin tm x1 w3) as [xb wb]. cbn [fst] in Hb.
      rewrite Hb, Hc. reflexivity.
  - destruct (stop_watch_t.stop tm watch1 (unlock l w3)) as [watch2 w6].
    reflexivity.
Qed.

Lemma run_empty tm l w :
  count_valid (m_tasks_list l) = 0 ->
  run tm l w = Done (l, snd (size l w), None).
Proof. intros H. unfold run, size. simpl. rewrite H. reflexivity. Qed.

Lemma slot_after_offset l c j :
  c < N l -> j < N l -> (c + (j + N l - c) mod N l) mod N l = j.
Proof.
  intros Hc Hj. rewrite Nat.Div0.add_mod_idemp_r.
  replace (c + (j + N l - c)) with (j + 1 * N l) by lia.
  rewrite Nat.Div0.mod_add. apply Nat.mod_small. exact Hj.
Qed.

(** On a lane that holds a task the scan of [run()] ends: some slot at
    most [N - 1] places after the cursor is populated. *)
Lemma first_populated l :
  0 < count_valid (m_tasks_list l) ->
  m_index l < N l ->
  exists d x,
    d < N l /\
    (forall k y, k < d -> m_tasks_list l !! slot_after l k = Some y ->
                 task_t.to_bool y = false) /\
    m_tasks_list l !! slot_after l d = Some x /\
    task_t.to_bool x = true.
Proof.
  intros Hpos Hidx.
  destruct (count_valid_exists _ Hpos) as (j & xj & Hj & Hvj).
  pose proof (lookup_lt_Some _ _ _ Hj) as Hjlt. fold (N l) in Hjlt.
  set (Q := fun d => match m_tasks_list l !! slot_after l d with
                     | Some y => task_t.to_bool y
                     | None => false
                     end).
  assert (HQ0 : Q ((j + N l - m_index l) mod N l) = true).
  { unfold Q, slot_after. rewrite slot_after_offset by assumption.
    rewrite Hj. exact Hvj. }
  destruct (least_witness Q _ HQ0) as (d & Hdle & HQd & Hmin).
  assert (Hd : d < N l).
  { pose proof (Nat.mod_upper_bound (j + N l - m_index l) (N l)). lia. }
  unfold Q in HQd.
  destruct (m_tasks_list l !! slot_after l d) as [x|] eqn:Hx; [|discriminate].
  exists d, x. repeat split; auto.
  intros k y Hk Hy. specialize (Hmin k Hk). unfold Q in Hmin.
  rewrite Hy in Hmin. exact Hmin.
Qed.

Lemma invoke_callback tm (cb : W -> bool * W) x w :
  task_t.m_callback (fst (invoke tm cb x w)) = task_t.m_callback x.
Proof.
  unfold invoke. cbv zeta. unfold task_t.run_end.
  pose proof (run_begin_callback tm x w) as H.
  destruct (task_t.run_begin tm x w) as [xb wb]. cbn [fst snd] in *.
  destruct (cb wb) as [keep wc]. cbn [fst snd].
  match goal with
  | |- context [stop_watch_t.stop tm ?sw wc] =>
      destruct (stop_watch_t.stop tm sw wc) as [rt w1]
  end.
  exact H.
Qed.

Lemma leave_shape tm l w i x' w4 :
  m_tasks_list (fst (leave tm l w i x' w4)) = <[i := x']> (m_tasks_list l) /\
  m_index (fst (leave tm l w i x' w4)) = (i + 1) mod N l /\
  N (fst (leave tm l w i x' w4)) = N l /\
  m_lock_cb (fst (leave tm l w i x' w4)) = m_lock_cb l /\
  m_unlock_cb (fst (leave tm l w i x' w4)) = m_unlock_cb l.
Proof.
  unfold leave, N. cbn. repeat split; auto. apply length_insert.
Qed.

Lemma turn_Some tm l w i l1 w1 :
  turn tm l w i = Some (l1, w1) ->
  exists x cb,
    m_tasks_list l !! i = Some x /\
    task_t.to_bool x = true /\
    task_t.m_callback x = Some cb /\
    ready tm x (poll_world tm l w) = true /\
    (l1, w1) =
      leave tm l w i
        (fst (invoke tm cb
                (snd (fst (task_t.is_ready tm x (poll_world tm l w))))
                (snd (task_t.is_ready tm x (poll_world tm l w)))))
        (snd (invoke tm cb
                (snd (fst (task_t.is_ready tm x (poll_world tm l w))))
                (snd (task_t.is_ready tm x (poll_world tm l w))))).
Proof.
  unfold turn. destruct (m_tasks_list l !! i) as [x|]; [|discriminate].
  cbv zeta.
  destruct (fst (fst (task_t.is_ready tm x (poll_world tm l w)))) eqn:Hr;
    [|discriminate].
  destruct (task_t.m_callback x) as [cb|] eqn:Hcb; [|discriminate].
  intros H. apply (inj Some) in H. exists x, cb.
  split; [reflexivity|]. split; [|split; [exact Hcb|split; [exact Hr|]]].
  - apply (ready_iff tm x (poll_world tm l w)) in Hr.
    destruct Hr as (Hi & _). apply status_eqb_neq in Hi.
    unfold task_t.to_bool. rewrite Hi. reflexivity.
  - symmetry. exact H.
Qed.

Lemma slot_after_0 l : m_index l < N l -> slot_after l 0 = m_index l.
Proof.
  intros Hidx. unfold slot_after. rewrite Nat.add_0_r.
  apply Nat.mod_small, Hidx.
Qed.

Lemma slot_after_shift l l1 k :
  m_index l < N l ->
  m_index l1 = (m_index l + 1) mod N l -> N l1 = N l ->
  slot_after l1 k = slot_after l (S k).
Proof.
  intros Hidx Hi1 HN1. unfold slot_after. rewrite Hi1, HN1.
  apply mod_succ_add.
Qed.

(** [n] calls on a lane do what [n] turns of the next [n] slots do,
    whenever these turns exist. *)
Lemma run_n_turns tm n : forall l w l' w',
  n <= N l -> m_index l < N l ->
  turns tm (slot_after l <$> seq 0 n) l w = Some (l', w') ->
  run_n tm n l w =
    Done (l', w', (fun k => Some (slot_after l k)) <$> seq 0 n).
Proof.
  induction n as [|n IH]; intros l w l' w' Hn Hidx.
  - simpl. intros [= <- <-]. reflexivity.
  - cbn [seq fmap list_fmap turns].
    destruct (turn tm l w (slot_after l 0)) as [[l1 w1]|] eqn:Ht;
      [|discriminate].
    intros Hrest.
    destruct (turn_Some _ _ _ _ _ _ Ht)
      as (x & cb & Hx & Hv & Hcb & Hrdy & Hleave).
    assert (Hrun : run tm l w = Done (l1, w1, Some (slot_after l 0))).
    { pose proof (run_at tm l w 0 x Hidx ltac:(lia)) as Hrun.
      cbv zeta in Hrun. unfold ready in Hrdy.
      rewrite Hrdy, Hcb, <- Hleave in Hrun. apply Hrun; auto.
      intros k y Hk. lia. }
    pose proof (leave_shape tm l w (slot_after l 0)
                  (fst (invoke tm cb
                     (snd (fst (task_t.is_ready tm x (poll_world tm l w))))
                     (snd (task_t.is_ready tm x (poll_world tm l w)))))
                  (snd (invoke tm cb
                     (snd (fst (task_t.is_ready tm x (poll_world tm l w))))
                     (snd (task_t.is_ready tm x (poll_world tm l w))))))
      as (_ & Hi1 & HN1 & _).
    rewrite <- Hleave in Hi1, HN1. cbn [fst] in Hi1, HN1.
    rewrite slot_after_0 in Hi1 by exact Hidx.
    assert (Hshift : forall k, slot_after l1 k = slot_after l (S k)).
    { intros k. apply slot_after_shift; assumption. }
    assert (Hslots : slot_after l <$> seq 1 n = slot_after l1 <$> seq 0 n).
    { rewrite <- fmap_S_seq, <- list_fmap_compose.
      apply list_fmap_ext. intros i k _. simpl. symmetry. apply Hshift. }
    rewrite Hslots in Hrest.
    cbn [run_n]. rewrite Hrun.
    rewrite (IH l1 w1 l' w'); [| lia | | exact Hrest].
    + do 3 f_equal. rewrite <- fmap_S_seq, <- list_fmap_compose.
      apply list_fmap_ext. intros i k _. simpl. f_equal. apply Hshift.
    + rewrite Hi1, HN1. apply Nat.mod_upper_bound. lia.
Qed.

(** The turns exist when the tasks of the window are ready in every
    world of a property that the host keeps. *)
Lemma turns_exist (P : W -> Prop) tm n : forall l w,
  n <= N l -> m_index l < N l ->
  kept_by_host P tm l -> P w ->
  (forall k, k < n ->
     exists x, m_tasks_list l !! slot_after l k = Some x /\
               always_ready P tm x) ->
  is_Some (turns tm (slot_after l <$> seq 0 n) l w).
Proof.
  induction n as [|n IH]; intros l w Hn Hidx Hkept Hw Hwin.
  - eexists. reflexivity.
  - destruct (Hwin 0 ltac:(lia)) as (x & Hx & Hv & [cb Hcb] & Hrdy).
    pose proof Hkept as [Hclock Hlock Hunlock Hcbs].
    assert (Hpw : P (poll_world tm l w)).
    { unfold poll_world, size. cbn [snd].
      apply watch_start_keeps; [exact Hclock|].
      apply Hlock, Hunlock, Hlock, Hw. }
    specialize (Hrdy _ Hpw). unfold ready in Hrdy.
    cbn [seq fmap list_fmap turns]. unfold turn. rewrite Hx. cbv zeta.
    rewrite Hrdy, Hcb.
    set (p := task_t.is_ready tm x (poll_world tm l w)).
    set (r := invoke tm cb (snd (fst p)) (snd p)).
    pose proof (leave_shape tm l w (slot_after l 0) (fst r) (snd r))
      as (Hts & Hi1 & HN1 & Hlk & Hul).
    assert (Hw1 : P (snd (leave tm l w (slot_after l 0) (fst r) (snd r)))).
    { unfold leave. cbn [snd].
      apply watch_stop_keeps; [exact Hclock|]. apply Hunlock.
      subst r. apply invoke_keeps; [exact Hclock| |].
      - intros w0. apply (Hcbs _ _ _ w0 Hx Hcb).
      - subst p. apply is_ready_keeps; [exact Hclock|exact Hpw]. }
    destruct (leave tm l w (slot_after l 0) (fst r) (snd r)) as [l1 w1].
    cbn [fst snd] in *.
    rewrite slot_after_0 in Hi1, Hts by exact Hidx.
    assert (Hshift : forall k, slot_after l1 k = slot_after l (S k)).
    { intros k. apply slot_after_shift; assumption. }
    assert (Hslots : slot_after l <$> seq 1 n = slot_after l1 <$> seq 0 n).
    { rewrite <- fmap_S_seq, <- list_fmap_compose.
      apply list_fmap_ext. intros i k _. simpl. symmetry. apply Hshift. }
    rewrite Hslots. apply IH.
    + lia.
    + rewrite Hi1, HN1. apply Nat.mod_upper_bound. lia.
    + constructor.
      * exact Hclock.
      * intros w0. unfold lock. rewrite Hlk. apply Hlock.
      * intros w0. unfold unlock. rewrite Hul. apply Hunlock.
      * intros j y cb' w0 Hy Hcb'. rewrite Hts in Hy.
        destruct (decide (j = m_index l)) as [->|Hne].
        -- rewrite list_lookup_insert_eq in Hy
             by (apply lookup_lt_Some in Hx;
                 rewrite slot_after_0 in Hx by exact Hidx; exact Hx).
           injection Hy as <-. subst r p.
           rewrite invoke_callback, is_ready_callback in Hcb'.
           apply (Hcbs _ _ _ w0 Hx Hcb').
        -- rewrite list_lookup_insert_ne in Hy by auto.
           apply (Hcbs _ _ _ w0 Hy Hcb').
    + exact Hw1.
    + intros k Hk. destruct (Hwin (S k) ltac:(lia)) as (y & Hy & Hgood).
      exists y. split; [|exact Hgood].
      rewrite Hshift, Hts, list_lookup_insert_ne; [exact Hy|].
      unfold slot_after. intros E. symmetry in E. revert E.
      apply mod_add_ne; lia.
Qed.

Lemma window_is_rotation l :
  m_index l < N l ->
  (fun k => Some (slot_after l k)) <$> seq 0 (N l) =
  Some <$> rotate (m_index l) (seq 0 (N l)).
Proof.
  intros Hidx. apply list_eq. intros i.
  rewrite !list_lookup_fmap.
  destruct (decide (i < N l)) as [Hi|Hi].
  - rewrite lookup_seq_lt by exact Hi.
    rewrite lookup_rotate_r by (rewrite length_seq; exact Hi).
    rewrite length_seq.
    assert (E : rotate_nat_add (m_index l) i (N l) = slot_after l i).
    { unfold rotate_nat_add, slot_after.
      rewrite <- Nat2Z.inj_add, <- Nat2Z.inj_mod. apply Nat2Z.id. }
    rewrite E, lookup_seq_lt; [reflexivity|].
    unfold slot_after. apply Nat.mod_upper_bound. lia.
  - rewrite (lookup_ge_None_2 (seq 0 (N l))) by (rewrite length_seq; lia).
    rewrite (lookup_ge_None_2 (rotate _ _))
      by (rewrite length_rotate, length_seq; lia).
    reflexivity.
Qed.

Lemma slots_are_rotation l :
  m_index l < N l ->
  slot_after l <$> seq 0 (N l) = rotate (m_index l) (seq 0 (N l)).
Proof.
  intros Hidx. pose proof (window_is_rotation l Hidx) as H.
  rewrite (list_fmap_compose (slot_after l) Some) in H.
  apply (inj (fmap Some)) in H. exact H.
Qed.

Lemma rotate_perm {A} (n : nat) (xs : list A) : rotate n xs ≡ₚ xs.
Proof.
  unfold rotate. rewrite Permutation_app_comm. rewrite take_drop. reflexivity.
Qed.

(** C5: on an empty lane [run()] changes nothing and executes nothing.
    On a non-empty lane the scan passes the invalid slots between the
    cursor and the first populated slot [i] (wrapping) and polls the task
    of that slot.  If the poll says ready, the task's callback is called
    -- once, inside the task's [run()] -- and the slot receives the task
    that this leaves; if not, the slot receives the polled task and no
    callback is called.  Either way no other slot changes and the cursor
    goes to [i + 1] modulo [N]: at most one task executes per call.
    Hence [N] calls on a lane are the turns of its [N] slots in cyclic
    order from the cursor, each slot once, whenever each task is ready
    when its turn comes; and that is the case when all slots hold tasks
    that are ready in every world of a property kept by the host. *)
Theorem lane_run_round_robin tm l w :
  (count_valid (m_tasks_list l) = 0 ->
   run tm l w = Done (l, snd (size l w), None)) /\
  (0 < count_valid (m_tasks_list l) ->
   m_index l < N l ->
   exists d x,
     d < N l /\
     (forall k y, k < d -> m_tasks_list l !! slot_after l k = Some y ->
                  task_t.to_bool y = false) /\
     m_tasks_list l !! slot_after l d = Some x /\
     task_t.to_bool x = true /\
     let i := slot_after l d in
     let p := task_t.is_ready tm x (poll_world tm l w) in
     run tm l w =
       if fst (fst p) then
         match task_t.m_callback x with
         | Some cb =>
             let r := invoke tm cb (snd (fst p)) (snd p) in
             Done (leave tm l w i (fst r) (snd r), Some i)
         | None => Fault BadFunctionCall
         end
       else Done (leave tm l w i (snd (fst p)) (snd p), None)) /\
  (m_index l < N l ->
   forall l' w',
     turns tm (rotate (m_index l) (seq 0 (N l))) l w = Some (l', w') ->
     run_n tm (N l) l w =
       Done (l', w', Some <$> rotate (m_index l) (seq 0 (N l)))) /\
  (m_index l < N l ->
   forall P : W -> Prop,
     kept_by_host P tm l -> P w ->
     (forall i x, m_tasks_list l !! i = Some x -> always_ready P tm x) ->
     is_Some (turns tm (rotate (m_index l) (seq 0 (N l))) l w)) /\
  rotate (m_index l) (seq 0 (N l)) ≡ₚ seq 0 (N l).
Proof.
  split; [apply run_empty|]. split; [|split; [|split]].
  - intros Hpos Hidx.
    destruct (first_populated l Hpos Hidx) as (d & x & Hd & Hinv & Hx & Hv).
    exists d, x. split; [exact Hd|]. split; [exact Hinv|].
    split; [exact Hx|]. split; [exact Hv|].
    apply run_at; assumption.
  - intros Hidx l' w' Hturns.
    rewrite <- slots_are_rotation in Hturns by exact Hidx.
    rewrite (run_n_turns tm (N l) l w l' w') by auto.
    rewrite window_is_rotation by exact Hidx. reflexivity.
  - intros Hidx P Hkept Hw Hall.
    rewrite <- slots_are_rotation by exact Hidx.
    apply (turns_exist P); auto.
    intros k Hk.
    assert (Hlt : slot_after l k < length (m_tasks_list l)).
    { unfold slot_after. apply Nat.mod_upper_bound. unfold N in *. lia. }
    destruct (lookup_lt_is_Some_2 _ _ Hlt) as [x Hx].
    exists x. split; [exact Hx|]. eapply Hall, Hx.
  - apply rotate_perm.
Qed.
End LaneRun.

Section LaneControl.
Context {W : Type}.
Implicit Types (tm : timer_t.t W) (x : task_t.t W) (w : W).
Implicit Types (l : thread.t W) (ts : list (task_t.t W)).
Import thread.

Local Open Scope nat_scope.

Lemma add_first_invalid l task w i y :
  m_tasks_list l !! i = Some y -> task_t.to_bool y = false ->
  exists j yj,
    j <= i /\
    m_tasks_list l !! j = Some yj /\
    task_t.to_bool yj = false /\
    (forall k z, k < j -> m_tasks_list l !! k = Some z ->
                 task_t.to_bool z = true) /\
    add l task w =
      (true,
       with_tasks_list l (<[j := task_t.assign yj task]> (m_tasks_list l)),
       unlock l (lock l w)).
Proof.
  intros Hy Hv. unfold add.
  destruct (find_first (fun x => negb (task_t.to_bool x)) (m_tasks_list l))
    as [j|] eqn:Ef.
  - apply find_first_Some in Ef. destruct Ef as (yj & Hyj & Hp & Hmin).
    exists j, yj. rewrite Hyj.
    apply negb_true_iff in Hp.
    repeat split; auto.
    + destruct (le_lt_dec j i) as [|Hlt]; [assumption|].
      specialize (Hmin i y Hlt Hy). rewrite Hv in Hmin. discriminate.
    + intros k z Hk Hz. specialize (Hmin k z Hk Hz).
      apply negb_false_iff in Hmin. exact Hmin.
  - pose proof (proj1 (find_first_None _ _) Ef i y Hy) as H.
    simpl in H. rewrite Hv in H. discriminate.
Qed.


Lemma strncmp_eq_take n a b :
  strncmp_eq n a b = true <-> str_take n a = str_take n b.
Proof.
  revert a b. induction n as [|n IH]; intros a b; simpl.
  - split; reflexivity.
  - destruct a as [|c a], b as [|c' b]; simpl;
      try (split; [reflexivity | reflexivity]);
      try (split; discriminate).
    destruct (Ascii.eqb c c') eqn:E.
    + apply Ascii.eqb_eq in E. subst c'. rewrite IH.
      split; [intros ->; reflexivity | intros [= H]; exact H].
    + apply Ascii.eqb_neq in E. split; [discriminate|].
      intros [= H _]. contradiction.
Qed.

Lemma matches_iff name x :
  matches name x = true <->
  task_t.to_bool x = true /\
  str_take 8 (task_t.name x) = str_take 8 name.
Proof.
  unfold matches. rewrite andb_true_iff, strncmp_eq_take. reflexivity.
Qed.

Lemma matches_same_prefix name other x :
  str_take 8 other = str_take 8 name ->
  matches other x = matches name x.
Proof.
  intros H. apply eq_true_iff_eq. rewrite !matches_iff, H. reflexivity.
Qed.

Lemma find_first_ext (p q : task_t.t W -> bool) ts :
  (forall x, p x = q x) -> find_first p ts = find_first q ts.
Proof.
  intros H. induction ts as [|a ts IH]; simpl; [reflexivity|].
  rewrite H, IH. reflexivity.
Qed.

Lemma first_match_find name ts i x :
  first_match name ts i x ->
  find_first (matches name) ts = Some i.
Proof.
  intros (Hx & Hv & Hn & Hmin). apply find_first_Some.
  exists x. split; [exact Hx|]. split; [apply matches_iff; auto|].
  intros j y Hj Hy. destruct (matches name y) eqn:E; [|reflexivity].
  apply matches_iff in E. destruct E as [Hvy Hny].
  exfalso. exact (Hmin j y Hj Hy Hvy Hny).
Qed.

Lemma no_match_find name ts :
  (forall j y, ts !! j = Some y -> task_t.to_bool y = true ->
               str_take 8 (task_t.name y) <> str_take 8 name) ->
  find_first (matches name) ts = None.
Proof.
  intros H. apply find_first_None. intros j y Hy.
  destruct (matches name y) eqn:E; [|reflexivity].
  apply matches_iff in E. destruct E as [Hvy Hny].
  exfalso. exact (H j y Hy Hvy Hny).
Qed.

(** C7: [pkill], [start] and [stop] compare names with
    [strncmp(_, _, 8)], which holds exactly when the first eight
    characters agree, so two names with the same eight-character prefix
    address the same task and build the same task; the operation is
    applied to the first populated slot in slot order whose name matches
    and the answer is true; when no populated slot matches the answer is
    false and the lane is unchanged. *)
Theorem name_addressed_control tm l name w :
  (forall a b, strncmp_eq 8 a b = true <-> str_take 8 a = str_take 8 b) /\
  (forall other,
     str_take 8 other = str_take 8 name ->
     pkill l other w = pkill l name w /\
     start tm l other w = start tm l name w /\
     stop l other w = stop l name w /\
     forall period cb,
       task_t.make (W := W) other period cb = task_t.make name period cb) /\
  (forall i x,
     first_match name (m_tasks_list l) i x ->
     pkill l name w =
       (true,
        with_tasks_list l (<[i := task_t.invalidate x]> (m_tasks_list l)),
        unlock l (lock l w)) /\
     start tm l name w =
       (true,
        with_tasks_list l
          (<[i := fst (task_t.start tm x (lock l w))]> (m_tasks_list l)),
        unlock l (snd (task_t.start tm x (lock l w)))) /\
     stop l name w =
       (true,
        with_tasks_list l (<[i := task_t.stop x]> (m_tasks_list l)),
        unlock l (lock l w))) /\
  ((forall j y, m_tasks_list l !! j = Some y -> task_t.to_bool y = true ->
                str_take 8 (task_t.name y) <> str_take 8 name) ->
   pkill l name w = (false, l, unlock l (lock l w)) /\
   start tm l name w = (false, l, unlock l (lock l w)) /\
   stop l name w = (false, l, unlock l (lock l w))).
Proof.
  split; [intros a b; apply strncmp_eq_take|]. split; [|split].
  - intros other Hsame.
    assert (E : find_first (matches other) (m_tasks_list l) =
                find_first (matches name) (m_tasks_list l)).
    { apply find_first_ext. intros x. apply matches_same_prefix, Hsame. }
    unfold pkill, start, stop. rewrite E.
    repeat split; try reflexivity.
    intros period cb. unfold task_t.make. rewrite Hsame. reflexivity.
  - intros i x Hm. pose proof (first_match_find _ _ _ _ Hm) as Hf.
    destruct Hm as (Hx & _).
    unfold pkill, start, stop. rewrite Hf, Hx.
    repeat split; try reflexivity.
    destruct (task_t.start tm x (lock l w)); reflexivity.
  - intros Hno. pose proof (no_match_find _ _ Hno) as Hf.
    unfold pkill, start, stop. rewrite Hf. repeat split; reflexivity.
Qed.
End LaneControl.

(** ** The scheduler's registry *)

Section Registry.
Context {W : Type}.
Implicit Types (tm : timer_t.t W) (w : W) (s : scheduler_t.t).
Implicit Types (lanes : scheduler_t.store W) (ps : list (option nat)).
Import scheduler_t.

Local Open Scope nat_scope.

Lemma to_u8_wrap (i : Z) : to_u8 (i + 256) = to_u8 i.
Proof.
  unfold to_u8. change (2 ^ 8)%Z with 256%Z.
  replace (i + 256)%Z with (i + 1 * 256)%Z by lia. apply Z.mod_add. lia.
Qed.

Lemma broadcast_skips_null op ps lanes w :
  broadcast op ps lanes w = broadcast op (Some <$> omap id ps) lanes w.
Proof.
  revert lanes w. induction ps as [|[a|] ps IH]; intros lanes w; simpl.
  - reflexivity.
  - destruct (lanes !! a) as [l|]; [|reflexivity].
    destruct (op l w) as [[b l'] w']. destruct b; [reflexivity|]. apply IH.
  - apply IH.
Qed.

Lemma reset_stats_skips_null ps lanes w :
  reset_stats_loop ps lanes w =
  reset_stats_loop (Some <$> omap id ps) lanes w.
Proof.
  revert lanes w. induction ps as [|[a|] ps IH]; intros lanes w; simpl.
  - reflexivity.
  - destruct (lanes !! a) as [l|]; [|reflexivity].
    destruct (thread.reset_stats l w) as [l' w']. apply IH.
  - apply IH.
Qed.

Lemma broadcast_all_null op ps lanes w :
  Forall (eq None) ps -> broadcast op ps lanes w = Done (false, lanes, w).
Proof. induction 1 as [|p ps <- _ IH]; simpl; auto. Qed.

Lemma reset_stats_all_null ps lanes w :
  Forall (eq None) ps -> reset_stats_loop ps lanes w = Done (lanes, w).
Proof. induction 1 as [|p ps <- _ IH]; simpl; auto. Qed.

Lemma add_thread_loop_Some ps p ps' :
  add_thread_loop ps p = Some ps' ->
  exists j,
    ps !! j = Some None /\
    (forall k q, k < j -> ps !! k = Some q -> q <> None) /\
    ps' = <[j := p]> ps.
Proof.
  revert ps'. induction ps as [|[a|] ps IH]; intros ps'; simpl.
  - discriminate.
  - destruct (add_thread_loop ps p) as [qs|]; [|discriminate].
    intros [= <-]. destruct (IH qs eq_refl) as (j & Hj & Hmin & ->).
    exists (S j). repeat split; auto.
    intros [|k] q Hk Hq; simpl in Hq; [congruence|].
    apply (Hmin k); [lia|exact Hq].
  - intros [= <-]. exists 0. repeat split; auto. intros k q Hk. lia.
Qed.

(** C9: a new scheduler holds eight null slots and [add(lane)] fills the
    first null slot only; [pkill], [start], [stop] and [reset_stats]
    behave as on the registry without its null slots (on an all-null
    registry they do nothing); [run(i)] and [add(task, i)] address the
    slot [i mod 256], the value of their [uint8_t] parameter: at an
    in-range slot that is still null they go through the null pointer,
    at a slot that holds a registered lane they are that lane's [run()]
    and [add()], and at an out-of-range slot they do nothing; so
    [run(256)] is [run(0)]. *)
Theorem registry_null_slots tm s task lanes w name :
  (forall cb tm0, m_threads (fst (make cb tm0)) = replicate 8 None) /\
  (forall p s',
     add_thread s p = (true, s') ->
     exists j,
       m_threads s !! j = Some None /\
       (forall k q, k < j -> m_threads s !! k = Some q -> q <> None) /\
       m_threads s' = <[j := p]> (m_threads s)) /\
  (pkill s name lanes w = pkill (registered s) name lanes w /\
   start tm s name lanes w = start tm (registered s) name lanes w /\
   stop s name lanes w = stop (registered s) name lanes w /\
   reset_stats s lanes w = reset_stats (registered s) lanes w) /\
  (Forall (eq None) (m_threads s) ->
   pkill s name lanes w = Done (false, lanes, w) /\
   start tm s name lanes w = Done (false, lanes, w) /\
   stop s name lanes w = Done (false, lanes, w) /\
   reset_stats s lanes w = Done (lanes, w)) /\
  (forall i : Z,
     Z.to_nat (to_u8 i) < length (m_threads s) ->
     m_threads s !! Z.to_nat (to_u8 i) = Some None ->
     run tm s i lanes w = Fault NullDeref /\
     add s task i lanes w = Fault NullDeref) /\
  (forall (i : Z) a l,
     m_threads s !! Z.to_nat (to_u8 i) = Some (Some a) ->
     lanes !! a = Some l ->
     run tm s i lanes w =
       match thread.run tm l w with
       | Done (l', w', _) => Done (<[a := l']> lanes, w')
       | Fault f => Fault f
       end /\
     add s task i lanes w =
       (let '(b, l', w') := thread.add l task w in
        Done (b, <[a := l']> lanes, w'))) /\
  (forall i : Z,
     length (m_threads s) <= Z.to_nat (to_u8 i) ->
     run tm s i lanes w = Done (lanes, w) /\
     add s task i lanes w = Done (false, lanes, w)) /\
  (forall i : Z,
     run tm s (i + 256) lanes w = run tm s i lanes w /\
     add s task (i + 256) lanes w = add s task i lanes w).
Proof.
  split; [reflexivity|].
  split; [|split; [|split; [|split; [|split; [|split]]]]].
  - intros p s'. unfold add_thread.
    destruct (add_thread_loop (m_threads s) p) as [ps'|] eqn:E;
      [|discriminate].
    intros [= <-]. simpl. apply add_thread_loop_Some, E.
  - unfold pkill, start, stop, reset_stats, registered. simpl.
    split; [apply broadcast_skips_null|].
    split; [apply broadcast_skips_null|].
    split; [apply broadcast_skips_null|].
    apply reset_stats_skips_null.
  - intros Hnull. unfold pkill, start, stop, reset_stats.
    rewrite !broadcast_all_null, reset_stats_all_null by exact Hnull.
    repeat split; reflexivity.
  - intros i Hi Hnull. unfold run, add. cbv zeta.
    replace (length (m_threads s) <=? Z.to_nat (to_u8 i)) with false
      by (symmetry; apply Nat.leb_gt; exact Hi).
    rewrite Hnull. split; reflexivity.
  - intros i a l Hi Hl.
    pose proof (lookup_lt_Some _ _ _ Hi) as Hlt.
    unfold run, add. cbv zeta.
    replace (length (m_threads s) <=? Z.to_nat (to_u8 i)) with false
      by (symmetry; apply Nat.leb_gt; exact Hlt).
    rewrite Hi. simpl. rewrite Hl. split.
    + destruct (thread.run tm l w) as [[[l' w'] e]|f]; reflexivity.
    + destruct (thread.add l task w) as [[b l'] w']. reflexivity.
  - intros i Hi. unfold run, add. cbv zeta.
    replace (length (m_threads s) <=? Z.to_nat (to_u8 i)) with true
      by (symmetry; apply Nat.leb_le; exact Hi).
    split; reflexivity.
  - intros i. unfold run, add. rewrite to_u8_wrap. split; reflexivity.
Qed.
End Registry.

(** ** The properties on the stepped-clock host *)

(** A task of period 10 polled at ticks 0, 5, 10, 15 and 20 runs at
    ticks 10 and 20 only. *)
Example period_ten_runs_at_ten_and_twenty :
  host.drive [0; 5; 10; 15; 20] host.lane4 =
    [None; None; Some 0%nat; None; Some 0%nat].
Proof. vm_compute. reflexivity. Qed.

(** C1 (code departs from the claim): a task of period [-10] that last ran
    at tick 12 is polled at tick 23, one period boundary (tick 20) later;
    it is ready, with time-left [-11].  [run()] then stores the run tick 23
    in [m_last_run_tick] -- neither [now() - time_left] nor the boundary --
    because it consults [ticks_left()] after it has stored [running]. *)
Theorem run_negative_period_stores_run_tick :
  task_t.m_status host.late_task = task_t.paused /\
  task_t.m_period_tick host.late_task = -10 /\
  task_t.m_last_run_tick host.late_task = 12 /\
  ready host.clock
    (host.poll 15 (host.exec 12 (host.poll 12 (host.poll 5 host.phase_task))))
    23 = true /\
  task_t.ticks_left host.late_task = -11 /\
  exists x' w',
    task_t.run host.clock host.late_task 23 = Done (x', w') /\
    task_t.m_last_run_tick x' = 23 /\
    task_t.m_last_run_tick x' <> 23 - task_t.ticks_left host.late_task /\
    task_t.m_last_run_tick x' <> 20.
Proof.
  repeat (split; [vm_compute; reflexivity|]).
  destruct (task_t.run host.clock host.late_task 23) as [[x' w']|f] eqn:E;
    [|vm_compute in E; discriminate].
  exists x', w'. split; [reflexivity|].
  assert (Hl : task_t.m_last_run_tick x' = 23).
  { vm_compute in E. injection E as <- _. reflexivity. }
  rewrite Hl. split; [reflexivity|]. split; vm_compute; discriminate.
Qed.

(** C2 (instance): polled at tick 5 and then at tick 12, the phase falls
    from 5 to 2 and the time-left is [-12]. *)
Lemma negative_period_time_left_witness :
  time_left host.clock (host.poll 5 host.phase_task) 12 = -12 /\
  task_t.m_prev
    (snd (fst (task_t._ticks_left host.clock
                 (host.poll 5 host.phase_task) 12))) = 2.
Proof.
  assert (Hr : reachable (host.poll 5 host.phase_task)).
  { apply reach_is_ready, reach_make. }
  assert (Hp : INT64_MIN <
               task_t.m_period_tick (host.poll 5 host.phase_task) < 0).
  { vm_compute. split; reflexivity. }
  destruct (negative_period_time_left host.clock _ 12 Hr Hp) as (Hcode & _).
  unfold time_left. rewrite Hcode. split; vm_compute; reflexivity.
Defined.

(** C3 (as stated, refuted): a constructed task is not [paused]. *)
Lemma constructed_task_is_not_paused :
  task_t.m_status (task_t.make "t1" 10 host.keep) <> task_t.paused.
Proof. discriminate. Qed.

(** C4 (instance): a stopped task of period 10 is not ready at tick 25;
    once started again it is. *)
Lemma readiness_and_start_witness :
  let x := task_t.stop (task_t.make "t1" 10 host.keep) in
  let x' := fst (task_t.start host.clock x 25) in
  task_t.is_ready host.clock x 25 = (false, x, 25) /\
  task_t.m_status x' = task_t.paused /\
  time_left host.clock x' 25 = -15 /\
  ready host.clock x' 25 = true.
Proof.
  intros x x'.
  destruct (readiness_and_start host.clock x 25) as (_ & Hgate & Hstart).
  destruct (Hstart eq_refl) as (Hst & _ & _ & Hafter).
  destruct (Hafter 25) as (Htl & Hrdy).
  split; [apply Hgate; left; reflexivity|]. split; [exact Hst|].
  split; [vm_compute; reflexivity|]. apply Hrdy. vm_compute. discriminate.
Defined.

Lemma zero_period_always_ready (name : string) :
  always_ready (fun _ => True) host.wrapping_clock
    (task_t.make name 0 host.keep).
Proof.
  split; [reflexivity|]. split; [eexists; reflexivity|].
  intros w _. apply ready_iff. simpl.
  split; [discriminate|]. split; [discriminate|].
  unfold time_left, task_t._ticks_left, timer_t.elapsed, timer_t.now. simpl.
  pose proof (Z.mod_pos_bound w 1000 ltac:(lia)) as Hb.
  rewrite (to_u64_id (w mod 1000)) by (unfold_ints; lia).
  rewrite (to_i64_id (w mod 1000)) by (unfold_ints; lia).
  rewrite (to_i64_id 0) by (unfold_ints; lia).
  rewrite Z.sub_0_r, (to_i64_id (w mod 1000)) by (unfold_ints; lia).
  rewrite to_i64_id by (unfold_ints; lia). lia.
Qed.

(** While the clock stands at tick 20 the tasks of [held2] are due, and
    nothing the host supplies to that lane moves the clock. *)
Lemma held2_kept :
  kept_by_host (fun w => w = 20) host.clock host.held2 /\
  forall i x, thread.m_tasks_list host.held2 !! i = Some x ->
              always_ready (fun w => w = 20) host.clock x.
Proof.
  split.
  - constructor.
    + intros w Hw. exact Hw.
    + intros w Hw. exact Hw.
    + intros w Hw. exact Hw.
    + intros [|[|i]] x cb w; simpl; intros [= <-] [= <-] Hw; exact Hw.
  - intros [|[|i]] x; simpl; intros [= <-];
      (split; [reflexivity|]); (split; [eexists; reflexivity|]);
      intros w ->; vm_compute; reflexivity.
Qed.

(** C5 (instance): three tasks of period 10 that are due at tick 20,
    cursor at slot 1: three calls are the turns of the slots 1, 2 and 0
    and leave all three tasks paused, run at the ticks 20, 21 and 22; two
    due tasks on a clock that stands still have their turns; and a lane
    without tasks is left alone. *)
Lemma lane_run_round_robin_witness :
  (exists l' w',
     thread.run_n host.clock 3 host.due3 20 =
       Done (l', w', [Some 1%nat; Some 2%nat; Some 0%nat]) /\
     turns host.clock [1%nat; 2%nat; 0%nat] host.due3 20 = Some (l', w') /\
     (task_t.m_status <$> thread.m_tasks_list l') =
       [task_t.paused; task_t.paused; task_t.paused] /\
     (task_t.m_last_run_tick <$> thread.m_tasks_list l') = [22; 20; 21]) /\
  is_Some (turns host.clock [0%nat; 1%nat] host.held2 20) /\
  thread.run host.wrapping_clock (thread.make 3 0) 0 =
    Done (thread.make 3 0, 0, None).
Proof.
  split; [|split].
  - destruct (lane_run_round_robin host.clock host.due3 20)
      as (_ & _ & Hrr & _).
    assert (Hidx : (thread.m_index host.due3 < thread.N host.due3)%nat)
      by (unfold host.due3, thread.N; simpl; lia).
    specialize (Hrr Hidx).
    change (rotate (thread.m_index host.due3)
              (seq 0 (thread.N host.due3)))
      with [1%nat; 2%nat; 0%nat] in Hrr.
    destruct (turns host.clock [1%nat; 2%nat; 0%nat] host.due3 20)
      as [[l' w']|] eqn:E; [|vm_compute in E; discriminate].
    exists l', w'. split; [apply Hrr; reflexivity|].
    split; [reflexivity|].
    vm_compute in E. injection E as <- _. split; reflexivity.
  - destruct (lane_run_round_robin host.clock host.held2 20)
      as (_ & _ & _ & Hex & _).
    destruct held2_kept as [Hkept Hall].
    apply (Hex ltac:(unfold host.held2, thread.N; simpl; lia)
             (fun w => w = 20) Hkept eq_refl Hall).
  - destruct (lane_run_round_robin host.wrapping_clock (thread.make 3 0) 0)
      as (Hempty & _).
    apply Hempty. reflexivity.
Defined.


(** C7 (instance): [pkill("abcdefghY")] removes the task that was named
    ["abcdefghX"], the first of the two in slot order. *)
Lemma name_addressed_control_witness :
  thread.pkill host.twins "abcdefghY" 0 =
    thread.pkill host.twins "abcdefghX" 0 /\
  fst (fst (thread.pkill host.twins "abcdefghY" 0)) = true /\
  (task_t.m_status <$>
     thread.m_tasks_list (snd (fst (thread.pkill host.twins "abcdefghY" 0)))) =
    [task_t.invalid; task_t.running; task_t.invalid] /\
  thread.stop host.twins "zzz" 0 = (false, host.twins, 0).
Proof.
  destruct (name_addressed_control host.clock host.twins "abcdefghX" 0)
    as (_ & Hsame & Hfirst & _).
  destruct (Hsame "abcdefghY"%string eq_refl) as (Hkill & _).
  destruct (Hfirst 0%nat (task_t.make "abcdefghX" 10 host.keep))
    as (Hk & _).
  { split; [reflexivity|]. split; [reflexivity|]. split; [reflexivity|].
    intros j y Hj. lia. }
  split; [exact Hkill|]. rewrite Hkill, Hk.
  split; [reflexivity|]. split; [reflexivity|].
  destruct (name_addressed_control host.clock host.twins "zzz" 0)
    as (_ & _ & _ & Hnone).
  apply Hnone. unfold host.twins.
  intros [|[|[|j]]] y; simpl; intros [= <-]; simpl; discriminate.
Defined.

(** C8 (instance): the task found late at tick 23 stores [paused];
    [status()] reports [delayed]. *)
Lemma stored_status_never_delayed_witness :
  task_t.m_status host.late_task <> task_t.delayed /\
  task_t.status host.late_task = task_t.delayed.
Proof.
  assert (Hr : reachable host.late_task).
  { unfold host.late_task, host.poll.
    do 2 apply reach_is_ready.
    apply (reach_run host.clock
             (host.poll 12 (host.poll 5 host.phase_task)) 12
             (host.exec 12 (host.poll 12 (host.poll 5 host.phase_task))) 13).
    - do 2 apply reach_is_ready. apply reach_make.
    - vm_compute. reflexivity. }
  destruct (stored_status_never_delayed _ Hr) as (Hd & _ & Hsyn).
  split; [exact Hd|]. apply Hsyn. vm_compute. reflexivity.
Defined.

(** C9 (instance): on a new scheduler [run(3)] and [run(259)] go through
    the null pointer of slot 3; once [lane2] is registered, [run(0)] runs
    that lane, and so does [run(256)]. *)
Lemma registry_null_slots_witness :
  scheduler_t.run host.clock host.fresh 3 [host.lane2] 50 = Fault NullDeref /\
  scheduler_t.run host.clock host.fresh 259 [host.lane2] 50 =
    Fault NullDeref /\
  scheduler_t.run host.clock host.wired 256 [host.lane2] 50 =
    scheduler_t.run host.clock host.wired 0 [host.lane2] 50 /\
  scheduler_t.add host.fresh (task_t.make "t1" 10 host.keep) 3
    [host.lane2] 50 = Fault NullDeref /\
  scheduler_t.pkill host.fresh "t1" [host.lane2] 50 =
    Done (false, [host.lane2], 50) /\
  exists lanes' w',
    scheduler_t.run host.clock host.wired 0 [host.lane2] 50 =
      Done (lanes', w').
Proof.
  destruct (registry_null_slots host.clock host.fresh
              (task_t.make "t1" 10 host.keep) [host.lane2] 50 "t1")
    as (_ & _ & _ & Hnull & Hderef & _).
  destruct (Hderef 3) as (Hrun & Hadd).
  { vm_compute. lia. }
  { reflexivity. }
  destruct (Hderef 259) as (Hrun' & _).
  { vm_compute. lia. }
  { reflexivity. }
  destruct Hnull as (Hkill & _).
  { repeat constructor. }
  destruct (registry_null_slots host.clock host.wired
              (task_t.make "t1" 10 host.keep) [host.lane2] 50 "t1")
    as (_ & _ & _ & _ & _ & Hlane & _ & Hwrap).
  destruct (Hwrap 0) as (Hsame & _).
  split; [exact Hrun|]. split; [exact Hrun'|]. split; [exact Hsame|].
  split; [exact Hadd|]. split; [exact Hkill|].
  destruct (Hlane 0 0%nat host.lane2 eq_refl eq_refl) as (-> & _).
  destruct (thread.run host.clock host.lane2 50) as [[[l' w'] e]|f] eqn:E.
  - eexists _, _. reflexivity.
  - vm_compute in E. discriminate.
Defined.

(** * Further properties of the code *)

(** ** The clock *)

Section MoreTimer.
Context {W : Type} (tm : timer_t.t W).

Lemma to_u64_to_i64 z : to_u64 (to_i64 z) = to_u64 z.
Proof.
  unfold to_u64, to_i64. rewrite Zminus_mod_idemp_l. f_equal. lia.
Qed.

Lemma to_u64_sub_i64 a b : to_u64 (to_i64 b - to_i64 a) = to_u64 (b - a).
Proof.
  unfold to_u64. rewrite Zminus_mod.
  fold (to_u64 (to_i64 b)). fold (to_u64 (to_i64 a)).
  rewrite !to_u64_to_i64. unfold to_u64. rewrite <- Zminus_mod. reflexivity.
Qed.

(** X1: [make_deadline(delay)] reads the clock once and returns
    [now() + delay] reduced modulo [2^64]; [is_expired] of it holds exactly
    at readings that have reached it.  When the sum does not fit in
    [uint64_t] the deadline wraps to a tick before the reading it was made
    at. *)
Theorem deadline_expiry delay w :
  is_u64 delay ->
  let n := fst (timer_t.now tm w) in
  let d := fst (timer_t.make_deadline tm delay w) in
  snd (timer_t.make_deadline tm delay w) = snd (timer_t.now tm w) /\
  (forall w', fst (timer_t.is_expired tm d w') = true <->
              d <= fst (timer_t.now tm w')) /\
  (n + delay <= UINT64_MAX -> d = n + delay) /\
  (UINT64_MAX < n + delay -> d = n + delay - 2 ^ 64 /\ d < n).
Proof.
  intros Hd n d. subst n d. pose proof (now_range tm w) as Hn.
  unfold timer_t.make_deadline, timer_t.is_expired.
  destruct (timer_t.now tm w) as [n w1]. simpl in *.
  split; [reflexivity|]. split; [|split].
  - intros w'. destruct (timer_t.now tm w') as [n' w2]. simpl.
    apply Z.leb_le.
  - intros Hfit. apply to_u64_id. unfold_ints. lia.
  - intros Hover. unfold_ints.
    assert (E : (n + delay) mod 18446744073709551616 =
                n + delay - 18446744073709551616).
    { symmetry. apply (Z.mod_unique _ _ 1); lia. }
    rewrite E. lia.
Qed.

(** X2: [elapsed(start)] is the exact difference [now() - start], negative
    when the clock reads less than [start], whenever both are below
    [2^63]; without an installed clock it is [-start]. *)
Theorem elapsed_exact start w :
  0 <= start <= INT64_MAX ->
  (fst (timer_t.now tm w) <= INT64_MAX ->
   fst (timer_t.elapsed tm start w) = fst (timer_t.now tm w) - start) /\
  (timer_t.m_on_now_cb tm = None ->
   timer_t.elapsed tm start w = (- start, w)).
Proof.
  intros Hs. pose proof (now_range tm w) as Hn. split.
  - intros Hfit. rewrite elapsed_now. simpl.
    rewrite (to_i64_id (fst (timer_t.now tm w))) by (unfold_ints; lia).
    rewrite (to_i64_id start) by (unfold_ints; lia).
    apply to_i64_id. unfold_ints. lia.
  - intros Hnone. unfold timer_t.elapsed, timer_t.now. rewrite Hnone.
    f_equal. rewrite (to_i64_id 0), (to_i64_id start) by (unfold_ints; lia).
    apply to_i64_id. unfold_ints. lia.
Qed.
End MoreTimer.

(** ** The rolling statistic and the stop-watch *)

Section MoreStatistic.
Import min_max_mean_t.

Local Open Scope nat_scope.

Lemma feed_app N (vs1 vs2 : list Z) s :
  feed N (vs1 ++ vs2) s = feed N vs2 (feed N vs1 s).
Proof. unfold feed. apply foldl_app. Qed.

Lemma mod_window_ne (i k n : nat) :
  i < k -> k < i + n -> i mod n <> k mod n.
Proof.
  intros Hik Hk.
  replace k with (i + (k - i)) by lia.
  rewrite <- Nat.Div0.add_mod_idemp_l.
  intros E. symmetry in E. revert E.
  apply mod_add_ne; [apply Nat.mod_upper_bound|]; lia.
Qed.

(** After [k] samples the cursor is [k mod N]; each of the last [N]
    samples sits in the slot of its position modulo [N], and the slots not
    yet written hold the first sample. *)
Lemma ring_layout (N : nat) (v : Z) (vs : list Z) (s0 : t) :
  0 < N ->
  let s := feed N (v :: vs) (reset N s0) in
  let k := S (length vs) in
  m_index s = k mod N /\
  m_is_mean_valid s = true /\
  length (m_values s) = N /\
  (forall i x, i < k -> k <= i + N -> (v :: vs) !! i = Some x ->
               m_values s !! (i mod N) = Some x) /\
  (forall j, k <= j < N -> m_values s !! j = Some v).
Proof.
  intros HN. induction vs as [|y vs IH] using rev_ind; cbv zeta.
  - simpl. rewrite insert_replicate, length_replicate.
    repeat split; auto.
    + intros i x Hi _. assert (i = 0) as -> by lia. simpl. intros [= <-].
      rewrite Nat.Div0.mod_0_l. apply lookup_replicate_2. lia.
    + intros j Hj. apply lookup_replicate_2. lia.
  - cbv zeta in IH. destruct IH as (Hidx & Hval & Hlen & Hwin & Hseed).
    change (v :: vs ++ [y]) with ((v :: vs) ++ [y]).
    rewrite feed_app. set (s := feed N (v :: vs) (reset N s0)) in *.
    rewrite length_app. simpl length.
    replace (S (length vs + 1)) with (S (S (length vs))) by lia.
    set (k := S (length vs)) in *.
    change (feed N [y] s) with (add N y s).
    unfold add. cbn [m_index m_is_mean_valid m_values].
    rewrite Hval, Hidx.
    assert (Hk : k mod N < N) by (apply Nat.mod_upper_bound; lia).
    repeat split.
    + rewrite Nat.Div0.add_mod_idemp_l. f_equal. lia.
    + rewrite length_insert. exact Hlen.
    + intros i x Hi HiN Hx.
      destruct (decide (i = k)) as [->|Hne].
      * rewrite list_lookup_insert_eq by lia.
        rewrite lookup_app_r in Hx by (simpl; lia).
        replace (k - length (v :: vs)) with 0 in Hx by (simpl; lia).
        simpl in Hx. exact Hx.
      * rewrite list_lookup_insert_ne
          by (apply not_eq_sym, mod_window_ne; lia).
        apply Hwin; [lia | lia |].
        rewrite lookup_app_l in Hx by (simpl; lia). exact Hx.
    + intros j Hj.
      rewrite list_lookup_insert_ne.
      * apply Hseed. lia.
      * rewrite Nat.mod_small by lia. lia.
Qed.

(** X3: after [reset()] and [k >= 1] samples the cursor is [k mod N] and
    the ring holds [N] values; while [k <= N] these are the samples in
    order followed by copies of the first one, and from [k >= N] on the
    ring read from the cursor is the last [N] samples, oldest first. *)
Theorem ring_holds_last_samples (N : nat) (v : Z) (vs : list Z) (s0 : t) :
  0 < N ->
  let s := feed N (v :: vs) (reset N s0) in
  let k := S (length vs) in
  m_index s = k mod N /\
  length (m_values s) = N /\
  (k <= N -> m_values s = (v :: vs) ++ replicate (N - k) v) /\
  (N <= k -> rotate (m_index s) (m_values s) = drop (k - N) (v :: vs)).
Proof.
  intros HN s k.
  destruct (ring_layout N v vs s0 HN) as (Hidx & _ & Hlen & Hwin & Hseed).
  fold s k in Hidx, Hlen, Hwin, Hseed.
  split; [exact Hidx|]. split; [exact Hlen|]. split.
  - intros Hk. apply list_eq. intros j.
    destruct (decide (j < k)) as [Hj|Hj].
    + rewrite lookup_app_l by (simpl; lia).
      destruct (lookup_lt_is_Some_2 (v :: vs) j) as [x Hx]; [simpl; lia|].
      rewrite Hx. rewrite <- (Nat.mod_small j N) by lia.
      apply Hwin; [lia | lia | exact Hx].
    + rewrite lookup_app_r by (simpl; lia).
      destruct (decide (j < N)) as [HjN|HjN].
      * rewrite Hseed by lia. symmetry. apply lookup_replicate_2.
        simpl. lia.
      * rewrite lookup_ge_None_2 by lia. symmetry.
        apply lookup_replicate_None. simpl. lia.
  - intros Hk. apply list_eq. intros j.
    destruct (decide (j < N)) as [Hj|Hj].
    + rewrite lookup_rotate_r by lia. rewrite Hlen, lookup_drop.
      destruct (lookup_lt_is_Some_2 (v :: vs) (k - N + j)) as [x Hx];
        [simpl; lia|].
      rewrite Hx.
      assert (E : rotate_nat_add (m_index s) j N = (k - N + j) mod N).
      { unfold rotate_nat_add.
        rewrite <- Nat2Z.inj_add, <- Nat2Z.inj_mod, Nat2Z.id, Hidx.
        rewrite Nat.Div0.add_mod_idemp_l.
        replace (k + j) with (k - N + j + 1 * N) by lia.
        apply Nat.Div0.mod_add. }
      rewrite E. apply Hwin; [lia | lia | exact Hx].
    + rewrite lookup_ge_None_2 by (rewrite length_rotate; lia).
      symmetry. apply lookup_ge_None_2. rewrite length_drop. simpl. lia.
Qed.
End MoreStatistic.

Section MoreExtremes.
Import min_max_mean_t.

Lemma feed_min N (vs : list Z) s :
  m_min (feed N vs s) = foldl Z.min (m_min s) vs.
Proof.
  revert s. induction vs as [|x vs IH]; intros s; [reflexivity|].
  change (feed N (x :: vs) s) with (feed N vs (add N x s)).
  rewrite IH. reflexivity.
Qed.

Lemma feed_max N (vs : list Z) s :
  m_max (feed N vs s) = foldl Z.max (m_max s) vs.
Proof.
  revert s. induction vs as [|x vs IH]; intros s; [reflexivity|].
  change (feed N (x :: vs) s) with (feed N vs (add N x s)).
  rewrite IH. reflexivity.
Qed.

Lemma foldl_min_bound (vs : list Z) (a : Z) :
  foldl Z.min a vs <= a /\ Forall (fun x => foldl Z.min a vs <= x) vs /\
  (foldl Z.min a vs = a \/ foldl Z.min a vs ∈ vs).
Proof.
  revert a. induction vs as [|x vs IH]; intros a; simpl.
  - repeat split; [lia | constructor | auto].
  - destruct (IH (Z.min a x)) as (Hle & Hall & Hin).
    split; [lia|]. split.
    + constructor; [lia | exact Hall].
    + destruct Hin as [E|Hin].
      * destruct (Z.min_spec a x) as [[_ E']|[_ E']].
        -- left. rewrite E. exact E'.
        -- right. rewrite E, E'. apply list_elem_of_here.
      * right. apply list_elem_of_further, Hin.
Qed.

Lemma foldl_max_bound (vs : list Z) (a : Z) :
  a <= foldl Z.max a vs /\ Forall (fun x => x <= foldl Z.max a vs) vs /\
  (foldl Z.max a vs = a \/ foldl Z.max a vs ∈ vs).
Proof.
  revert a. induction vs as [|x vs IH]; intros a; simpl.
  - repeat split; [lia | constructor | auto].
  - destruct (IH (Z.max a x)) as (Hle & Hall & Hin).
    split; [lia|]. split.
    + constructor; [lia | exact Hall].
    + destruct Hin as [E|Hin].
      * destruct (Z.max_spec a x) as [[_ E']|[_ E']].
        -- right. rewrite E, E'. apply list_elem_of_here.
        -- left. rewrite E. exact E'.
      * right. apply list_elem_of_further, Hin.
Qed.

(** X4: [min()] and [max()] are the extremes of every sample added since
    [reset()], also of those that have left the ring: each is one of the
    samples and bounds them all. *)
Theorem extremes_since_reset (N : nat) (v : Z) (vs : list Z) (s0 : t) :
  Forall is_u64 (v :: vs) ->
  let s := feed N (v :: vs) (reset N s0) in
  min s ∈ v :: vs /\
  max s ∈ v :: vs /\
  Forall (fun x => min s <= x <= max s) (v :: vs).
Proof.
  intros Hall s.
  assert (Hv : is_u64 v) by (inversion Hall; assumption).
  assert (Hmin : min s = foldl Z.min v vs).
  { unfold min, s. change (feed N (v :: vs) (reset N s0))
      with (feed N vs (add N v (reset N s0))).
    rewrite feed_min. simpl. f_equal. unfold is_u64 in Hv. lia. }
  assert (Hmax : max s = foldl Z.max v vs).
  { unfold max, s. change (feed N (v :: vs) (reset N s0))
      with (feed N vs (add N v (reset N s0))).
    rewrite feed_max. simpl. f_equal. unfold is_u64 in Hv. lia. }
  rewrite Hmin, Hmax.
  destruct (foldl_min_bound vs v) as (Hlo & Hlos & Hloin).
  destruct (foldl_max_bound vs v) as (Hhi & Hhis & Hhiin).
  split; [|split].
  - destruct Hloin as [->|Hin];
      [apply list_elem_of_here | apply list_elem_of_further, Hin].
  - destruct Hhiin as [->|Hin];
      [apply list_elem_of_here | apply list_elem_of_further, Hin].
  - constructor; [lia|].
    apply Forall_forall. intros x Hx.
    rewrite Forall_forall in Hlos, Hhis.
    specialize (Hlos x Hx). specialize (Hhis x Hx). lia.
Qed.

Lemma add_within_extremes N (x : Z) s :
  (m_is_mean_valid s = true -> within_extremes s) ->
  within_extremes (add N x s).
Proof.
  intros Hs. unfold within_extremes, add. cbn [m_min m_max m_values].
  apply Forall_insert; [|lia].
  destruct (m_is_mean_valid s).
  - eapply Forall_impl; [apply Hs; reflexivity|].
    intros y Hy. simpl in Hy. lia.
  - apply Forall_replicate. lia.
Qed.

Lemma feed_within_extremes N (vs : list Z) s :
  within_extremes s -> within_extremes (feed N vs s).
Proof.
  revert s. induction vs as [|x vs IH]; intros s Hs; [exact Hs|].
  change (feed N (x :: vs) s) with (feed N vs (add N x s)).
  apply IH, add_within_extremes. intros _. exact Hs.
Qed.

Lemma ring_sum_bounds (vs : list Z) (lo hi : Z) :
  Forall (fun x => lo <= x <= hi) vs ->
  Z.of_nat (length vs) * lo <= ring_sum vs <= Z.of_nat (length vs) * hi.
Proof.
  induction 1 as [|x vs Hx _ IH]; simpl length; simpl ring_sum; [lia|].
  rewrite Nat2Z.inj_succ. lia.
Qed.

(** X5: as long as the sum of the ring fits in [uint64_t], the mean lies
    between the recorded minimum and maximum. *)
Theorem mean_between_extremes (N : nat) (v : Z) (vs : list Z) (s0 : t) :
  (0 < N)%nat ->
  Forall is_u64 (v :: vs) ->
  let s := feed N (v :: vs) (reset N s0) in
  ring_sum (m_values s) <= UINT64_MAX ->
  min s <= mean s <= max s.
Proof.
  intros HN Hall s Hfit.
  assert (Hv : is_u64 v) by (inversion Hall; assumption).
  assert (Hvs : Forall is_u64 vs) by (inversion Hall; assumption).
  assert (Hseed : seeded N s).
  { unfold s. change (feed N (v :: vs) (reset N s0))
      with (feed N vs (add N v (reset N s0))).
    apply feed_seeded; [exact Hvs|]. apply add_seeded; [exact Hv|].
    simpl. discriminate. }
  destruct Hseed as (_ & Hlen & Hu64).
  assert (Hin : within_extremes s).
  { unfold s. change (feed N (v :: vs) (reset N s0))
      with (feed N vs (add N v (reset N s0))).
    apply feed_within_extremes, add_within_extremes. simpl. discriminate. }
  pose proof (ring_sum_bounds _ _ _ Hin) as Hb. rewrite Hlen in Hb.
  pose proof (ring_sum_nonneg _ Hu64) as Hnn.
  subst s. unfold min, max, mean.
  rewrite (mean_of_feed N vs v (reset N s0)).
  rewrite to_u64_id by (unfold is_u64; lia).
  split.
  - apply Z.div_le_lower_bound; lia.
  - apply Z.div_le_upper_bound; lia.
Qed.
End MoreExtremes.

Section MoreStopWatch.
Context {W : Type} (tm : timer_t.t W).

(** X6: a stop-watch that is reset, started at reading [a] and stopped at
    reading [b] records the single sample [(b - a) mod 2^64]: [b - a] when
    the clock has not gone back, [2^64 - (a - b)] when it has; [min] and
    [max] are that sample, and so is [mean] when 32 times the sample fits
    in [uint64_t]. *)
Theorem stop_watch_measures_difference (sw : stop_watch_t.t) (w : W) :
  let started := stop_watch_t.start tm (stop_watch_t.reset sw) w in
  let stopped := stop_watch_t.stop tm (fst started) (snd started) in
  let a := fst (timer_t.now tm w) in
  let b := fst (timer_t.now tm (snd started)) in
  let d := stop_watch_t.duration (fst stopped) in
  snd started = snd (timer_t.now tm w) /\
  min_max_mean_t.min d = to_u64 (b - a) /\
  min_max_mean_t.max d = to_u64 (b - a) /\
  min_max_mean_t.m_values d = replicate 32 (to_u64 (b - a)) /\
  (32 * to_u64 (b - a) <= UINT64_MAX ->
   min_max_mean_t.mean d = to_u64 (b - a)) /\
  (a <= b -> to_u64 (b - a) = b - a) /\
  (b < a -> to_u64 (b - a) = 2 ^ 64 - (a - b)).
Proof.
  cbv zeta.
  pose proof (now_range tm w) as Ha.
  unfold stop_watch_t.start, stop_watch_t.stop, stop_watch_t.duration.
  destruct (timer_t.now tm w) as [a w1].
  cbn [fst snd stop_watch_t.m_start stop_watch_t.m_duration] in *.
  pose proof (now_range tm w1) as Hb.
  rewrite elapsed_now.
  destruct (timer_t.now tm w1) as [b w2].
  cbn [fst snd stop_watch_t.m_start stop_watch_t.m_duration] in *.
  rewrite to_u64_to_i64, to_u64_sub_i64.
  pose proof (to_u64_range (b - a)) as Hs.
  remember (to_u64 (b - a)) as sample eqn:Es.
  split; [reflexivity|].
  split; [simpl; unfold is_u64 in Hs; lia|].
  split; [simpl; unfold is_u64 in Hs; lia|].
  split; [apply add_first_values|].
  split; [|split].
  - intros Hfit. unfold min_max_mean_t.mean.
    change (stop_watch_t.m_duration (stop_watch_t.reset sw))
      with (min_max_mean_t.reset 32 (stop_watch_t.m_duration sw)).
    rewrite mean_of_add, add_first_values, ring_sum_replicate.
    rewrite to_u64_id by (unfold is_u64 in *; lia).
    rewrite Z.mul_comm. apply Z.div_mul. lia.
  - intros Hle. subst sample. apply to_u64_id. unfold_ints. lia.
  - intros Hlt. subst sample. unfold_ints.
    symmetry. apply (Z.mod_unique _ _ (-1)); lia.
Qed.
End MoreStopWatch.

(** ** Readiness of a task *)

Section MoreTask.
Context {W : Type}.
Implicit Types (tm : timer_t.t W) (x : task_t.t W) (w : W).
Import task_t.

Lemma _ticks_left_nonnegative tm x w :
  0 <= m_period_tick x ->
  _ticks_left tm x w =
    (to_i64 (m_period_tick x -
             fst (timer_t.elapsed tm (m_last_run_tick x) w)),
     x, snd (timer_t.elapsed tm (m_last_run_tick x) w)).
Proof.
  intros Hp. unfold _ticks_left.
  replace (m_period_tick x <? 0) with false
    by (symmetry; apply Z.ltb_ge; exact Hp).
  destruct (timer_t.elapsed tm (m_last_run_tick x) w); reflexivity.
Qed.

Lemma _ticks_left_negative tm x w :
  m_status x <> delayed ->
  INT64_MIN < m_period_tick x < 0 ->
  let phase := fst (timer_t.now tm w) mod - m_period_tick x in
  let w1 := snd (timer_t.now tm w) in
  _ticks_left tm x w =
    (if phase <? m_prev x
     then (to_i64 (- fst (timer_t.elapsed tm (m_last_run_tick x) w1)),
           with_prev x phase,
           snd (timer_t.elapsed tm (m_last_run_tick x) w1))
     else (- m_period_tick x - phase, with_prev x phase, w1)) /\
  0 <= phase < - m_period_tick x.
Proof.
  intros Hd Hp phase w1. apply status_eqb_neq in Hd.
  assert (Hphase : 0 <= phase < - m_period_tick x).
  { subst phase. apply Z.mod_pos_bound. lia. }
  split; [|exact Hphase].
  unfold _ticks_left.
  replace (m_period_tick x <? 0) with true by (symmetry; apply Z.ltb_lt; lia).
  rewrite Hd, magnitude_fits by exact Hp.
  subst phase w1. destruct (timer_t.now tm w) as [n wn]. simpl in *.
  destruct (n mod - m_period_tick x <? m_prev x).
  - destruct (timer_t.elapsed tm (m_last_run_tick x) wn); reflexivity.
  - f_equal. f_equal. rewrite to_i64_to_u64. apply to_i64_id.
    unfold_ints. lia.
Qed.

Lemma is_ready_unfold tm x w :
  m_status x <> invalid -> m_status x <> stopped ->
  is_ready tm x w =
    (time_left tm x w <=? 0,
     with_ticks_left (snd (fst (_ticks_left tm x w))) (time_left tm x w),
     snd (_ticks_left tm x w)).
Proof.
  intros Hi Hs. unfold is_ready, time_left.
  apply status_eqb_neq in Hi, Hs. rewrite Hi, Hs.
  destruct (_ticks_left tm x w) as [[v x1] w1]. simpl.
  destruct (v <=? 0); reflexivity.
Qed.

Lemma nonnegative_period_poll tm x w :
  m_status x <> invalid -> m_status x <> stopped ->
  0 <= m_period_tick x <= INT64_MAX ->
  0 <= m_last_run_tick x <= fst (timer_t.now tm w) ->
  fst (timer_t.now tm w) <= INT64_MAX ->
  let n := fst (timer_t.now tm w) in
  (ready tm x w = true <-> m_period_tick x <= n - m_last_run_tick x) /\
  is_ready tm x w =
    (m_period_tick x <=? n - m_last_run_tick x,
     with_ticks_left x (m_period_tick x - (n - m_last_run_tick x)),
     snd (timer_t.now tm w)).
Proof.
  intros Hi Hs Hp Hl Hn n.
  assert (He : timer_t.elapsed tm (m_last_run_tick x) w =
               (n - m_last_run_tick x, snd (timer_t.now tm w))).
  { rewrite elapsed_now. f_equal. fold n.
    rewrite (to_i64_id n), (to_i64_id (m_last_run_tick x))
      by (unfold_ints; lia).
    apply to_i64_id. unfold_ints. lia. }
  assert (Hcode : is_ready tm x w =
    (m_period_tick x <=? n - m_last_run_tick x,
     with_ticks_left x (m_period_tick x - (n - m_last_run_tick x)),
     snd (timer_t.now tm w))).
  { rewrite is_ready_unfold by assumption. unfold time_left.
    rewrite _ticks_left_nonnegative, He by lia. simpl.
    rewrite to_i64_id by (unfold_ints; lia).
    f_equal. f_equal.
    destruct (m_period_tick x <=? n - m_last_run_tick x) eqn:E.
    - apply Z.leb_le in E. apply Z.leb_le. lia.
    - apply Z.leb_gt in E. apply Z.leb_gt. lia. }
  split; [|exact Hcode].
  unfold ready. rewrite Hcode. simpl. apply Z.leb_le.
Qed.


(** X7: a task of period [P >= 0] that is neither invalid nor stopped is
    ready exactly when the clock reading is at least [P] past
    [last_run] (readings below [2^63], clock not behind [last_run]); the
    poll stores [P - (now - last_run)] as time-left and changes nothing
    else.  A zero-period task is therefore ready at every such poll. *)
Theorem nonnegative_period_readiness tm x w :
  m_status x <> invalid -> m_status x <> stopped ->
  0 <= m_period_tick x <= INT64_MAX ->
  0 <= m_last_run_tick x <= fst (timer_t.now tm w) ->
  fst (timer_t.now tm w) <= INT64_MAX ->
  let n := fst (timer_t.now tm w) in
  (ready tm x w = true <-> m_period_tick x <= n - m_last_run_tick x) /\
  is_ready tm x w =
    (m_period_tick x <=? n - m_last_run_tick x,
     with_ticks_left x (m_period_tick x - (n - m_last_run_tick x)),
     snd (timer_t.now tm w)).
Proof. apply nonnegative_period_poll. Qed.

(** X8: a reachable task of negative period, neither invalid nor
    stopped, is ready exactly when the sampled phase has fallen below the
    stored one and the clock is not behind [last_run]; without such a
    wrap-around it is never ready, however long ago it last ran. *)
Theorem negative_period_ready_iff tm x w :
  reachable x ->
  m_status x <> invalid -> m_status x <> stopped ->
  INT64_MIN < m_period_tick x < 0 ->
  let phase := fst (timer_t.now tm w) mod - m_period_tick x in
  let e := fst (timer_t.elapsed tm (m_last_run_tick x)
                  (snd (timer_t.now tm w))) in
  INT64_MIN < e ->
  (ready tm x w = true <-> phase < m_prev x /\ 0 <= e).
Proof.
  intros Hr Hi Hs Hp phase e He.
  destruct (_ticks_left_negative tm x w (reachable_not_delayed x Hr) Hp)
    as [Hcode Hphase].
  fold phase in Hcode, Hphase. fold e in Hcode.
  pose proof (elapsed_range tm (m_last_run_tick x) (snd (timer_t.now tm w)))
    as Hrange. fold e in Hrange.
  rewrite ready_iff. unfold time_left. rewrite Hcode.
  destruct (phase <? m_prev x) eqn:E; simpl.
  - apply Z.ltb_lt in E.
    rewrite to_i64_id by (unfold_ints; lia).
    split; [intros (_ & _ & H); lia | intros [_ H]; repeat split; auto; lia].
  - apply Z.ltb_ge in E.
    split; [intros (_ & _ & H); lia | intros [H _]; lia].
Qed.

(** X9: the wrap-around is consumed by the poll that sees it: after any
    poll of such a task, a poll at a reading whose phase is not smaller
    than the one just sampled -- the same reading in particular -- finds
    the task not ready, with [P - phase] ticks left. *)
Theorem negative_period_edge_triggered tm x w w' :
  reachable x ->
  m_status x <> invalid -> m_status x <> stopped ->
  INT64_MIN < m_period_tick x < 0 ->
  let P := - m_period_tick x in
  let x' := snd (fst (is_ready tm x w)) in
  fst (timer_t.now tm w) mod P <= fst (timer_t.now tm w') mod P ->
  ready tm x' w' = false /\
  time_left tm x' w' = P - fst (timer_t.now tm w') mod P.
Proof.
  intros Hr Hi Hs Hp P x' Hphase.
  pose proof (reachable_not_delayed x Hr) as Hd.
  destruct (_ticks_left_negative tm x w Hd Hp) as [Hcode _].
  assert (Hx' : exists v, x' = with_ticks_left
                  (with_prev x (fst (timer_t.now tm w) mod P)) v).
  { subst x'. rewrite is_ready_unfold by assumption. cbn [fst snd].
    rewrite Hcode. fold P.
    destruct (fst (timer_t.now tm w) mod P <? m_prev x);
      eexists; reflexivity. }
  destruct Hx' as [v Hx'].
  assert (Hd' : m_status x' <> delayed) by (rewrite Hx'; exact Hd).
  assert (Hp' : INT64_MIN < m_period_tick x' < 0) by (rewrite Hx'; exact Hp).
  destruct (_ticks_left_negative tm x' w' Hd' Hp') as [Hcode' Hb].
  assert (Hprev : m_prev x' = fst (timer_t.now tm w) mod P)
    by (rewrite Hx'; reflexivity).
  assert (HP : - m_period_tick x' = P) by (rewrite Hx'; reflexivity).
  rewrite HP in Hcode', Hb. rewrite Hprev in Hcode'.
  replace (fst (timer_t.now tm w') mod P <? fst (timer_t.now tm w) mod P)
    with false in Hcode' by (symmetry; apply Z.ltb_ge; exact Hphase).
  assert (Htl : time_left tm x' w' = P - fst (timer_t.now tm w') mod P).
  { unfold time_left. rewrite Hcode'. reflexivity. }
  split; [|exact Htl].
  destruct (ready tm x' w') eqn:E; [|reflexivity].
  apply ready_iff in E. destruct E as (_ & _ & E). rewrite Htl in E. lia.
Qed.

Lemma run_begin_period tm x w :
  m_period_tick (fst (run_begin tm x w)) = m_period_tick x.
Proof.
  unfold run_begin. split_pairs.
  match goal with |- context [if ?c then _ else _] => destruct c end;
    reflexivity.
Qed.

Lemma run_end_period tm x keep w :
  m_period_tick (fst (run_end tm x keep w)) = m_period_tick x.
Proof. unfold run_end. split_pairs. reflexivity. Qed.

Lemma run_period tm x w x' w' :
  run tm x w = Done (x', w') -> m_period_tick x' = m_period_tick x.
Proof.
  unfold run.
  destruct (status_eqb (m_status x) invalid); [intros [= <- _]; reflexivity|].
  destruct (status_eqb (m_status x) stopped); [intros [= <- _]; reflexivity|].
  pose proof (run_begin_period tm x w) as Hb.
  destruct (run_begin tm x w) as [x1 w1]. simpl in Hb.
  destruct (m_callback x1) as [cb|]; [|discriminate].
  destruct (cb w1) as [keep w2]. intros [= H].
  pose proof (run_end_period tm x1 keep w2) as He. rewrite H in He.
  simpl in He. congruence.
Qed.

(** X10: [run()] on a task of period [P >= 0] that is neither invalid
    nor stopped stores a clock reading in [m_last_run_tick]; when the
    callback answers true the task is left [paused] and is ready again
    exactly at readings at least [P] past that stored reading. *)
Theorem run_then_ready_after_period tm x w cb :
  m_status x <> invalid -> m_status x <> stopped ->
  m_callback x = Some cb ->
  fst (cb (snd (run_begin tm x w))) = true ->
  0 <= m_period_tick x <= INT64_MAX ->
  exists x' w',
    run tm x w = Done (x', w') /\
    m_status x' = paused /\
    (exists w0, m_last_run_tick x' = fst (timer_t.now tm w0)) /\
    forall w2,
      m_last_run_tick x' <= fst (timer_t.now tm w2) <= INT64_MAX ->
      (ready tm x' w2 = true <->
       m_period_tick x <= fst (timer_t.now tm w2) - m_last_run_tick x').
Proof.
  intros Hi Hs Hcb Hkeep Hp.
  destruct (run_sets_status tm x w cb Hi Hs Hcb) as [Hrun Hst].
  rewrite Hkeep in Hrun, Hst.
  destruct (run_end tm (fst (run_begin tm x w)) true
              (snd (cb (snd (run_begin tm x w))))) as [x' w'] eqn:Hend.
  simpl in Hst.
  assert (Hlast : m_last_run_tick x' =
                  m_last_run_tick (fst (run_begin tm x w))).
  { unfold run_end in Hend. split_pairs. injection Hend as <- _.
    reflexivity. }
  destruct (run_begin_last_run_tick tm x w) as [w0 Hw0].
  pose proof (now_range tm w0) as Hn0.
  exists x', w'. split; [exact Hrun|]. split; [exact Hst|].
  split; [exists w0; congruence|].
  intros w2 Hw2.
  pose proof (run_period tm x w x' w' Hrun) as Hper.
  rewrite <- Hper.
  apply (nonnegative_period_poll tm x' w2).
  - rewrite Hst. discriminate.
  - rewrite Hst. discriminate.
  - rewrite Hper. exact Hp.
  - rewrite Hlast, Hw0 in *. unfold is_u64 in Hn0. lia.
  - lia.
Qed.
End MoreTask.

(** ** Lanes: capacity, addressing and dispatch *)

Section MoreLane.
Context {W : Type}.
Implicit Types (tm : timer_t.t W) (x : task_t.t W) (w : W).
Implicit Types (l : thread.t W) (ts : list (task_t.t W)).
Import thread.

Local Open Scope nat_scope.

Lemma count_valid_le ts : count_valid ts <= length ts.
Proof.
  induction ts as [|a ts IH]; simpl; [lia|].
  destruct (task_t.to_bool a); lia.
Qed.

Lemma count_valid_full ts :
  count_valid ts = length ts <->
  forall i x, ts !! i = Some x -> task_t.to_bool x = true.
Proof.
  induction ts as [|a ts IH]; simpl.
  - split; [intros _ i x H; discriminate | reflexivity].
  - pose proof (count_valid_le ts) as Hle.
    destruct (task_t.to_bool a) eqn:Ea; simpl.
    + split.
      * intros H [|i] x Hx; simpl in Hx; [congruence|].
        apply (proj1 IH ltac:(lia) i x Hx).
      * intros H. f_equal. apply IH. intros i x Hx. apply (H (S i) x Hx).
    + split; [lia|]. intros H. specialize (H 0 a eq_refl). congruence.
Qed.

Lemma count_valid_insert ts j x y :
  ts !! j = Some x ->
  count_valid (<[j := y]> ts) + populated x = count_valid ts + populated y.
Proof.
  revert j. induction ts as [|a ts IH]; intros [|j] Hx; simpl in *;
    try discriminate.
  - injection Hx as ->. unfold populated. lia.
  - specialize (IH j Hx). lia.
Qed.

Lemma str_take_idem n (a : string) : str_take n (str_take n a) = str_take n a.
Proof.
  revert a. induction n as [|n IH]; intros [|c a]; simpl; try reflexivity.
  rewrite IH. reflexivity.
Qed.

(** X11: a lane never holds more tasks than it has slots.  [add()] on a
    full lane answers false and leaves the lane as it is; otherwise it
    answers true, keeps the number of slots and raises [size()] by one
    when the added task is itself populated. *)
Theorem lane_capacity l task w :
  count_valid (m_tasks_list l) <= N l /\
  (count_valid (m_tasks_list l) = N l ->
   add l task w = (false, l, unlock l (lock l w))) /\
  (count_valid (m_tasks_list l) < N l ->
   exists l',
     add l task w = (true, l', unlock l (lock l w)) /\
     N l' = N l /\
     m_index l' = m_index l /\
     count_valid (m_tasks_list l') =
       count_valid (m_tasks_list l) + populated task).
Proof.
  split; [apply count_valid_le|]. split.
  - intros Hfull. unfold add.
    destruct (find_first _ (m_tasks_list l)) as [j|] eqn:Ef; [|reflexivity].
    apply find_first_Some in Ef. destruct Ef as (y & Hy & Hp & _).
    apply negb_true_iff in Hp.
    rewrite (proj1 (count_valid_full _) Hfull j y Hy) in Hp. discriminate.
  - intros Hroom.
    assert (Hex : exists i y, m_tasks_list l !! i = Some y /\
                              task_t.to_bool y = false).
    { destruct (find_first (fun x => negb (task_t.to_bool x))
                  (m_tasks_list l)) as [j|] eqn:Ef.
      - apply find_first_Some in Ef. destruct Ef as (y & Hy & Hp & _).
        apply negb_true_iff in Hp. eauto.
      - exfalso. unfold N in Hroom.
        assert (count_valid (m_tasks_list l) = length (m_tasks_list l));
          [|lia].
        apply count_valid_full. intros i y Hy.
        pose proof (proj1 (find_first_None _ _) Ef i y Hy) as H.
        simpl in H. apply negb_false_iff in H. exact H. }
    destruct Hex as (i & y & Hy & Hv).
    destruct (add_first_invalid l task w i y Hy Hv)
      as (j & yj & _ & Hyj & Hvj & _ & Hadd).
    eexists. split; [exact Hadd|]. unfold N. simpl.
    split; [apply length_insert|]. split; [reflexivity|].
    pose proof (count_valid_insert _ j yj (task_t.assign yj task) Hyj) as Hc.
    unfold populated in *. unfold task_t.to_bool in *. simpl in *.
    rewrite Hvj in Hc. lia.
Qed.

Lemma add_assigns l task w l' w' :
  add l task w = (true, l', w') ->
  exists j old new,
    m_tasks_list l !! j = Some old /\
    task_t.to_bool old = false /\
    m_tasks_list l' !! j = Some new /\
    (forall i, i <> j -> m_tasks_list l' !! i = m_tasks_list l !! i) /\
    task_t.m_prev new = task_t.m_prev old /\
    task_t.m_ticks_left new = task_t.m_ticks_left old /\
    task_t.m_name new = task_t.m_name task /\
    task_t.m_period_tick new = task_t.m_period_tick task /\
    task_t.m_status new = task_t.m_status task /\
    task_t.m_last_run_tick new = task_t.m_last_run_tick task /\
    task_t.m_run_time new = task_t.m_run_time task /\
    task_t.m_exec_time new = task_t.m_exec_time task.
Proof.
  unfold add.
  destruct (find_first _ (m_tasks_list l)) as [j|] eqn:Ef; [|discriminate].
  apply find_first_Some in Ef. destruct Ef as (y & Hy & Hp & _).
  apply negb_true_iff in Hp. rewrite Hy. intros [= <- _].
  exists j, y, (task_t.assign y task). simpl.
  pose proof (lookup_lt_Some _ _ _ Hy) as Hlt.
  split; [exact Hy|]. split; [exact Hp|].
  split; [apply list_lookup_insert_eq, Hlt|].
  split; [intros i Hi; apply list_lookup_insert_ne; auto|].
  repeat split; reflexivity.
Qed.

(** X12: [add()] assigns with [task_t::operator=], which leaves
    [m_prev] and [m_ticks_left] of the slot alone: the new occupant takes
    name, period, status, callback, [last_run] and both statistics from
    the added task, and the stored phase sample and time-left from the
    task that held the slot before. *)
Theorem add_keeps_phase_of_slot l task w l' w' :
  add l task w = (true, l', w') ->
  exists j old new,
    m_tasks_list l !! j = Some old /\
    task_t.to_bool old = false /\
    m_tasks_list l' !! j = Some new /\
    (forall i, i <> j -> m_tasks_list l' !! i = m_tasks_list l !! i) /\
    task_t.m_prev new = task_t.m_prev old /\
    task_t.m_ticks_left new = task_t.m_ticks_left old /\
    task_t.m_name new = task_t.m_name task /\
    task_t.m_period_tick new = task_t.m_period_tick task /\
    task_t.m_status new = task_t.m_status task /\
    task_t.m_last_run_tick new = task_t.m_last_run_tick task /\
    task_t.m_run_time new = task_t.m_run_time task /\
    task_t.m_exec_time new = task_t.m_exec_time task.
Proof. apply add_assigns. Qed.

Lemma named_matches name x : named name x <-> matches name x = true.
Proof. unfold named. symmetry. apply matches_iff. Qed.

Lemma find_first_is_Some (p : task_t.t W -> bool) ts i x :
  ts !! i = Some x -> p x = true -> is_Some (find_first p ts).
Proof.
  intros Hx Hp. destruct (find_first p ts) eqn:E; [eauto|].
  rewrite (proj1 (find_first_None p ts) E i x Hx) in Hp. discriminate.
Qed.

Lemma name_ops_answer tm l name w :
  fst (fst (pkill l name w)) =
    bool_decide (is_Some (find_first (matches name) (m_tasks_list l))) /\
  fst (fst (start tm l name w)) =
    bool_decide (is_Some (find_first (matches name) (m_tasks_list l))) /\
  fst (fst (stop l name w)) =
    bool_decide (is_Some (find_first (matches name) (m_tasks_list l))).
Proof.
  unfold pkill, start, stop.
  destruct (find_first (matches name) (m_tasks_list l)) as [i|] eqn:Ef.
  - apply find_first_Some in Ef. destruct Ef as (x & Hx & _). rewrite Hx.
    destruct (task_t.start tm x (lock l w)).
    rewrite bool_decide_eq_true_2 by eauto. auto.
  - rewrite bool_decide_eq_false_2 by (intros [? ?]; discriminate). auto.
Qed.

(** X13: a populated task that has been added can be addressed by its
    name: after a successful [add()], [pkill], [start] and [stop] with any
    name that agrees with the task's on the first eight characters answer
    true -- also with the name the task was constructed from when that
    was longer than eight characters. *)
Theorem added_task_is_addressable tm l task name w l' w' w2 :
  named name task ->
  add l task w = (true, l', w') ->
  fst (fst (pkill l' name w2)) = true /\
  fst (fst (start tm l' name w2)) = true /\
  fst (fst (stop l' name w2)) = true /\
  forall long period (cb : option (W -> bool * W)),
    named long (task_t.make long period cb).
Proof.
  intros [Hv Hn] Hadd.
  destruct (add_assigns l task w l' w' Hadd)
    as (j & old & new & _ & _ & Hnew & _ & _ & _ & Hname & _ & Hst & _).
  assert (Hm : matches name new = true).
  { apply matches_iff. split.
    - unfold task_t.to_bool in *. rewrite Hst. exact Hv.
    - unfold task_t.name in *. rewrite Hname. exact Hn. }
  pose proof (find_first_is_Some _ _ _ _ Hnew Hm) as Hsome.
  destruct (name_ops_answer tm l' name w2) as (-> & -> & ->).
  rewrite bool_decide_eq_true_2 by exact Hsome.
  split; [reflexivity|]. split; [reflexivity|]. split; [reflexivity|].
  intros long period cb. split; [reflexivity|].
  unfold task_t.name, task_t.make. cbn [task_t.m_name].
  apply str_take_idem.
Qed.

(** X14: [pkill] lowers [size()] by one and frees exactly the slot of the
    first match; [stop] and [start] leave [size()] as it is.  When no
    other populated slot carries the prefix, the name is gone after
    [pkill]: a further [pkill], [start] or [stop] with it answers false,
    so a killed task cannot be started again through its lane. *)
Theorem pkill_frees_the_slot tm l name w i x :
  first_match name (m_tasks_list l) i x ->
  let l' := snd (fst (pkill l name w)) in
  count_valid (m_tasks_list l') + 1 = count_valid (m_tasks_list l) /\
  (exists y, m_tasks_list l' !! i = Some y /\ task_t.to_bool y = false) /\
  (forall j, j <> i -> m_tasks_list l' !! j = m_tasks_list l !! j) /\
  count_valid (m_tasks_list (snd (fst (stop l name w)))) =
    count_valid (m_tasks_list l) /\
  count_valid (m_tasks_list (snd (fst (start tm l name w)))) =
    count_valid (m_tasks_list l) /\
  ((forall j y, j <> i -> m_tasks_list l !! j = Some y -> ~ named name y) ->
   forall w2,
     fst (fst (pkill l' name w2)) = false /\
     fst (fst (start tm l' name w2)) = false /\
     fst (fst (stop l' name w2)) = false).
Proof.
  intros Hm l'. pose proof (first_match_find _ _ _ _ Hm) as Hf.
  destruct Hm as (Hx & Hv & Hn & Hmin).
  pose proof (lookup_lt_Some _ _ _ Hx) as Hlt.
  assert (Hl' : m_tasks_list l' =
                <[i := task_t.invalidate x]> (m_tasks_list l)).
  { subst l'. unfold pkill. rewrite Hf, Hx. reflexivity. }
  split; [|split; [|split; [|split; [|split]]]].
  - rewrite Hl'.
    pose proof (count_valid_insert _ i x (task_t.invalidate x) Hx) as Hc.
    unfold populated in Hc. rewrite Hv in Hc.
    change (task_t.to_bool (task_t.invalidate x)) with false in Hc.
    cbv iota in Hc. lia.
  - exists (task_t.invalidate x). rewrite Hl'.
    split; [apply list_lookup_insert_eq, Hlt | reflexivity].
  - intros j Hj. rewrite Hl'. apply list_lookup_insert_ne. auto.
  - unfold stop. rewrite Hf, Hx. simpl.
    pose proof (count_valid_insert _ i x (task_t.stop x) Hx) as Hc.
    unfold populated in Hc. rewrite Hv in Hc.
    change (task_t.to_bool (task_t.stop x)) with true in Hc.
    cbv iota in Hc. lia.
  - unfold start. rewrite Hf, Hx.
    pose proof (start_status tm x (lock l w)) as Hst.
    destruct (task_t.start tm x (lock l w)) as [x' w1]. simpl in *.
    pose proof (count_valid_insert _ i x x' Hx) as Hc.
    unfold populated in Hc. rewrite Hv in Hc.
    unfold task_t.to_bool in Hc at 1. rewrite Hst in Hc. simpl in Hc. lia.
  - intros Hothers w2.
    assert (Hnone : find_first (matches name) (m_tasks_list l') = None).
    { apply find_first_None. intros j y Hy.
      destruct (matches name y) eqn:E; [|reflexivity]. exfalso.
      rewrite Hl' in Hy. destruct (decide (j = i)) as [->|Hne].
      - rewrite list_lookup_insert_eq in Hy by exact Hlt.
        injection Hy as <-. apply matches_iff in E. destruct E as [E _].
        discriminate E.
      - rewrite list_lookup_insert_ne in Hy by auto.
        apply (Hothers j y Hne Hy). apply named_matches, E. }
    destruct (name_ops_answer tm l' name w2) as (-> & -> & ->).
    rewrite Hnone.
    rewrite bool_decide_eq_false_2 by (intros [? ?]; discriminate). auto.
Qed.
End MoreLane.

Section MoreDispatch.
Context {W : Type}.
Implicit Types (tm : timer_t.t W) (x : task_t.t W) (w : W).
Implicit Types (l : thread.t W) (ts : list (task_t.t W)).
Import thread.

Local Open Scope nat_scope.

Lemma skip_invalid_Done fuel ts i idx :
  skip_invalid fuel ts i = Done idx ->
  exists x, ts !! idx = Some x /\ task_t.to_bool x = true.
Proof.
  revert i. induction fuel as [|fuel IH]; intros i; simpl; [discriminate|].
  destruct (ts !! i) as [x|] eqn:Hx; [|discriminate].
  destruct (task_t.to_bool x) eqn:Hv.
  - intros [= <-]. eauto.
  - apply IH.
Qed.

(** What a call of [run()] that returns has done. *)
Lemma run_inv tm l w l' w' e :
  run tm l w = Done (l', w', e) ->
  (l' = l /\ e = None /\ count_valid (m_tasks_list l) = 0) \/
  (exists idx x x',
     m_tasks_list l !! idx = Some x /\
     task_t.to_bool x = true /\
     m_tasks_list l' = <[idx := x']> (m_tasks_list l) /\
     m_index l' = (idx + 1) mod N l /\
     m_lock_cb l' = m_lock_cb l /\
     m_unlock_cb l' = m_unlock_cb l /\
     ((e = None /\ ready tm x (poll_world tm l w) = false /\
       x' = snd (fst (task_t.is_ready tm x (poll_world tm l w)))) \/
      (e = Some idx /\ ready tm x (poll_world tm l w) = true /\
       exists w3 w4,
         task_t.run tm (snd (fst (task_t.is_ready tm x (poll_world tm l w))))
           w3 = Done (x', w4)))).
Proof.
  unfold run, poll_world, ready, size. cbn [fst snd].
  destruct (count_valid (m_tasks_list l) =? 0) eqn:Ec.
  { apply Nat.eqb_eq in Ec. intros [= <- _ <-]. left. auto. }
  destruct (stop_watch_t.start tm (m_watch l)
              (lock l (unlock l (lock l w)))) as [watch1 w2]. cbn [snd].
  destruct (skip_invalid (N l) (m_tasks_list l) (m_index l))
    as [idx|f] eqn:Hskip; [|discriminate].
  destruct (skip_invalid_Done _ _ _ _ Hskip) as (x & Hx & Hv).
  rewrite Hx.
  destruct (task_t.is_ready tm x w2) as [[rdy x1] w3] eqn:Hrd.
  cbn [fst snd].
  destruct rdy.
  - destruct (task_t.run tm x1 w3) as [[x2 w4]|f] eqn:Hrun; [|discriminate].
    destruct (stop_watch_t.stop tm watch1 (unlock l w4)) as [watch2 w6].
    intros [= <- _ <-]. right. exists idx, x, x2. cbn.
    rewrite ?Hrd. cbn [fst snd].
    repeat split; auto. right. repeat split; eauto.
  - destruct (stop_watch_t.stop tm watch1 (unlock l w3)) as [watch2 w6].
    intros [= <- _ <-]. right. exists idx, x, x1. cbn.
    rewrite ?Hrd. cbn [fst snd].
    repeat split; auto.
Qed.

(** X15: dispatch keeps the shape of a lane: after any number of
    [run()] calls the lane has the same number of slots and the same
    lock callbacks, the cursor is still a slot index, there is one trace
    entry per call, and every executed slot is a slot of the lane. *)
Theorem dispatch_keeps_lane_shape tm n : forall l w l' w' trace,
  run_n tm n l w = Done (l', w', trace) ->
  N l' = N l /\
  m_lock_cb l' = m_lock_cb l /\
  m_unlock_cb l' = m_unlock_cb l /\
  (m_index l < N l -> m_index l' < N l') /\
  length trace = n /\
  Forall (fun e => forall i, e = Some i -> i < N l) trace.
Proof.
  induction n as [|n IH]; intros l w l' w' trace; simpl.
  - intros [= <- _ <-]. repeat split; auto.
  - destruct (run tm l w) as [[[l1 w1] e]|f] eqn:Hrun; [|discriminate].
    destruct (run_n tm n l1 w1) as [[[l2 w2] es]|f] eqn:Hrest; [|discriminate].
    intros [= <- _ <-].
    destruct (IH _ _ _ _ _ Hrest) as (HN & Hlk & Hul & Hidx & Hlen & Hall).
    assert (Hstep : N l1 = N l /\ m_lock_cb l1 = m_lock_cb l /\
                    m_unlock_cb l1 = m_unlock_cb l /\
                    (m_index l < N l -> m_index l1 < N l1) /\
                    (forall i, e = Some i -> i < N l)).
    { destruct (run_inv _ _ _ _ _ _ Hrun)
        as [(-> & -> & _)|(idx & x & x' & Hx & _ & Hts & Hi & Hl & Hu & He)].
      - repeat split; auto. discriminate.
      - pose proof (lookup_lt_Some _ _ _ Hx) as Hlt.
        assert (HN1 : N l1 = N l).
        { unfold N. rewrite Hts. apply length_insert. }
        repeat split; auto.
        + intros _. rewrite Hi, HN1. apply Nat.mod_upper_bound.
          unfold N. lia.
        + intros i Hei. destruct He as [(-> & _)|(-> & _)];
            [discriminate|]. injection Hei as <-. exact Hlt. }
    destruct Hstep as (HN1 & Hlk1 & Hul1 & Hidx1 & He).
    repeat split; try congruence.
    + intros H. apply Hidx, Hidx1, H.
    + simpl. lia.
    + constructor; [exact He|].
      eapply Forall_impl; [exact Hall|]. intros o Ho i Hi.
      rewrite <- HN1. apply Ho, Hi.
Qed.

(** X16: dispatch leaves alone what is switched off: a slot that holds a
    stopped or an invalid task holds the very same task after any number
    of [run()] calls, and is never among the executed slots. *)
Theorem dispatch_skips_stopped_and_invalid tm n : forall l w l' w' trace j x,
  run_n tm n l w = Done (l', w', trace) ->
  m_tasks_list l !! j = Some x ->
  task_t.m_status x = task_t.stopped \/ task_t.m_status x = task_t.invalid ->
  m_tasks_list l' !! j = Some x /\ Some j ∉ trace.
Proof.
  induction n as [|n IH]; intros l w l' w' trace j x; simpl.
  - intros [= <- _ <-] Hx _. split; [exact Hx|]. apply not_elem_of_nil.
  - destruct (run tm l w) as [[[l1 w1] e]|f] eqn:Hrun; [|discriminate].
    destruct (run_n tm n l1 w1) as [[[l2 w2] es]|f] eqn:Hrest; [|discriminate].
    intros [= <- _ <-] Hx Hoff.
    assert (Hstep : m_tasks_list l1 !! j = Some x /\ e <> Some j).
    { destruct (run_inv _ _ _ _ _ _ Hrun)
        as [(-> & -> & _)|(idx & y & y' & Hy & Hv & Hts & _ & _ & _ & He)].
      - split; [exact Hx | discriminate].
      - destruct (decide (idx = j)) as [->|Hne].
        + rewrite Hx in Hy. injection Hy as <-.
          destruct Hoff as [Hoff|Hoff].
          * pose proof (is_ready_gated tm x (poll_world tm l w)
                          (or_introl Hoff)) as Hg.
            destruct He as [(-> & _ & ->)|(_ & Hrdy & _)].
            -- rewrite Hts, Hg. cbn [fst snd].
               split; [|discriminate].
               apply list_lookup_insert_eq. eapply lookup_lt_Some, Hx.
            -- unfold ready in Hrdy. rewrite Hg in Hrdy. discriminate.
          * unfold task_t.to_bool in Hv. rewrite Hoff in Hv. discriminate.
        + split.
          * rewrite Hts. rewrite list_lookup_insert_ne by exact Hne.
            exact Hx.
          * destruct He as [(-> & _)|(-> & _)]; congruence. }
    destruct Hstep as [Hx1 He].
    destruct (IH _ _ _ _ _ _ _ Hrest Hx1 Hoff) as [Hx2 Hnot].
    split; [exact Hx2|]. intros Hin. apply elem_of_cons in Hin.
    destruct Hin as [Hin|Hin]; [congruence | contradiction].
Qed.
End MoreDispatch.

(** ** The critical section *)

Section Balance.
Context {W : Type}.
Variable depth : W -> Z.
Variable tm : timer_t.t W.
Hypothesis clock_keeps_depth :
  forall w, depth (snd (timer_t.now tm w)) = depth w.
Implicit Types (x : task_t.t W) (w : W) (l : thread.t W).

Lemma elapsed_depth start w :
  depth (snd (timer_t.elapsed tm start w)) = depth w.
Proof. rewrite elapsed_now. apply clock_keeps_depth. Qed.

Lemma watch_start_depth (sw : stop_watch_t.t) w :
  depth (snd (stop_watch_t.start tm sw w)) = depth w.
Proof.
  unfold stop_watch_t.start. pose proof (clock_keeps_depth w) as H.
  destruct (timer_t.now tm w). exact H.
Qed.

Lemma watch_stop_depth (sw : stop_watch_t.t) w :
  depth (snd (stop_watch_t.stop tm sw w)) = depth w.
Proof.
  unfold stop_watch_t.stop.
  pose proof (elapsed_depth (stop_watch_t.m_start sw) w) as H.
  destruct (timer_t.elapsed tm (stop_watch_t.m_start sw) w). exact H.
Qed.

Lemma _ticks_left_depth x w :
  depth (snd (task_t._ticks_left tm x w)) = depth w.
Proof.
  unfold task_t._ticks_left.
  destruct (task_t.m_period_tick x <? 0).
  - destruct (task_t.status_eqb (task_t.m_status x) task_t.delayed).
    + pose proof (elapsed_depth (task_t.m_last_run_tick x) w) as H.
      destruct (timer_t.elapsed tm (task_t.m_last_run_tick x) w). exact H.
    + pose proof (clock_keeps_depth w) as H.
      destruct (timer_t.now tm w) as [n w1]. cbn [snd] in H.
      match goal with |- context [if ?c then _ else _] => destruct c end.
      * pose proof (elapsed_depth (task_t.m_last_run_tick x) w1) as H1.
        destruct (timer_t.elapsed tm (task_t.m_last_run_tick x) w1).
        cbn [snd] in *. congruence.
      * exact H.
  - pose proof (elapsed_depth (task_t.m_last_run_tick x) w) as H.
    destruct (timer_t.elapsed tm (task_t.m_last_run_tick x) w). exact H.
Qed.

Lemma is_ready_depth x w :
  depth (snd (task_t.is_ready tm x w)) = depth w.
Proof.
  unfold task_t.is_ready.
  destruct (task_t.status_eqb (task_t.m_status x) task_t.invalid);
    [reflexivity|].
  destruct (task_t.status_eqb (task_t.m_status x) task_t.stopped);
    [reflexivity|].
  pose proof (_ticks_left_depth x w) as H.
  destruct (task_t._ticks_left tm x w) as [[v x1] w1]. cbn [snd] in H.
  match goal with |- context [if ?c then _ else _] => destruct c end;
    exact H.
Qed.

Lemma run_begin_depth x w :
  depth (snd (task_t.run_begin tm x w)) = depth w.
Proof.
  unfold task_t.run_begin.
  pose proof (watch_stop_depth (task_t.m_exec_time x) w) as H1.
  destruct (stop_watch_t.stop tm (task_t.m_exec_time x) w) as [et1 w1].
  pose proof (watch_start_depth et1 w1) as H2.
  destruct (stop_watch_t.start tm et1 w1) as [et2 w2].
  pose proof (clock_keeps_depth w2) as H3.
  destruct (timer_t.now tm w2) as [n w3].
  match goal with
  | |- context [stop_watch_t.start tm ?sw w3] =>
      pose proof (watch_start_depth sw w3) as H4;
      destruct (stop_watch_t.start tm sw w3) as [rt w4]
  end.
  cbn [snd] in *. congruence.
Qed.

Lemma task_run_depth x w x' w' :
  (forall cb w0, task_t.m_callback x = Some cb ->
                 depth (snd (cb w0)) = depth w0) ->
  task_t.run tm x w = Done (x', w') -> depth w' = depth w.
Proof.
  intros Hcb. unfold task_t.run.
  destruct (task_t.status_eqb (task_t.m_status x) task_t.invalid);
    [intros [= _ <-]; reflexivity|].
  destruct (task_t.status_eqb (task_t.m_status x) task_t.stopped);
    [intros [= _ <-]; reflexivity|].
  pose proof (run_begin_depth x w) as H1.
  pose proof (run_begin_callback tm x w) as Hc.
  destruct (task_t.run_begin tm x w) as [x1 w1]. cbn [fst snd] in *.
  destruct (task_t.m_callback x1) as [cb|] eqn:E; [|discriminate].
  pose proof (Hcb cb w1 (eq_sym Hc)) as H2.
  destruct (cb w1) as [keep w2]. cbn [snd] in H2.
  unfold task_t.run_end.
  match goal with
  | |- context [stop_watch_t.stop tm ?sw w2] =>
      pose proof (watch_stop_depth sw w2) as H3;
      destruct (stop_watch_t.stop tm sw w2) as [rt w3]
  end.
  cbn [snd] in H3. intros [= _ <-]. congruence.
Qed.

(** X17: with [lock] and [unlock] that enter and leave a critical
    section, every lane operation leaves as often as it enters: [size],
    [add], [pkill], [start], [stop], [reset_stats] and every [run()] that
    returns end at the nesting depth they began at, and [run()] polls its
    task one level inside. *)
Theorem lane_operations_balanced l :
  critical_section depth tm l ->
  forall w task name,
    depth (snd (thread.size l w)) = depth w /\
    depth (snd (thread.add l task w)) = depth w /\
    depth (snd (thread.pkill l name w)) = depth w /\
    depth (snd (thread.start tm l name w)) = depth w /\
    depth (snd (thread.stop l name w)) = depth w /\
    depth (snd (thread.reset_stats l w)) = depth w /\
    depth (poll_world tm l w) = depth w + 1 /\
    (forall l' w' e,
       thread.run tm l w = Done (l', w', e) -> depth w' = depth w).
Proof.
  intros [Hlock Hunlock _ Hcb] w task name.
  assert (Hpair : forall w0, depth (thread.unlock l (thread.lock l w0)) =
                             depth w0).
  { intros w0. rewrite Hunlock, Hlock. lia. }
  split; [apply Hpair|]. split; [|split; [|split; [|split; [|split; [|split]]]]].
  - unfold thread.add.
    destruct (thread.find_first _ _) as [i|]; [|apply Hpair].
    destruct (thread.m_tasks_list l !! i); apply Hpair.
  - unfold thread.pkill.
    destruct (thread.find_first _ _) as [i|]; [|apply Hpair].
    destruct (thread.m_tasks_list l !! i); apply Hpair.
  - unfold thread.start.
    destruct (thread.find_first _ _) as [i|]; [|apply Hpair].
    destruct (thread.m_tasks_list l !! i) as [x|]; [|apply Hpair].
    unfold task_t.start.
    match goal with
    | |- context [stop_watch_t.start tm ?sw ?w0] =>
        pose proof (watch_start_depth sw w0) as H;
        destruct (stop_watch_t.start tm sw w0) as [et w1]
    end.
    cbn [snd] in *. rewrite Hunlock, H, Hlock. lia.
  - unfold thread.stop.
    destruct (thread.find_first _ _) as [i|]; [|apply Hpair].
    destruct (thread.m_tasks_list l !! i); apply Hpair.
  - apply Hpair.
  - unfold poll_world, thread.size. cbn [snd].
    rewrite watch_start_depth, Hlock, Hpair. reflexivity.
  - intros l' w' e Hrun.
    assert (Hpoll : depth (poll_world tm l w) = depth w + 1).
    { unfold poll_world, thread.size. cbn [snd].
      rewrite watch_start_depth, Hlock, Hpair. reflexivity. }
    revert Hrun. unfold thread.run, thread.size. cbn [fst snd].
    destruct (thread.count_valid (thread.m_tasks_list l) =? 0)%nat.
    { intros [= _ <- _]. apply Hpair. }
    unfold poll_world, thread.size in Hpoll. cbn [snd] in Hpoll.
    destruct (stop_watch_t.start tm (thread.m_watch l)
                (thread.lock l (thread.unlock l (thread.lock l w))))
      as [watch1 w2]. cbn [snd] in Hpoll.
    destruct (thread.skip_invalid _ _ _) as [idx|f]; [|discriminate].
    destruct (thread.m_tasks_list l !! idx) as [x|] eqn:Hx; [|discriminate].
    pose proof (is_ready_depth x w2) as Hr.
    pose proof (is_ready_callback tm x w2) as Hc.
    destruct (task_t.is_ready tm x w2) as [[rdy x1] w3]. cbn [fst snd] in *.
    assert (Hinner : forall x2 w4,
              (if rdy then task_t.run tm x1 w3 else Done (x1, w3)) =
                Done (x2, w4) -> depth w4 = depth w + 1).
    { intros x2 w4. destruct rdy.
      - intros Hrun. rewrite (task_run_depth x1 w3 x2 w4); [lia| |exact Hrun].
        intros cb w0 E. rewrite Hc in E. apply (Hcb idx x cb w0 Hx E).
      - intros [= _ <-]. lia. }
    destruct (if rdy then task_t.run tm x1 w3 else Done (x1, w3))
      as [[x2 w4]|f]; [|discriminate].
    specialize (Hinner x2 w4 eq_refl).
    pose proof (watch_stop_depth watch1 (thread.unlock l w4)) as Hs.
    destruct (stop_watch_t.stop tm watch1 (thread.unlock l w4))
      as [watch2 w6]. cbn [snd] in Hs.
    intros [= _ <- _]. rewrite Hs, Hunlock, Hinner. lia.
Qed.
End Balance.

(** ** The registry *)

Section MoreRegistry.
Context {W : Type}.
Implicit Types (tm : timer_t.t W) (w : W) (s : scheduler_t.t).
Implicit Types (lanes : scheduler_t.store W) (ps : list (option nat)).
Import scheduler_t.

Local Open Scope nat_scope.

Lemma add_thread_loop_prefix (qs : list nat) ps p :
  add_thread_loop ((Some <$> qs) ++ ps) p =
  app (Some <$> qs) <$> add_thread_loop ps p.
Proof.
  induction qs as [|q qs IH].
  - simpl. destruct (add_thread_loop ps p); reflexivity.
  - rewrite fmap_cons. cbn [app add_thread_loop]. rewrite IH.
    destruct (add_thread_loop ps p); reflexivity.
Qed.

Lemma add_thread_next (qs : list nat) (k : nat) (p : nat) :
  snd (add_thread {| m_threads := (Some <$> qs) ++ replicate (S k) None |}
         (Some p)) =
  {| m_threads := (Some <$> (qs ++ [p])) ++ replicate k None |}.
Proof.
  unfold add_thread. cbn [m_threads].
  rewrite add_thread_loop_prefix.
  change (add_thread_loop (replicate (S k) None) (Some p))
    with (Some (Some p :: replicate k (@None nat))).
  cbn [fmap option_fmap option_map snd].
  rewrite fmap_app, <- app_assoc. reflexivity.
Qed.

Lemma register_all_fill (ps qs : list nat) (k : nat) :
  length ps <= k ->
  m_threads (register_all (Some <$> ps)
               {| m_threads := (Some <$> qs) ++ replicate k None |}) =
  (Some <$> (qs ++ ps)) ++ replicate (k - length ps) None.
Proof.
  revert qs k. induction ps as [|p ps IH]; intros qs k Hk.
  - simpl. rewrite app_nil_r, Nat.sub_0_r. reflexivity.
  - simpl in Hk. destruct k as [|k]; [lia|].
    change (register_all (Some <$> p :: ps)
              {| m_threads := (Some <$> qs) ++ replicate (S k) None |})
      with (register_all (Some <$> ps)
              (snd (add_thread
                      {| m_threads := (Some <$> qs) ++ replicate (S k) None |}
                      (Some p)))).
    rewrite add_thread_next, IH by lia.
    rewrite <- app_assoc. reflexivity.
Qed.

Lemma add_thread_loop_full ps p :
  Forall is_Some ps -> add_thread_loop ps p = None.
Proof.
  induction 1 as [|q ps [a ->] _ IH]; simpl; [reflexivity|].
  rewrite IH. reflexivity.
Qed.

(** X18: lanes registered on a new scheduler take the registry slots in
    the order of registration, the remaining slots staying null; once
    eight lanes are registered every further [add(lane)] answers false
    and changes nothing. *)
Theorem registry_fills_in_order (ps : list nat)
    (cb : option (W -> Z * W)) (tm0 : timer_t.t W) :
  length ps <= 8 ->
  let s := register_all (Some <$> ps) (fst (make cb tm0)) in
  m_threads s = (Some <$> ps) ++ replicate (8 - length ps) None /\
  (length ps = 8 -> forall p, add_thread s p = (false, s)).
Proof.
  intros Hlen s.
  assert (Hs : m_threads s = (Some <$> ps) ++ replicate (8 - length ps) None).
  { subst s. apply (register_all_fill ps [] 8 Hlen). }
  split; [exact Hs|].
  intros Hfull p. unfold add_thread. rewrite Hs, Hfull. simpl.
  rewrite app_nil_r. rewrite add_thread_loop_full; [reflexivity|].
  apply Forall_fmap, Forall_forall. intros a _. simpl. eauto.
Qed.

(** X19: registering a null pointer is reported as a success whenever a
    slot is free, but leaves the registry exactly as it was. *)
Theorem null_registration_changes_nothing s i :
  m_threads s !! i = Some None ->
  add_thread s None = (true, s).
Proof.
  intros Hi. unfold add_thread.
  assert (E : add_thread_loop (m_threads s) None = Some (m_threads s)).
  { revert i Hi. induction (m_threads s) as [|[a|] ps IH]; intros i Hi.
    - discriminate.
    - destruct i as [|i]; [discriminate|]. simpl in *.
      rewrite (IH i Hi). reflexivity.
    - reflexivity. }
  rewrite E. destruct s. reflexivity.
Qed.

Lemma broadcast_outcome (op : thread.t W -> W -> bool * thread.t W * W) ps :
  (forall l w, fst (fst (op l w)) = false -> snd (fst (op l w)) = l) ->
  forall lanes w b lanes' w',
    broadcast op ps lanes w = Done (b, lanes', w') ->
    (b = false -> lanes' = lanes) /\
    (b = true ->
     exists a l w1,
       Some a ∈ ps /\ lanes !! a = Some l /\
       fst (fst (op l w1)) = true /\
       lanes' = <[a := snd (fst (op l w1))]> lanes /\
       w' = snd (op l w1)).
Proof.
  intros Hop.
  induction ps as [|[a|] ps IH]; intros lanes w b lanes' w';
    cbn [broadcast deref]; unfold store in *.
  - intros [= <- <- <-]. split; [intros _; reflexivity|].
    intros H. discriminate H.
  - destruct (lanes !! a) as [l|] eqn:Hl; [|discriminate].
    pose proof (Hop l w) as Hsame.
    destruct (op l w) as [[b0 l0] w0] eqn:E. cbn [fst snd] in Hsame.
    destruct b0.
    + intros [= <- <- <-]. split; [intros H; discriminate H|]. intros _.
      exists a, l, w. rewrite E. cbn [fst snd].
      repeat split; auto. apply list_elem_of_here.
    + rewrite (Hsame eq_refl), (list_insert_id _ _ _ Hl).
      intros Hrest. destruct (IH _ _ _ _ _ Hrest) as [Hf Ht].
      split; [exact Hf|]. intros Hb.
      destruct (Ht Hb) as (a' & l' & w1 & Hin & Hrest').
      exists a', l', w1. split; [apply list_elem_of_further, Hin|exact Hrest'].
  - intros Hrest. destruct (IH _ _ _ _ _ Hrest) as [Hf Ht].
    split; [exact Hf|]. intros Hb.
    destruct (Ht Hb) as (a' & l' & w1 & Hin & Hrest').
    exists a', l', w1. split; [apply list_elem_of_further, Hin|exact Hrest'].
Qed.

Lemma lane_name_op_false tm name :
  (forall l w, fst (fst (thread.pkill l name w)) = false ->
               snd (fst (thread.pkill l name w)) = l) /\
  (forall l w, fst (fst (thread.start tm l name w)) = false ->
               snd (fst (thread.start tm l name w)) = l) /\
  (forall l w, fst (fst (thread.stop l name w)) = false ->
               snd (fst (thread.stop l name w)) = l).
Proof.
  repeat split; intros l w; unfold thread.pkill, thread.start, thread.stop;
    destruct (thread.find_first _ _) as [i|]; try reflexivity;
    destruct (thread.m_tasks_list l !! i) as [x|]; try reflexivity;
    try discriminate.
  destruct (task_t.start tm x (thread.lock l w)). discriminate.
Qed.

(** X20: a scheduler-wide [pkill], [start] or [stop] that returns changes
    at most one lane: when it answers false every lane is as before, and
    when it answers true exactly one registered lane -- one whose own
    [pkill], [start] or [stop], respectively, answered true -- has been
    replaced by the result of that very operation, even if other lanes
    hold a task of the same name. *)
Theorem broadcast_changes_one_lane tm s name lanes w b lanes' w' :
  (pkill s name lanes w = Done (b, lanes', w') ->
   (b = false -> lanes' = lanes) /\
   (b = true ->
    exists a l w1,
      Some a ∈ m_threads s /\ lanes !! a = Some l /\
      fst (fst (thread.pkill l name w1)) = true /\
      lanes' = <[a := snd (fst (thread.pkill l name w1))]> lanes /\
      w' = snd (thread.pkill l name w1) /\
      forall c, c <> a -> lanes' !! c = lanes !! c)) /\
  (start tm s name lanes w = Done (b, lanes', w') ->
   (b = false -> lanes' = lanes) /\
   (b = true ->
    exists a l w1,
      Some a ∈ m_threads s /\ lanes !! a = Some l /\
      fst (fst (thread.start tm l name w1)) = true /\
      lanes' = <[a := snd (fst (thread.start tm l name w1))]> lanes /\
      w' = snd (thread.start tm l name w1) /\
      forall c, c <> a -> lanes' !! c = lanes !! c)) /\
  (stop s name lanes w = Done (b, lanes', w') ->
   (b = false -> lanes' = lanes) /\
   (b = true ->
    exists a l w1,
      Some a ∈ m_threads s /\ lanes !! a = Some l /\
      fst (fst (thread.stop l name w1)) = true /\
      lanes' = <[a := snd (fst (thread.stop l name w1))]> lanes /\
      w' = snd (thread.stop l name w1) /\
      forall c, c <> a -> lanes' !! c = lanes !! c)).
Proof.
  destruct (lane_name_op_false tm name) as (Hk & Hs & Ht).
  unfold store in *. unfold pkill, start, stop.
  split; [|split]; intros H;
    [ destruct (broadcast_outcome _ _ Hk _ _ _ _ _ H) as [Hf Hb]
    | destruct (broadcast_outcome _ _ Hs _ _ _ _ _ H) as [Hf Hb]
    | destruct (broadcast_outcome _ _ Ht _ _ _ _ _ H) as [Hf Hb] ];
    (split; [exact Hf|]); intros Htrue;
    destruct (Hb Htrue) as (a & l & w1 & Hin & Hl & Hans & Hlanes & Hw);
    exists a, l, w1;
    (split; [exact Hin|]); (split; [exact Hl|]); (split; [exact Hans|]);
    (split; [exact Hlanes|]); (split; [exact Hw|]);
    intros c Hc; rewrite Hlanes; apply list_lookup_insert_ne; auto.
Qed.

(** X21: [run(i)] and [add(task, i)] that return leave the store with as
    many lanes as before and touch no lane but the one registered at the
    slot they address, which is slot [i mod 256]. *)
Theorem scheduler_call_touches_one_lane tm s (i : Z) task lanes w :
  (forall lanes' w',
     run tm s i lanes w = Done (lanes', w') ->
     length lanes' = length lanes /\
     forall c, m_threads s !! Z.to_nat (to_u8 i) <> Some (Some c) ->
               lanes' !! c = lanes !! c) /\
  (forall b lanes' w',
     add s task i lanes w = Done (b, lanes', w') ->
     length lanes' = length lanes /\
     forall c, m_threads s !! Z.to_nat (to_u8 i) <> Some (Some c) ->
               lanes' !! c = lanes !! c).
Proof.
  unfold store in *. split.
  - intros lanes' w'. unfold run. cbv zeta.
    destruct (length (m_threads s) <=? Z.to_nat (to_u8 i));
      [intros [= <- _]; auto|].
    destruct (m_threads s !! Z.to_nat (to_u8 i)) as [[a|]|];
      try discriminate.
    cbn [deref]. unfold store in *.
    destruct (lanes !! a) as [l|]; [|discriminate].
    destruct (thread.run tm l w) as [[[l' w1] e]|f]; [|discriminate].
    intros [= <- _]. split; [apply length_insert|].
    intros c Hc. apply list_lookup_insert_ne. congruence.
  - intros b lanes' w'. unfold add. cbv zeta.
    destruct (length (m_threads s) <=? Z.to_nat (to_u8 i));
      [intros [= _ <- _]; auto|].
    destruct (m_threads s !! Z.to_nat (to_u8 i)) as [[a|]|];
      try discriminate.
    cbn [deref]. unfold store in *.
    destruct (lanes !! a) as [l|]; [|discriminate].
    destruct (thread.add l task w) as [[b' l'] w1].
    intros [= _ <- _]. split; [apply length_insert|].
    intros c Hc. apply list_lookup_insert_ne. congruence.
Qed.
End MoreRegistry.

(** ** Stages *)

Section MoreStage.
Context {W : Type}.
Implicit Types (tm : timer_t.t W) (w : W) (s : stage_t.t).
Implicit Types (stages : list (option (stage_t.stage_fn W))).
Import stage_t.

Local Open Scope nat_scope.

Lemma with_index_same s : with_index s (m_index s) = s.
Proof. destruct s; reflexivity. Qed.

(** X22: [sleep(ticks)] never answers [reset] and never moves the stage
    index.  It answers [next] exactly when it leaves the machine awake and
    [stay] exactly when it leaves it sleeping.  On a sleeping machine it
    keeps the armed deadline and answers [next] exactly when the clock has
    reached it; on an awake machine it arms [now() + ticks] (modulo
    [2^64]) and compares it with a second reading of the clock. *)
Theorem sleep_holds_until_deadline tm ticks s w :
  let dir := fst (fst (sleep tm ticks s w)) in
  let s' := snd (fst (sleep tm ticks s w)) in
  m_index s' = m_index s /\
  dir <> direction_t.reset /\
  (dir = direction_t.next <-> m_is_sleeping s' = false) /\
  (dir = direction_t.stay <-> m_is_sleeping s' = true) /\
  (m_is_sleeping s = true ->
   m_deadline s' = m_deadline s /\
   (dir = direction_t.next <->
    (m_deadline s <= fst (timer_t.now tm w))%Z)) /\
  (m_is_sleeping s = false ->
   m_deadline s' = to_u64 (fst (timer_t.now tm w) + ticks) /\
   (dir = direction_t.next <->
    (m_deadline s' <= fst (timer_t.now tm (snd (timer_t.now tm w))))%Z)).
Proof.
  cbv zeta. unfold sleep, timer_t.make_deadline, timer_t.is_expired.
  destruct (m_is_sleeping s) eqn:Hs.
  - destruct (timer_t.now tm w) as [n w1]. cbn [fst snd].
    destruct (m_deadline s <=? n)%Z eqn:E; cbn [fst snd m_index m_is_sleeping m_deadline].
    + apply Z.leb_le in E.
      repeat split; try discriminate; try reflexivity; auto.
    + apply Z.leb_gt in E. rewrite Hs.
      repeat split; try discriminate; try reflexivity; auto; try lia.
      all: intros H; try discriminate H; lia.
  - destruct (timer_t.now tm w) as [n w1]. cbn [fst snd m_deadline].
    destruct (timer_t.now tm w1) as [n2 w2]. cbn [fst snd].
    destruct (to_u64 (n + ticks) <=? n2)%Z eqn:E;
      cbn [fst snd m_index m_is_sleeping m_deadline].
    + apply Z.leb_le in E.
      repeat split; try discriminate; try reflexivity; auto.
    + apply Z.leb_gt in E.
      repeat split; try discriminate; try reflexivity; auto; try lia.
      all: intros H; try discriminate H; lia.
Qed.

(** X23: [run()] calls the stage under the index and moves the index as
    the stage says -- one further with wrap-around, not at all, or back to
    0.  When the stage under the index is empty it starts over with stage
    0 instead; when stage 0 is empty too the call goes through an empty
    [std::function].  The index stays below [N] throughout. *)
Theorem stage_run_follows_direction stages s w :
  m_index s < length stages ->
  (forall i (f : stage_fn W) s0 w0, stages !! i = Some (Some f) ->
     m_index (snd (fst (f s0 w0))) = m_index s0) ->
  (forall f : stage_fn W, stages !! m_index s = Some (Some f) ->
     run stages s w =
       Done (with_index (snd (fst (f s w)))
               (advance (length stages) (m_index s) (fst (fst (f s w)))),
             snd (f s w))) /\
  (stages !! m_index s = Some None ->
   forall f0 : stage_fn W, stages !! 0 = Some (Some f0) ->
     run stages s w =
       Done (with_index (snd (fst (f0 (with_index s 0) w)))
               (advance (length stages) 0
                  (fst (fst (f0 (with_index s 0) w)))),
             snd (f0 (with_index s 0) w))) /\
  (stages !! m_index s = Some None -> stages !! 0 = Some None ->
   run stages s w = Fault BadFunctionCall) /\
  (forall s' w', run stages s w = Done (s', w') ->
     m_index s' < length stages).
Proof.
  intros Hidx Hkeep.
  assert (Hstep : forall (f : stage_fn W) s0,
    stages !! m_index s0 = Some (Some f) ->
    m_index s0 < length stages ->
    (let '(dir, s2, w') := f s0 w in
     Done (match dir with
           | direction_t.next =>
               with_index s2 ((m_index s2 + 1) mod length stages)
           | direction_t.stay => s2
           | direction_t.reset => with_index s2 0
           end, w')) =
    Done (with_index (snd (fst (f s0 w)))
            (advance (length stages) (m_index s0) (fst (fst (f s0 w)))),
          snd (f s0 w)) /\
    advance (length stages) (m_index s0) (fst (fst (f s0 w)))
      < length stages).
  { intros f s0 Hf Hlt. pose proof (Hkeep _ f s0 w Hf) as Hk.
    destruct (f s0 w) as [[dir s2] w']. cbn [fst snd] in *.
    destruct dir; cbn [advance]; rewrite <- ?Hk.
    - split; [reflexivity|]. apply Nat.mod_upper_bound. lia.
    - rewrite with_index_same. split; [reflexivity|]. rewrite Hk. exact Hlt.
    - split; [reflexivity|]. lia. }
  split; [|split; [|split]].
  - intros f Hf. unfold run, stage_fn in *. cbv zeta. rewrite Hf.
    cbv beta iota. rewrite Hf.
    apply Hstep; assumption.
  - intros Hhole f0 Hf0. unfold run, stage_fn in *. cbv zeta.
    rewrite Hhole.
    cbn [with_index m_index]. rewrite Hf0.
    apply (Hstep f0 (with_index s 0)); [exact Hf0|]. cbn. lia.
  - intros Hhole Hzero. unfold run, stage_fn in *. cbv zeta.
    rewrite Hhole.
    cbn [with_index m_index]. rewrite Hzero. reflexivity.
  - intros s' w'. unfold run, stage_fn in *. cbv zeta.
    destruct (stages !! m_index s) as [[f|]|] eqn:Hhere; [| |discriminate].
    + cbv beta iota. rewrite Hhere.
      destruct (Hstep f s Hhere Hidx) as [-> Hlt].
      intros [= <- _]. exact Hlt.
    + cbn [with_index m_index].
      destruct (stages !! 0) as [[f0|]|] eqn:Hzero; try discriminate.
      destruct (Hstep f0 (with_index s 0) Hzero) as [-> Hlt]; [cbn; lia|].
      intros [= <- _]. exact Hlt.
Qed.

(** X24: a sleeping machine whose current stage is [SCH_SLEEP(ticks)]
    stays exactly as it is while the clock reads less than the armed
    deadline, and at a reading that has reached it moves to the next
    stage, wrapping after the last, awake again. *)
Theorem sleep_stage_advances_on_expiry tm ticks stages s w :
  stages !! m_index s = Some (Some (SCH_SLEEP tm ticks)) ->
  m_is_sleeping s = true ->
  let n := fst (timer_t.now tm w) in
  ((n < m_deadline s)%Z ->
   run stages s w = Done (s, snd (timer_t.now tm w))) /\
  ((m_deadline s <= n)%Z ->
   run stages s w =
     Done ({| m_index := (m_index s + 1) mod length stages;
              m_is_sleeping := false;
              m_deadline := m_deadline s |}, snd (timer_t.now tm w))).
Proof.
  intros Hf Hs n. subst n. unfold run, stage_fn in *. cbv zeta.
  rewrite Hf. cbv beta iota. rewrite Hf.
  unfold SCH_SLEEP, sleep, timer_t.is_expired. rewrite Hs.
  destruct (timer_t.now tm w) as [n w1]. cbn [fst snd].
  split.
  - intros Hlt. replace (m_deadline s <=? n)%Z with false
      by (symmetry; apply Z.leb_gt; exact Hlt).
    reflexivity.
  - intros Hle. replace (m_deadline s <=? n)%Z with true
      by (symmetry; apply Z.leb_le; exact Hle).
    reflexivity.
Qed.
End MoreStage.

(** ** The older header *)

Section MoreLegacy.
Context {W : Type}.
Variable elapsed : Z -> W -> Z * W.

(** X25: in the older header the sign of the period does not matter: two
    tasks that differ only in the sign of their period are ready at the
    same polls, namely when neither invalid nor stopped and
    [elapsed(last_run)] has reached the magnitude of the period; a task
    of period zero is never ready and its poll does not read the clock. *)
Theorem legacy_readiness_ignores_sign (x y : sch_legacy.task_t W) (w : W) :
  INT64_MIN < sch_legacy.m_period_tick x ->
  sch_legacy.m_period_tick y = - sch_legacy.m_period_tick x ->
  sch_legacy.m_status y = sch_legacy.m_status x ->
  sch_legacy.m_last_run_tick y = sch_legacy.m_last_run_tick x ->
  is_i64 (sch_legacy.m_period_tick x) ->
  sch_legacy_task.is_ready elapsed y w = sch_legacy_task.is_ready elapsed x w /\
  (sch_legacy.m_period_tick x = 0 ->
   sch_legacy_task.is_ready elapsed x w = (false, w)) /\
  (sch_legacy.m_status x <> task_t.invalid ->
   sch_legacy.m_status x <> task_t.stopped ->
   sch_legacy.m_period_tick x <> 0 ->
   sch_legacy_task.is_ready elapsed x w =
     (Z.abs (sch_legacy.m_period_tick x) <=?
        fst (elapsed (sch_legacy.m_last_run_tick x) w),
      snd (elapsed (sch_legacy.m_last_run_tick x) w))).
Proof.
  intros Hmin Hp Hst Hlast Hrange.
  unfold sch_legacy_task.is_ready. rewrite Hp, Hst, Hlast.
  set (p := sch_legacy.m_period_tick x) in *.
  assert (Hneg : to_i64 (- p) = - p) by (apply to_i64_id; unfold_ints; lia).
  rewrite Z.opp_involutive, Hneg.
  rewrite (to_i64_id p) by exact Hrange.
  split; [|split].
  - destruct (task_t.status_eqb (sch_legacy.m_status x) task_t.invalid);
      [reflexivity|].
    destruct (task_t.status_eqb (sch_legacy.m_status x) task_t.stopped);
      [reflexivity|].
    destruct (Z.ltb_spec 0 p) as [Hpos|Hnpos].
    + replace (0 <? - p) with false by (symmetry; apply Z.ltb_ge; lia).
      replace (- p <? 0) with true by (symmetry; apply Z.ltb_lt; lia).
      reflexivity.
    + destruct (Z.ltb_spec p 0) as [Hn|Hz].
      * replace (0 <? - p) with true by (symmetry; apply Z.ltb_lt; lia).
        reflexivity.
      * replace (0 <? - p) with false by (symmetry; apply Z.ltb_ge; lia).
        replace (- p <? 0) with false by (symmetry; apply Z.ltb_ge; lia).
        reflexivity.
  - intros ->.
    destruct (task_t.status_eqb (sch_legacy.m_status x) task_t.invalid);
      [reflexivity|].
    destruct (task_t.status_eqb (sch_legacy.m_status x) task_t.stopped);
      reflexivity.
  - intros Hi Hs Hnz. apply status_eqb_neq in Hi, Hs. rewrite Hi, Hs.
    destruct (Z.ltb_spec 0 p) as [Hpos|Hnpos].
    + rewrite Z.abs_eq by lia.
      destruct (elapsed (sch_legacy.m_last_run_tick x) w); reflexivity.
    + replace (p <? 0) with true by (symmetry; apply Z.ltb_lt; lia).
      rewrite Z.abs_neq by lia.
      destruct (elapsed (sch_legacy.m_last_run_tick x) w); reflexivity.
Qed.
End MoreLegacy.

(** ** The further properties on the stepped-clock host *)

(** X1 (instance): a deadline of five ticks made at tick 10 is tick 15 and
    is expired at tick 15. *)
Lemma deadline_expiry_witness :
  fst (timer_t.make_deadline host.clock 5 10) = 15 /\
  fst (timer_t.is_expired host.clock
         (fst (timer_t.make_deadline host.clock 5 10)) 15) = true.
Proof.
  assert (H5 : is_u64 5) by (unfold is_u64, UINT64_MAX; lia).
  pose proof (deadline_expiry host.clock 5 10 H5) as H. cbv zeta in H.
  destruct H as (_ & Hexp & Hfit & _).
  split.
  - rewrite Hfit; [reflexivity|]. vm_compute. discriminate.
  - apply Hexp. vm_compute. discriminate.
Defined.

(** X2 (instance): at tick 10, two ticks before the start tick 12. *)
Lemma elapsed_exact_witness :
  fst (timer_t.elapsed host.clock 12 10) = -2.
Proof.
  assert (H12 : 0 <= 12 <= INT64_MAX) by (unfold INT64_MAX; lia).
  destruct (elapsed_exact host.clock 12 10 H12) as (Hfit & _).
  rewrite Hfit; [reflexivity|]. vm_compute. discriminate.
Defined.

(** X3 (instance): six samples through a ring of four. *)
Lemma ring_holds_last_samples_witness :
  let s := feed 4 [1; 2; 3; 4; 5; 6]
             (min_max_mean_t.reset 4 (min_max_mean_t.init 4)) in
  rotate (min_max_mean_t.m_index s) (min_max_mean_t.m_values s) =
    [3; 4; 5; 6].
Proof.
  cbv zeta.
  pose proof (ring_holds_last_samples 4 1 [2; 3; 4; 5; 6]
                (min_max_mean_t.init 4) ltac:(lia)) as H.
  cbv zeta in H. destruct H as (_ & _ & _ & Hrot).
  rewrite Hrot; [reflexivity|]. simpl. lia.
Defined.

(** X4 (instance): the minimum 1 has left a ring of two; it is still
    the recorded minimum. *)
Lemma extremes_since_reset_witness :
  let s := feed 2 [5; 1; 9; 4]
             (min_max_mean_t.reset 2 (min_max_mean_t.init 2)) in
  min_max_mean_t.m_values s = [9; 4] /\
  min_max_mean_t.min s <= 1 /\ 9 <= min_max_mean_t.max s.
Proof.
  cbv zeta.
  assert (Hall : Forall is_u64 [5; 1; 9; 4]).
  { repeat constructor; unfold UINT64_MAX; lia. }
  pose proof (extremes_since_reset 2 5 [1; 9; 4]
                (min_max_mean_t.init 2) Hall) as H.
  cbv zeta in H. destruct H as (_ & _ & Hb).
  split; [vm_compute; reflexivity|].
  pose proof (Forall_lookup_1 _ _ 1%nat 1 Hb eq_refl) as H1.
  pose proof (Forall_lookup_1 _ _ 2%nat 9 Hb eq_refl) as H9.
  cbv beta in H1, H9. destruct H1 as [A _]. destruct H9 as [_ B].
  split; assumption.
Defined.

(** X5 (instance) *)
Lemma mean_between_extremes_witness :
  let s := feed 2 [5; 1; 9; 4]
             (min_max_mean_t.reset 2 (min_max_mean_t.init 2)) in
  min_max_mean_t.min s <= min_max_mean_t.mean s <= min_max_mean_t.max s.
Proof.
  cbv zeta.
  apply (mean_between_extremes 2 5 [1; 9; 4] (min_max_mean_t.init 2)).
  - lia.
  - repeat constructor; unfold UINT64_MAX; lia.
  - vm_compute. discriminate.
Defined.

(** X6 (instance): started at reading 10 and stopped at reading 11. *)
Lemma stop_watch_measures_difference_witness :
  let started :=
    stop_watch_t.start host.wrapping_clock
      (stop_watch_t.reset stop_watch_t.init) 10 in
  let stopped :=
    stop_watch_t.stop host.wrapping_clock (fst started) (snd started) in
  min_max_mean_t.min (stop_watch_t.duration (fst stopped)) = 1 /\
  min_max_mean_t.mean (stop_watch_t.duration (fst stopped)) = 1.
Proof.
  cbv zeta.
  pose proof (stop_watch_measures_difference host.wrapping_clock
                stop_watch_t.init 10) as H.
  cbv zeta in H. destruct H as (_ & Hmin & _ & _ & Hmean & _).
  split.
  - rewrite Hmin. vm_compute. reflexivity.
  - rewrite Hmean; [vm_compute; reflexivity|]. vm_compute. discriminate.
Defined.

(** X7 (instance): period 10, never run, polled at tick 25. *)
Lemma nonnegative_period_readiness_witness :
  ready host.clock (task_t.make "t1" 10 host.keep) 25 = true.
Proof.
  pose proof (nonnegative_period_readiness host.clock
                (task_t.make "t1" 10 host.keep) 25) as H.
  cbv zeta in H. destruct H as (Hiff & _).
  - discriminate.
  - discriminate.
  - vm_compute. split; discriminate.
  - vm_compute. split; discriminate.
  - vm_compute. discriminate.
  - apply Hiff. vm_compute. discriminate.
Defined.

(** X8 (instance): polled at tick 5 and then at tick 12. *)
Lemma negative_period_ready_iff_witness :
  ready host.clock (host.poll 5 host.phase_task) 12 = true.
Proof.
  pose proof (negative_period_ready_iff host.clock
                (host.poll 5 host.phase_task) 12) as H.
  cbv zeta in H. apply H.
  - apply reach_is_ready, reach_make.
  - vm_compute. discriminate.
  - vm_compute. discriminate.
  - vm_compute. split; reflexivity.
  - vm_compute. reflexivity.
  - vm_compute. split; [reflexivity | discriminate].
Defined.

(** X9 (instance): found ready at tick 12, polled again at tick 12. *)
Lemma negative_period_edge_triggered_witness :
  ready host.clock (host.poll 5 host.phase_task) 12 = true /\
  ready host.clock (host.poll 12 (host.poll 5 host.phase_task)) 12 = false.
Proof.
  split; [vm_compute; reflexivity|].
  pose proof (negative_period_edge_triggered host.clock
                (host.poll 5 host.phase_task) 12 12) as H.
  cbv zeta in H. apply H.
  - apply reach_is_ready, reach_make.
  - vm_compute. discriminate.
  - vm_compute. discriminate.
  - vm_compute. split; reflexivity.
  - vm_compute. discriminate.
Defined.

(** X10 (instance): run at tick 10. *)
Lemma run_then_ready_after_period_witness :
  exists x' w',
    task_t.run host.clock (task_t.make "t1" 10 host.keep) 10 =
      Done (x', w') /\
    task_t.m_status x' = task_t.paused.
Proof.
  destruct (run_then_ready_after_period host.clock
              (task_t.make "t1" 10 host.keep) 10
              (fun w : Z => (true, w + 1)))
    as (x' & w' & Hrun & Hst & _).
  - discriminate.
  - discriminate.
  - reflexivity.
  - reflexivity.
  - vm_compute. split; discriminate.
  - exists x', w'. split; assumption.
Defined.

(** X11 (instance): [lane2] is full. *)
Lemma lane_capacity_witness :
  thread.add host.lane2 (task_t.make "new" 5 host.keep) 0 =
    (false, host.lane2, 0).
Proof.
  destruct (lane_capacity host.lane2 (task_t.make "new" 5 host.keep) 0)
    as (_ & Hfull & _).
  apply Hfull. reflexivity.
Defined.

(** X12 (instance): the new task takes over the phase sample 5. *)
Lemma add_keeps_phase_of_slot_witness :
  exists new,
    thread.m_tasks_list
      (snd (fst (thread.add demo.stale (task_t.make "n" (-10) host.keep) 0)))
      !! 0%nat = Some new /\
    task_t.m_prev new = 5 /\
    task_t.m_name new = "n"%string.
Proof.
  assert (E : thread.add demo.stale (task_t.make "n" (-10) host.keep) 0 =
              (true,
               snd (fst (thread.add demo.stale
                           (task_t.make "n" (-10) host.keep) 0)), 0))
    by (vm_compute; reflexivity).
  destruct (add_keeps_phase_of_slot _ _ _ _ _ E)
    as (j & old & new & Hold & _ & Hnew & _ & Hprev & _ & Hname & _).
  assert (j = 0%nat) as ->.
  { apply lookup_lt_Some in Hold. simpl in Hold. lia. }
  exists new. split; [exact Hnew|].
  injection Hold as <-. split; [rewrite Hprev; reflexivity | exact Hname].
Defined.

(** X13 (instance): a task constructed from an eleven-character name is
    stopped through a name that shares its first eight characters. *)
Lemma added_task_is_addressable_witness :
  fst (fst (thread.stop
              (snd (fst (thread.add (thread.make 2 0)
                           (task_t.make "abcdefghijk" 10 host.keep) 0)))
              "abcdefghZZZ" 0)) = true.
Proof.
  assert (E : thread.add (thread.make 2 0)
                (task_t.make "abcdefghijk" 10 host.keep) 0 =
              (true,
               snd (fst (thread.add (thread.make 2 0)
                           (task_t.make "abcdefghijk" 10 host.keep) 0)), 0))
    by (vm_compute; reflexivity).
  assert (Hn : named "abcdefghZZZ"
                 (task_t.make "abcdefghijk" 10 host.keep))
    by (split; reflexivity).
  destruct (added_task_is_addressable host.clock _ _ _ _ _ _ 0 Hn E)
    as (_ & _ & Hstop & _).
  exact Hstop.
Defined.

(** X14 (instance): once ["once"] is killed it cannot be started. *)
Lemma pkill_frees_the_slot_witness :
  let l' := snd (fst (thread.pkill host.lane2 "once" 0)) in
  (thread.count_valid (thread.m_tasks_list l') + 1)%nat =
    thread.count_valid (thread.m_tasks_list host.lane2) /\
  fst (fst (thread.start host.clock l' "once" 0)) = false.
Proof.
  assert (Hm : first_match "once" (thread.m_tasks_list host.lane2) 0
                 (task_t.make "once" 0 host.drop)).
  { split; [reflexivity|]. split; [reflexivity|]. split; [reflexivity|].
    intros j y Hj. lia. }
  pose proof (pkill_frees_the_slot host.clock host.lane2 "once" 0 0%nat _ Hm)
    as H.
  cbv zeta in H. destruct H as (Hsize & _ & _ & _ & _ & Hgone).
  split; [exact Hsize|].
  destruct (Hgone) with (w2 := 0) as (_ & Hstart & _); [|exact Hstart].
  unfold host.lane2.
  intros [|[|j]] y Hj; simpl; intros [= <-] [_ Hn]; try congruence.
  vm_compute in Hn. discriminate.
Defined.

(** X15 (instance) *)
Lemma dispatch_keeps_lane_shape_witness :
  exists l' w' trace,
    thread.run_n host.wrapping_clock 5 host.lane3 0 = Done (l', w', trace) /\
    thread.N l' = 3%nat /\
    (thread.m_index l' < 3)%nat /\
    length trace = 5%nat.
Proof.
  destruct (thread.run_n host.wrapping_clock 5 host.lane3 0)
    as [[[l' w'] trace]|f] eqn:E; [|vm_compute in E; discriminate].
  destruct (dispatch_keeps_lane_shape _ _ _ _ _ _ _ E)
    as (HN & _ & _ & Hidx & Hlen & _).
  exists l', w', trace. split; [reflexivity|].
  split; [exact HN|]. split; [|exact Hlen].
  rewrite HN in Hidx. apply Hidx. unfold host.lane3, thread.N. simpl. lia.
Defined.

(** X16 (instance): four calls never execute the stopped slot 0. *)
Lemma dispatch_skips_stopped_and_invalid_witness :
  exists l' w' trace,
    thread.run_n host.wrapping_clock 4 demo.parked 0 = Done (l', w', trace) /\
    thread.m_tasks_list l' !! 0%nat =
      Some (task_t.stop (task_t.make "a" 0 host.keep)) /\
    Some 0%nat ∉ trace.
Proof.
  destruct (thread.run_n host.wrapping_clock 4 demo.parked 0)
    as [[[l' w'] trace]|f] eqn:E; [|vm_compute in E; discriminate].
  destruct (dispatch_skips_stopped_and_invalid _ _ _ _ _ _ _ 0%nat
              (task_t.stop (task_t.make "a" 0 host.keep)) E)
    as (Hsame & Hnot).
  - reflexivity.
  - left. reflexivity.
  - exists l', w', trace. auto.
Defined.

Lemma guarded_is_critical_section :
  critical_section demo.depth demo.clock2 demo.guarded.
Proof.
  split.
  - intros w. reflexivity.
  - intros w. reflexivity.
  - intros w. reflexivity.
  - intros [|i] x cb w; simpl; [|discriminate].
    intros [= <-] [= <-]. reflexivity.
Qed.

(** X17 (instance): [run()] on a guarded lane, entered at depth 0. *)
Lemma lane_operations_balanced_witness :
  exists l' w' e,
    thread.run demo.clock2 demo.guarded (10, 0) = Done (l', w', e) /\
    demo.depth w' = 0 /\
    demo.depth (poll_world demo.clock2 demo.guarded (10, 0)) = 1.
Proof.
  destruct (lane_operations_balanced demo.depth demo.clock2
              ltac:(intros w; reflexivity) demo.guarded
              guarded_is_critical_section (10, 0)
              (task_t.make "x" 0 None) "x")
    as (_ & _ & _ & _ & _ & _ & Hpoll & Hrun).
  destruct (thread.run demo.clock2 demo.guarded (10, 0))
    as [[[l' w'] e]|f] eqn:E; [|vm_compute in E; discriminate].
  exists l', w', e. split; [reflexivity|].
  split; [apply (Hrun l' w' e eq_refl) | exact Hpoll].
Defined.

(** X18 (instance): three lanes on a new scheduler. *)
Lemma registry_fills_in_order_witness :
  scheduler_t.m_threads
    (register_all [Some 4%nat; Some 7%nat; Some 2%nat] host.fresh) =
  [Some 4%nat; Some 7%nat; Some 2%nat; None; None; None; None; None].
Proof.
  pose proof (registry_fills_in_order [4; 7; 2]%nat
                (timer_t.m_on_now_cb host.clock)
                {| timer_t.m_on_now_cb := None |} ltac:(simpl; lia)) as H.
  cbv zeta in H. destruct H as (Hfill & _). exact Hfill.
Defined.

(** X19 (instance) *)
Lemma null_registration_changes_nothing_witness :
  scheduler_t.add_thread host.wired None = (true, host.wired).
Proof.
  apply (null_registration_changes_nothing host.wired 1%nat). reflexivity.
Defined.

(** X20 (instance): both lanes hold ["dup"]; one [pkill] changes one. *)
Lemma broadcast_changes_one_lane_witness :
  exists lanes' w' a,
    scheduler_t.pkill demo.both "dup" [demo.dup_lane; demo.dup_lane] 0 =
      Done (true, lanes', w') /\
    forall c, c <> a ->
      lanes' !! c = [demo.dup_lane; demo.dup_lane] !! c.
Proof.
  destruct (scheduler_t.pkill demo.both "dup" [demo.dup_lane; demo.dup_lane] 0)
    as [[[b lanes'] w']|f] eqn:E; [|vm_compute in E; discriminate].
  assert (b = true) as -> by (vm_compute in E; congruence).
  destruct (broadcast_changes_one_lane host.clock demo.both "dup"
              [demo.dup_lane; demo.dup_lane] 0 true lanes' w')
    as (Hkill & _).
  destruct (Hkill E) as (_ & Hone).
  destruct (Hone eq_refl) as (a & l & w1 & _ & _ & _ & _ & _ & Hothers).
  exists lanes', w', a. split; [reflexivity | exact Hothers].
Defined.

(** X21 (instance): [run(256)] addresses slot 0 and leaves the lane at
    address 1 alone. *)
Lemma scheduler_call_touches_one_lane_witness :
  exists lanes' w',
    scheduler_t.run host.clock host.wired 256 [host.lane2; host.lane3] 50 =
      Done (lanes', w') /\
    lanes' !! 1%nat = Some host.lane3.
Proof.
  destruct (scheduler_t.run host.clock host.wired 256
              [host.lane2; host.lane3] 50)
    as [[lanes' w']|f] eqn:E; [|vm_compute in E; discriminate].
  destruct (scheduler_call_touches_one_lane host.clock host.wired 256
              (task_t.make "x" 0 None) [host.lane2; host.lane3] 50)
    as (Hrun & _).
  destruct (Hrun lanes' w' E) as (_ & Hothers).
  exists lanes', w'. split; [reflexivity|].
  rewrite Hothers; [reflexivity|]. vm_compute. discriminate.
Defined.

(** X22 (instance): armed at tick 10 for five ticks. *)
Lemma sleep_holds_until_deadline_witness :
  fst (fst (stage_t.sleep host.clock 5 stage_t.init 10)) =
    direction_t.stay /\
  stage_t.m_deadline
    (snd (fst (stage_t.sleep host.clock 5 stage_t.init 10))) = 15.
Proof.
  pose proof (sleep_holds_until_deadline host.clock 5 stage_t.init 10) as H.
  cbv zeta in H. destruct H as (_ & _ & _ & Hstay & _ & Hawake).
  destruct (Hawake eq_refl) as (Hd & _).
  split; [apply Hstay; reflexivity | rewrite Hd; reflexivity].
Defined.

Lemma sleep_keeps_index (tm : timer_t.t Z) (ticks : Z) s w :
  stage_t.m_index (snd (fst (stage_t.sleep tm ticks s w))) =
  stage_t.m_index s.
Proof.
  unfold stage_t.sleep, timer_t.make_deadline, timer_t.is_expired.
  destruct (stage_t.m_is_sleeping s).
  - destruct (timer_t.now tm w) as [n w1].
    destruct (stage_t.m_deadline s <=? n); reflexivity.
  - destruct (timer_t.now tm w) as [n w1]. cbn [stage_t.m_deadline].
    destruct (timer_t.now tm w1) as [n2 w2].
    destruct (to_u64 (n + ticks) <=? n2); reflexivity.
Qed.

(** X23 (instance): at the empty stage 1 the machine starts over with
    stage 0. *)
Lemma stage_run_follows_direction_witness :
  exists s' w',
    stage_t.run demo.stages (stage_t.with_index stage_t.init 1) 10 =
      Done (s', w') /\
    stage_t.m_index s' = 0%nat /\
    stage_t.m_is_sleeping s' = true.
Proof.
  destruct (stage_run_follows_direction demo.stages
              (stage_t.with_index stage_t.init 1) 10)
    as (_ & Hhole & _).
  - simpl. lia.
  - intros [|[|i]] f s0 w0; simpl; intros [= <-].
    apply sleep_keeps_index.
  - rewrite (Hhole eq_refl (stage_t.SCH_SLEEP host.clock 5) eq_refl).
    eexists _, _. split; [reflexivity|]. split; reflexivity.
Defined.

(** X24 (instance): asleep until tick 15, polled at ticks 12 and 20. *)
Lemma sleep_stage_advances_on_expiry_witness :
  stage_t.run demo.stages demo.asleep 12 = Done (demo.asleep, 12) /\
  stage_t.run demo.stages demo.asleep 20 =
    Done ({| stage_t.m_index := 1%nat; stage_t.m_is_sleeping := false;
             stage_t.m_deadline := 15 |}, 20).
Proof.
  split.
  - destruct (sleep_stage_advances_on_expiry host.clock 5 demo.stages
                demo.asleep 12 eq_refl eq_refl) as (Hstay & _).
    apply Hstay. reflexivity.
  - destruct (sleep_stage_advances_on_expiry host.clock 5 demo.stages
                demo.asleep 20 eq_refl eq_refl) as (_ & Hnext).
    apply Hnext. discriminate.
Defined.

(** X25 (instance): periods 10 and -10 in the older header. *)
Lemma legacy_readiness_ignores_sign_witness :
  sch_legacy_task.is_ready (timer_t.elapsed host.clock) demo.old_minus 25 =
  sch_legacy_task.is_ready (timer_t.elapsed host.clock) demo.old_plus 25.
Proof.
  destruct (legacy_readiness_ignores_sign (timer_t.elapsed host.clock)
              demo.old_plus demo.old_minus 25) as (Heq & _).
  - vm_compute. reflexivity.
  - reflexivity.
  - reflexivity.
  - reflexivity.
  - vm_compute. split; discriminate.
  - exact Heq.
Defined.
